(** * SMUSH player (engines/scumm/smush/smush_player.cpp)

    A shallow embedding of the chunk dispatcher, the palette tracker, the
    frame-object router, the audio feed paths, the pause clock and the
    play loop of [SmushPlayer], followed by the properties established
    about them. *)

From Stdlib Require Import ZArith List Bool Ascii String Lia.
From stdpp Require Import base numbers list gmap.
Import ListNotations.
Open Scope Z_scope.

(** ** Machine integers

    C++ integers are integers of [Z] reduced to their width: unsigned
    values modulo [2^w], signed values in two's complement. *)

Definition wrapU (w z : Z) : Z := z mod 2 ^ w.
Definition wrapS (w z : Z) : Z := (z + 2 ^ (w - 1)) mod 2 ^ w - 2 ^ (w - 1).

Definition to_byte : Z -> Z := wrapU 8.
Definition to_uint16 : Z -> Z := wrapU 16.
Definition to_uint32 : Z -> Z := wrapU 32.
Definition to_int8 : Z -> Z := wrapS 8.
Definition to_int16 : Z -> Z := wrapS 16.
Definition to_int32 : Z -> Z := wrapS 32.

Definition is_byte (z : Z) : Prop := 0 <= z <= 255.
Definition is_int16 (z : Z) : Prop := -32768 <= z <= 32767.
Definition is_int32 (z : Z) : Prop := -2147483648 <= z <= 2147483647.

(** [CLIP] of common/util.h: [v] brought into [[amin, amax]]. *)
Definition CLIP (v amin amax : Z) : Z :=
  if v <? amin then amin else if amax <? v then amax else v.

(** [MIN] of common/util.h. *)
Definition MIN (a b : Z) : Z := if a <? b then a else b.

(** ** Outcomes

    A handler either returns, or stops playback through [error(...)] or a
    failed [assert], or (in this model of loops whose exit depends on the
    data) uses up its iteration budget. *)

Inductive Res (A : Type) : Type :=
| Ok (a : A)
| Fatal (msg : string)
| Spin.
Arguments Ok {A} a.
Arguments Fatal {A} msg.
Arguments Spin {A}.

Definition bind {A B : Type} (m : Res A) (k : A -> Res B) : Res B :=
  match m with
  | Ok a => k a
  | Fatal msg => Fatal msg
  | Spin => Spin
  end.

Notation "x <- m ;; k" := (bind m (fun x => k))
  (at level 100, m at next level, right associativity).
Definition error {A : Type} (msg : string) : Res A := Fatal msg.

Definition assert (c : bool) (msg : string) : Res unit :=
  if c then Ok tt else Fatal msg.

Definition is_ok {A : Type} (r : Res A) : bool :=
  match r with Ok _ => true | _ => false end.

(** ** The container cursor

    Modelled from the spec: [Common::SeekableReadStream] is declared
    outside the sources at hand. The Container Cursor is a sequential
    reader over a byte stream with a read cursor and [seekTo(offset)]; a
    read returns the bytes that remain (at most the number asked for) and
    advances the cursor past them, and a missing byte of a fixed-width
    read counts as zero. *)

Record Stream : Type := mkStream { s_bytes : list Z; s_pos : Z }.

Definition pos (b : Stream) : Z := s_pos b.
Definition seek (offset : Z) (b : Stream) : Stream := mkStream (s_bytes b) offset.
Definition skip (n : Z) (b : Stream) : Stream := mkStream (s_bytes b) (s_pos b + n).

Definition remaining (b : Stream) : list Z :=
  if s_pos b <? 0 then [] else drop (Z.to_nat (s_pos b)) (s_bytes b).

Definition read (n : Z) (b : Stream) : list Z * Stream :=
  let got := take (Z.to_nat n) (remaining b) in
  (got, mkStream (s_bytes b) (s_pos b + Z.of_nat (length got))).

Definition byteAt (l : list Z) (i : nat) : Z := to_byte (default 0 (l !! i)).

Definition readByte (b : Stream) : Z * Stream :=
  let '(got, b') := read 1 b in (byteAt got 0, b').
Definition readSByte (b : Stream) : Z * Stream :=
  let '(v, b') := readByte b in (to_int8 v, b').
Definition readUint16LE (b : Stream) : Z * Stream :=
  let '(got, b') := read 2 b in (byteAt got 0 + 256 * byteAt got 1, b').
Definition readSint16LE (b : Stream) : Z * Stream :=
  let '(v, b') := readUint16LE b in (to_int16 v, b').
Definition readUint32BE (b : Stream) : Z * Stream :=
  let '(got, b') := read 4 b in
  (((byteAt got 0 * 256 + byteAt got 1) * 256 + byteAt got 2) * 256 + byteAt got 3, b').
Definition readUint32LE (b : Stream) : Z * Stream :=
  let '(got, b') := read 4 b in
  (((byteAt got 3 * 256 + byteAt got 2) * 256 + byteAt got 1) * 256 + byteAt got 0, b').

(** [MKTAG(a,b,c,d)]: four characters as one big-endian 32-bit code. *)
Definition MKTAG (a b c d : Z) : Z := ((a * 256 + b) * 256 + c) * 256 + d.

Definition TAG_AHDR : Z := MKTAG 65 72 68 82.
Definition TAG_FRME : Z := MKTAG 70 82 77 69.
Definition TAG_NPAL : Z := MKTAG 78 80 65 76.
Definition TAG_FOBJ : Z := MKTAG 70 79 66 74.
Definition TAG_ZFOB : Z := MKTAG 90 70 79 66.
Definition TAG_PSAD : Z := MKTAG 80 83 65 68.
Definition TAG_TRES : Z := MKTAG 84 82 69 83.
Definition TAG_XPAL : Z := MKTAG 88 80 65 76.
Definition TAG_IACT : Z := MKTAG 73 65 67 84.
Definition TAG_STOR : Z := MKTAG 83 84 79 82.
Definition TAG_FTCH : Z := MKTAG 70 84 67 72.
Definition TAG_SKIP : Z := MKTAG 83 75 73 80.
Definition TAG_TEXT : Z := MKTAG 84 69 88 84.
Definition TAG_iMUS : Z := MKTAG 105 77 85 83.

(** ** Audio channels

    Modelled from the spec: [SmushChannel]/[SaudChannel] and [SmushMixer]
    are declared outside the sources at hand. Per track id a channel
    keeps the last-seen block index, the expected block count, flags,
    volume, pan and the pending-append buffer. Setting the parameters
    stores them unconditionally; checking them validates that the block
    index is the immediate successor of the last index and logs a
    mismatch; appending takes the payload bytes off the stream. *)

Record Channel : Type := mkChannel {
  ch_track : Z;
  ch_index : Z;
  ch_nbframes : Z;
  ch_flags : Z;
  ch_volume : Z;
  ch_pan : Z;
  ch_data : list Z
}.

Definition newSaudChannel (track_id : Z) : Channel :=
  mkChannel track_id 0 0 0 0 0 [].

Definition setParameters (nbframes flags volume pan index : Z) (c : Channel)
  : Channel :=
  mkChannel (ch_track c) index nbframes flags volume pan (ch_data c).

Definition MSG_INDEX : string := "invalid index in SaudChannel::checkParameters()".

Definition checkParameters (index nbframes flags volume pan : Z) (c : Channel)
  : Channel * list string :=
  (mkChannel (ch_track c) index (ch_nbframes c) (ch_flags c) (ch_volume c)
     (ch_pan c) (ch_data c),
   if index =? ch_index c + 1 then [] else [MSG_INDEX]).

Definition appendData (b : Stream) (size : Z) (c : Channel) : Channel * Stream :=
  let '(got, b') := read size b in
  (mkChannel (ch_track c) (ch_index c) (ch_nbframes c) (ch_flags c)
     (ch_volume c) (ch_pan c) (ch_data c ++ got), b').

(** ** The engine around the player *)

(** [_vm->_game.id], as far as the player distinguishes it. *)
Inductive GameId : Type := GID_FT | GID_DIG | GID_CMI | GID_OTHER.

(** What [_dst] points to during playback: the pixels of the main virtual
    screen (set by [init]) or [_specialBuffer]. *)
Inductive Target : Type := DstScreen | DstSpecial.

(** Calls made on [IMuseDigital], most recent first. *)
Inductive IMuseCall : Type :=
| FeedStream (soundId : Z) (data : list Z) (size paused : Z)
| StartStream (soundId priority bufId : Z)
| SwitchStream (oldSoundId newSoundId fadeLength : Z)
| SetParam (soundId param value : Z)
| FlushTracks
| StopSMUSHAudio.

(** The collaborators of the player, all outside the sources at hand: the
    engine's constants, the pixel codecs, zlib, the INSANE overlay system,
    the text renderer, the file system, the mixer and iMUSE. Each is taken
    as given, together with the part of the player it may touch. *)
Class Externals : Type := {
  game_id : GameId;
  game_demo : bool;
  _screenWidth : Z;
  _screenHeight : Z;
  USE_ZLIB : bool;
  (* pixel codecs: destination pixels, source, left, top, width, height, pitch *)
  smush_decode_codec1 : list Z -> list Z -> Z -> Z -> Z -> Z -> Z -> list Z;
  smush_decode_codec20 : list Z -> list Z -> Z -> Z -> Z -> Z -> Z -> list Z;
  Codec37Decoder : Type;
  codec37_new : Z -> Z -> Codec37Decoder;
  codec37_decode : Codec37Decoder -> list Z -> list Z -> Codec37Decoder * list Z;
  Codec47Decoder : Type;
  codec47_new : Z -> Z -> Codec47Decoder;
  codec47_decode : Codec47Decoder -> list Z -> list Z -> Codec47Decoder * list Z;
  (* Common::uncompress: source and announced length to the inflated bytes *)
  uncompress : list Z -> Z -> option (list Z);
  (* INSANE: acts on the cursor, on the pixels behind _dst and on _skipNext *)
  Insane : Type;
  procPreRendering : Insane -> Insane;
  procPostRendering : list Z -> Z -> Z -> Insane -> Insane * list Z;
  procSKIP : Z -> Stream -> Insane -> Stream * Insane * bool;
  procIACT : list Z -> Stream -> Z -> Z -> Z -> Z -> Insane -> Stream * Insane * list Z;
  (* handleTextResource: reads the chunk and draws into the pixels behind
     _dst, of the given width and height; may stop with a fatal error *)
  drawTextResource : Z -> Z -> Stream -> Z -> Z -> list Z -> Res (Stream * list Z);
  (* files *)
  openFile : string -> option (list Z);
  compressedFileOpens : string -> bool;
  (* SmushMixer::stop and SmushMixer::handleFrame *)
  smixer_stop : gmap Z Channel -> gmap Z Channel;
  smixer_handleFrame : gmap Z Channel -> gmap Z Channel;
  (* the IACT audio queue of The Curse of Monkey Island *)
  IACTAudio : Type;
  iact_reset : IACTAudio -> IACTAudio;
  iact_queue : list Z -> IACTAudio -> IACTAudio;
  (* iMUSE constants and queries, the latter on the calls made so far *)
  DIMUSE_BUFFER_SPEECH : Z;
  DIMUSE_BUFFER_MUSIC : Z;
  DIMUSE_BUFFER_SMUSH : Z;
  DIMUSE_SMUSH_SOUNDID : Z;
  DIMUSE_P_SND_TRACK_NUM : Z;
  DIMUSE_P_SND_HAS_STREAM : Z;
  DIMUSE_P_STREAM_BUFID : Z;
  DIMUSE_P_VOLUME : Z;
  DIMUSE_P_GROUP : Z;
  DIMUSE_GROUP_SPEECH : Z;
  DIMUSE_GROUP_MUSIC : Z;
  DIMUSE_GROUP_SFX : Z;
  diMUSEGetParam : list IMuseCall -> Z -> Z -> Z;
  diMUSEGetNextSound : list IMuseCall -> Z -> Z;
  diMUSEStartStream : list IMuseCall -> Z -> Z -> Z -> Z
}.

(** ** The player

    The members of [SmushPlayer] that playback reads and writes, followed
    by the state of its collaborators: the pixels of the main virtual
    screen, the channels of the SMUSH mixer, the calls made on iMUSE, the
    INSANE system, the debug log and the engine's finish flag.

    Modelled from the spec: the class declaration (smush_player.h) is
    outside the sources at hand. The palette is 256 RGB triples of bytes,
    the delta table holds signed 16-bit deltas, chunk sizes and cursor
    offsets are held in [int32] as the .cpp declares its locals, the
    frame counters and the millisecond clocks are unsigned 32-bit, and
    [_iactTable] has the four entries the constructor clears. *)

Section Model.
Context {E : Externals}.

Record Player : Type := mkPlayer {
  _nbframes : Z;
  _deltaPal : list Z;
  _pal : list Z;
  _base : option Stream;
  _baseSize : Z;
  _frameBuffer : option (list Z);
  _specialBuffer : option (list Z);
  _seekFile : string;
  _startFrame : Z;
  _startTime : Z;
  _seekPos : Z;
  _seekFrame : Z;
  _skipNext : bool;
  _frame : Z;
  _compressedFileMode : bool;
  _storeFrame : bool;
  _speed : Z;
  _endOfFile : bool;
  _dst : Target;
  _updateNeeded : bool;
  _palDirtyMin : Z;
  _palDirtyMax : Z;
  _insanity : bool;
  _middleAudio : bool;
  _skipPalette : bool;
  _iactTable : list Z;
  _width : Z;
  _height : Z;
  _paused : bool;
  _pauseStartTime : Z;
  _pauseTime : Z;
  _codec37 : option Codec37Decoder;
  _codec47 : option Codec47Decoder;
  _IACT : IACTAudio;
  vs_pixels : list Z;
  _smixer : gmap Z Channel;
  imuse : list IMuseCall;
  insane : Insane;
  debuglog : list string;
  _smushVideoShouldFinish : bool
}.

Definition set_nbframes (v : Z) (p : Player) : Player :=
  mkPlayer v (_deltaPal p) (_pal p) (_base p) (_baseSize p) (_frameBuffer p)
    (_specialBuffer p) (_seekFile p) (_startFrame p) (_startTime p) (_seekPos
    p) (_seekFrame p) (_skipNext p) (_frame p) (_compressedFileMode p)
    (_storeFrame p) (_speed p) (_endOfFile p) (_dst p) (_updateNeeded p)
    (_palDirtyMin p) (_palDirtyMax p) (_insanity p) (_middleAudio p)
    (_skipPalette p) (_iactTable p) (_width p) (_height p) (_paused p)
    (_pauseStartTime p) (_pauseTime p) (_codec37 p) (_codec47 p) (_IACT p)
    (vs_pixels p) (_smixer p) (imuse p) (insane p) (debuglog p)
    (_smushVideoShouldFinish p).
Definition set_deltaPal (v : list Z) (p : Player) : Player :=
  mkPlayer (_nbframes p) v (_pal p) (_base p) (_baseSize p) (_frameBuffer p)
    (_specialBuffer p) (_seekFile p) (_startFrame p) (_startTime p) (_seekPos
    p) (_seekFrame p) (_skipNext p) (_frame p) (_compressedFileMode p)
    (_storeFrame p) (_speed p) (_endOfFile p) (_dst p) (_updateNeeded p)
    (_palDirtyMin p) (_palDirtyMax p) (_insanity p) (_middleAudio p)
    (_skipPalette p) (_iactTable p) (_width p) (_height p) (_paused p)
    (_pauseStartTime p) (_pauseTime p) (_codec37 p) (_codec47 p) (_IACT p)
    (vs_pixels p) (_smixer p) (imuse p) (insane p) (debuglog p)
    (_smushVideoShouldFinish p).
Definition set_pal (v : list Z) (p : Player) : Player :=
  mkPlayer (_nbframes p) (_deltaPal p) v (_base p) (_baseSize p) (_frameBuffer
    p) (_specialBuffer p) (_seekFile p) (_startFrame p) (_startTime p)
    (_seekPos p) (_seekFrame p) (_skipNext p) (_frame p) (_compressedFileMode
    p) (_storeFrame p) (_speed p) (_endOfFile p) (_dst p) (_updateNeeded p)
    (_palDirtyMin p) (_palDirtyMax p) (_insanity p) (_middleAudio p)
    (_skipPalette p) (_iactTable p) (_width p) (_height p) (_paused p)
    (_pauseStartTime p) (_pauseTime p) (_codec37 p) (_codec47 p) (_IACT p)
    (vs_pixels p) (_smixer p) (imuse p) (insane p) (debuglog p)
    (_smushVideoShouldFinish p).
Definition set_base (v : option Stream) (p : Player) : Player :=
  mkPlayer (_nbframes p) (_deltaPal p) (_pal p) v (_baseSize p) (_frameBuffer
    p) (_specialBuffer p) (_seekFile p) (_startFrame p) (_startTime p)
    (_seekPos p) (_seekFrame p) (_skipNext p) (_frame p) (_compressedFileMode
    p) (_storeFrame p) (_speed p) (_endOfFile p) (_dst p) (_updateNeeded p)
    (_palDirtyMin p) (_palDirtyMax p) (_insanity p) (_middleAudio p)
    (_skipPalette p) (_iactTable p) (_width p) (_height p) (_paused p)
    (_pauseStartTime p) (_pauseTime p) (_codec37 p) (_codec47 p) (_IACT p)
    (vs_pixels p) (_smixer p) (imuse p) (insane p) (debuglog p)
    (_smushVideoShouldFinish p).
Definition set_baseSize (v : Z) (p : Player) : Player :=
  mkPlayer (_nbframes p) (_deltaPal p) (_pal p) (_base p) v (_frameBuffer p)
    (_specialBuffer p) (_seekFile p) (_startFrame p) (_startTime p) (_seekPos
    p) (_seekFrame p) (_skipNext p) (_frame p) (_compressedFileMode p)
    (_storeFrame p) (_speed p) (_endOfFile p) (_dst p) (_updateNeeded p)
    (_palDirtyMin p) (_palDirtyMax p) (_insanity p) (_middleAudio p)
    (_skipPalette p) (_iactTable p) (_width p) (_height p) (_paused p)
    (_pauseStartTime p) (_pauseTime p) (_codec37 p) (_codec47 p) (_IACT p)
    (vs_pixels p) (_smixer p) (imuse p) (insane p) (debuglog p)
    (_smushVideoShouldFinish p).
Definition set_frameBuffer (v : option (list Z)) (p : Player) : Player :=
  mkPlayer (_nbframes p) (_deltaPal p) (_pal p) (_base p) (_baseSize p) v
    (_specialBuffer p) (_seekFile p) (_startFrame p) (_startTime p) (_seekPos
    p) (_seekFrame p) (_skipNext p) (_frame p) (_compressedFileMode p)
    (_storeFrame p) (_speed p) (_endOfFile p) (_dst p) (_updateNeeded p)
    (_palDirtyMin p) (_palDirtyMax p) (_insanity p) (_middleAudio p)
    (_skipPalette p) (_iactTable p) (_width p) (_height p) (_paused p)
    (_pauseStartTime p) (_pauseTime p) (_codec37 p) (_codec47 p) (_IACT p)
    (vs_pixels p) (_smixer p) (imuse p) (insane p) (debuglog p)
    (_smushVideoShouldFinish p).
Definition set_specialBuffer (v : option (list Z)) (p : Player) : Player :=
  mkPlayer (_nbframes p) (_deltaPal p) (_pal p) (_base p) (_baseSize p)
    (_frameBuffer p) v (_seekFile p) (_startFrame p) (_startTime p) (_seekPos
    p) (_seekFrame p) (_skipNext p) (_frame p) (_compressedFileMode p)
    (_storeFrame p) (_speed p) (_endOfFile p) (_dst p) (_updateNeeded p)
    (_palDirtyMin p) (_palDirtyMax p) (_insanity p) (_middleAudio p)
    (_skipPalette p) (_iactTable p) (_width p) (_height p) (_paused p)
    (_pauseStartTime p) (_pauseTime p) (_codec37 p) (_codec47 p) (_IACT p)
    (vs_pixels p) (_smixer p) (imuse p) (insane p) (debuglog p)
    (_smushVideoShouldFinish p).
Definition set_seekFile (v : string) (p : Player) : Player :=
  mkPlayer (_nbframes p) (_deltaPal p) (_pal p) (_base p) (_baseSize p)
    (_frameBuffer p) (_specialBuffer p) v (_startFrame p) (_startTime p)
    (_seekPos p) (_seekFrame p) (_skipNext p) (_frame p) (_compressedFileMode
    p) (_storeFrame p) (_speed p) (_endOfFile p) (_dst p) (_updateNeeded p)
    (_palDirtyMin p) (_palDirtyMax p) (_insanity p) (_middleAudio p)
    (_skipPalette p) (_iactTable p) (_width p) (_height p) (_paused p)
    (_pauseStartTime p) (_pauseTime p) (_codec37 p) (_codec47 p) (_IACT p)
    (vs_pixels p) (_smixer p) (imuse p) (insane p) (debuglog p)
    (_smushVideoShouldFinish p).
Definition set_startFrame (v : Z) (p : Player) : Player :=
  mkPlayer (_nbframes p) (_deltaPal p) (_pal p) (_base p) (_baseSize p)
    (_frameBuffer p) (_specialBuffer p) (_seekFile p) v (_startTime p)
    (_seekPos p) (_seekFrame p) (_skipNext p) (_frame p) (_compressedFileMode
    p) (_storeFrame p) (_speed p) (_endOfFile p) (_dst p) (_updateNeeded p)
    (_palDirtyMin p) (_palDirtyMax p) (_insanity p) (_middleAudio p)
    (_skipPalette p) (_iactTable p) (_width p) (_height p) (_paused p)
    (_pauseStartTime p) (_pauseTime p) (_codec37 p) (_codec47 p) (_IACT p)
    (vs_pixels p) (_smixer p) (imuse p) (insane p) (debuglog p)
    (_smushVideoShouldFinish p).
Definition set_startTime (v : Z) (p : Player) : Player :=
  mkPlayer (_nbframes p) (_deltaPal p) (_pal p) (_base p) (_baseSize p)
    (_frameBuffer p) (_specialBuffer p) (_seekFile p) (_startFrame p) v
    (_seekPos p) (_seekFrame p) (_skipNext p) (_frame p) (_compressedFileMode
    p) (_storeFrame p) (_speed p) (_endOfFile p) (_dst p) (_updateNeeded p)
    (_palDirtyMin p) (_palDirtyMax p) (_insanity p) (_middleAudio p)
    (_skipPalette p) (_iactTable p) (_width p) (_height p) (_paused p)
    (_pauseStartTime p) (_pauseTime p) (_codec37 p) (_codec47 p) (_IACT p)
    (vs_pixels p) (_smixer p) (imuse p) (insane p) (debuglog p)
    (_smushVideoShouldFinish p).
Definition set_seekPos (v : Z) (p : Player) : Player :=
  mkPlayer (_nbframes p) (_deltaPal p) (_pal p) (_base p) (_baseSize p)
    (_frameBuffer p) (_specialBuffer p) (_seekFile p) (_startFrame p)
    (_startTime p) v (_seekFrame p) (_skipNext p) (_frame p)
    (_compressedFileMode p) (_storeFrame p) (_speed p) (_endOfFile p) (_dst p)
    (_updateNeeded p) (_palDirtyMin p) (_palDirtyMax p) (_insanity p)
    (_middleAudio p) (_skipPalette p) (_iactTable p) (_width p) (_height p)
    (_paused p) (_pauseStartTime p) (_pauseTime p) (_codec37 p) (_codec47 p)
    (_IACT p) (vs_pixels p) (_smixer p) (imuse p) (insane p) (debuglog p)
    (_smushVideoShouldFinish p).
Definition set_seekFrame (v : Z) (p : Player) : Player :=
  mkPlayer (_nbframes p) (_deltaPal p) (_pal p) (_base p) (_baseSize p)
    (_frameBuffer p) (_specialBuffer p) (_seekFile p) (_startFrame p)
    (_startTime p) (_seekPos p) v (_skipNext p) (_frame p)
    (_compressedFileMode p) (_storeFrame p) (_speed p) (_endOfFile p) (_dst p)
    (_updateNeeded p) (_palDirtyMin p) (_palDirtyMax p) (_insanity p)
    (_middleAudio p) (_skipPalette p) (_iactTable p) (_width p) (_height p)
    (_paused p) (_pauseStartTime p) (_pauseTime p) (_codec37 p) (_codec47 p)
    (_IACT p) (vs_pixels p) (_smixer p) (imuse p) (insane p) (debuglog p)
    (_smushVideoShouldFinish p).
Definition set_skipNext (v : bool) (p : Player) : Player :=
  mkPlayer (_nbframes p) (_deltaPal p) (_pal p) (_base p) (_baseSize p)
    (_frameBuffer p) (_specialBuffer p) (_seekFile p) (_startFrame p)
    (_startTime p) (_seekPos p) (_seekFrame p) v (_frame p)
    (_compressedFileMode p) (_storeFrame p) (_speed p) (_endOfFile p) (_dst p)
    (_updateNeeded p) (_palDirtyMin p) (_palDirtyMax p) (_insanity p)
    (_middleAudio p) (_skipPalette p) (_iactTable p) (_width p) (_height p)
    (_paused p) (_pauseStartTime p) (_pauseTime p) (_codec37 p) (_codec47 p)
    (_IACT p) (vs_pixels p) (_smixer p) (imuse p) (insane p) (debuglog p)
    (_smushVideoShouldFinish p).
Definition set_frame (v : Z) (p : Player) : Player :=
  mkPlayer (_nbframes p) (_deltaPal p) (_pal p) (_base p) (_baseSize p)
    (_frameBuffer p) (_specialBuffer p) (_seekFile p) (_startFrame p)
    (_startTime p) (_seekPos p) (_seekFrame p) (_skipNext p) v
    (_compressedFileMode p) (_storeFrame p) (_speed p) (_endOfFile p) (_dst p)
    (_updateNeeded p) (_palDirtyMin p) (_palDirtyMax p) (_insanity p)
    (_middleAudio p) (_skipPalette p) (_iactTable p) (_width p) (_height p)
    (_paused p) (_pauseStartTime p) (_pauseTime p) (_codec37 p) (_codec47 p)
    (_IACT p) (vs_pixels p) (_smixer p) (imuse p) (insane p) (debuglog p)
    (_smushVideoShouldFinish p).
Definition set_compressedFileMode (v : bool) (p : Player) : Player :=
  mkPlayer (_nbframes p) (_deltaPal p) (_pal p) (_base p) (_baseSize p)
    (_frameBuffer p) (_specialBuffer p) (_seekFile p) (_startFrame p)
    (_startTime p) (_seekPos p) (_seekFrame p) (_skipNext p) (_frame p) v
    (_storeFrame p) (_speed p) (_endOfFile p) (_dst p) (_updateNeeded p)
    (_palDirtyMin p) (_palDirtyMax p) (_insanity p) (_middleAudio p)
    (_skipPalette p) (_iactTable p) (_width p) (_height p) (_paused p)
    (_pauseStartTime p) (_pauseTime p) (_codec37 p) (_codec47 p) (_IACT p)
    (vs_pixels p) (_smixer p) (imuse p) (insane p) (debuglog p)
    (_smushVideoShouldFinish p).
Definition set_storeFrame (v : bool) (p : Player) : Player :=
  mkPlayer (_nbframes p) (_deltaPal p) (_pal p) (_base p) (_baseSize p)
    (_frameBuffer p) (_specialBuffer p) (_seekFile p) (_startFrame p)
    (_startTime p) (_seekPos p) (_seekFrame p) (_skipNext p) (_frame p)
    (_compressedFileMode p) v (_speed p) (_endOfFile p) (_dst p)
    (_updateNeeded p) (_palDirtyMin p) (_palDirtyMax p) (_insanity p)
    (_middleAudio p) (_skipPalette p) (_iactTable p) (_width p) (_height p)
    (_paused p) (_pauseStartTime p) (_pauseTime p) (_codec37 p) (_codec47 p)
    (_IACT p) (vs_pixels p) (_smixer p) (imuse p) (insane p) (debuglog p)
    (_smushVideoShouldFinish p).
Definition set_speed (v : Z) (p : Player) : Player :=
  mkPlayer (_nbframes p) (_deltaPal p) (_pal p) (_base p) (_baseSize p)
    (_frameBuffer p) (_specialBuffer p) (_seekFile p) (_startFrame p)
    (_startTime p) (_seekPos p) (_seekFrame p) (_skipNext p) (_frame p)
    (_compressedFileMode p) (_storeFrame p) v (_endOfFile p) (_dst p)
    (_updateNeeded p) (_palDirtyMin p) (_palDirtyMax p) (_insanity p)
    (_middleAudio p) (_skipPalette p) (_iactTable p) (_width p) (_height p)
    (_paused p) (_pauseStartTime p) (_pauseTime p) (_codec37 p) (_codec47 p)
    (_IACT p) (vs_pixels p) (_smixer p) (imuse p) (insane p) (debuglog p)
    (_smushVideoShouldFinish p).
Definition set_endOfFile (v : bool) (p : Player) : Player :=
  mkPlayer (_nbframes p) (_deltaPal p) (_pal p) (_base p) (_baseSize p)
    (_frameBuffer p) (_specialBuffer p) (_seekFile p) (_startFrame p)
    (_startTime p) (_seekPos p) (_seekFrame p) (_skipNext p) (_frame p)
    (_compressedFileMode p) (_storeFrame p) (_speed p) v (_dst p)
    (_updateNeeded p) (_palDirtyMin p) (_palDirtyMax p) (_insanity p)
    (_middleAudio p) (_skipPalette p) (_iactTable p) (_width p) (_height p)
    (_paused p) (_pauseStartTime p) (_pauseTime p) (_codec37 p) (_codec47 p)
    (_IACT p) (vs_pixels p) (_smixer p) (imuse p) (insane p) (debuglog p)
    (_smushVideoShouldFinish p).
Definition set_dst (v : Target) (p : Player) : Player :=
  mkPlayer (_nbframes p) (_deltaPal p) (_pal p) (_base p) (_baseSize p)
    (_frameBuffer p) (_specialBuffer p) (_seekFile p) (_startFrame p)
    (_startTime p) (_seekPos p) (_seekFrame p) (_skipNext p) (_frame p)
    (_compressedFileMode p) (_storeFrame p) (_speed p) (_endOfFile p) v
    (_updateNeeded p) (_palDirtyMin p) (_palDirtyMax p) (_insanity p)
    (_middleAudio p) (_skipPalette p) (_iactTable p) (_width p) (_height p)
    (_paused p) (_pauseStartTime p) (_pauseTime p) (_codec37 p) (_codec47 p)
    (_IACT p) (vs_pixels p) (_smixer p) (imuse p) (insane p) (debuglog p)
    (_smushVideoShouldFinish p).
Definition set_updateNeeded (v : bool) (p : Player) : Player :=
  mkPlayer (_nbframes p) (_deltaPal p) (_pal p) (_base p) (_baseSize p)
    (_frameBuffer p) (_specialBuffer p) (_seekFile p) (_startFrame p)
    (_startTime p) (_seekPos p) (_seekFrame p) (_skipNext p) (_frame p)
    (_compressedFileMode p) (_storeFrame p) (_speed p) (_endOfFile p) (_dst p)
    v (_palDirtyMin p) (_palDirtyMax p) (_insanity p) (_middleAudio p)
    (_skipPalette p) (_iactTable p) (_width p) (_height p) (_paused p)
    (_pauseStartTime p) (_pauseTime p) (_codec37 p) (_codec47 p) (_IACT p)
    (vs_pixels p) (_smixer p) (imuse p) (insane p) (debuglog p)
    (_smushVideoShouldFinish p).
Definition set_palDirtyMin (v : Z) (p : Player) : Player :=
  mkPlayer (_nbframes p) (_deltaPal p) (_pal p) (_base p) (_baseSize p)
    (_frameBuffer p) (_specialBuffer p) (_seekFile p) (_startFrame p)
    (_startTime p) (_seekPos p) (_seekFrame p) (_skipNext p) (_frame p)
    (_compressedFileMode p) (_storeFrame p) (_speed p) (_endOfFile p) (_dst p)
    (_updateNeeded p) v (_palDirtyMax p) (_insanity p) (_middleAudio p)
    (_skipPalette p) (_iactTable p) (_width p) (_height p) (_paused p)
    (_pauseStartTime p) (_pauseTime p) (_codec37 p) (_codec47 p) (_IACT p)
    (vs_pixels p) (_smixer p) (imuse p) (insane p) (debuglog p)
    (_smushVideoShouldFinish p).
Definition set_palDirtyMax (v : Z) (p : Player) : Player :=
  mkPlayer (_nbframes p) (_deltaPal p) (_pal p) (_base p) (_baseSize p)
    (_frameBuffer p) (_specialBuffer p) (_seekFile p) (_startFrame p)
    (_startTime p) (_seekPos p) (_seekFrame p) (_skipNext p) (_frame p)
    (_compressedFileMode p) (_storeFrame p) (_speed p) (_endOfFile p) (_dst p)
    (_updateNeeded p) (_palDirtyMin p) v (_insanity p) (_middleAudio p)
    (_skipPalette p) (_iactTable p) (_width p) (_height p) (_paused p)
    (_pauseStartTime p) (_pauseTime p) (_codec37 p) (_codec47 p) (_IACT p)
    (vs_pixels p) (_smixer p) (imuse p) (insane p) (debuglog p)
    (_smushVideoShouldFinish p).
Definition set_insanity (v : bool) (p : Player) : Player :=
  mkPlayer (_nbframes p) (_deltaPal p) (_pal p) (_base p) (_baseSize p)
    (_frameBuffer p) (_specialBuffer p) (_seekFile p) (_startFrame p)
    (_startTime p) (_seekPos p) (_seekFrame p) (_skipNext p) (_frame p)
    (_compressedFileMode p) (_storeFrame p) (_speed p) (_endOfFile p) (_dst p)
    (_updateNeeded p) (_palDirtyMin p) (_palDirtyMax p) v (_middleAudio p)
    (_skipPalette p) (_iactTable p) (_width p) (_height p) (_paused p)
    (_pauseStartTime p) (_pauseTime p) (_codec37 p) (_codec47 p) (_IACT p)
    (vs_pixels p) (_smixer p) (imuse p) (insane p) (debuglog p)
    (_smushVideoShouldFinish p).
Definition set_middleAudio (v : bool) (p : Player) : Player :=
  mkPlayer (_nbframes p) (_deltaPal p) (_pal p) (_base p) (_baseSize p)
    (_frameBuffer p) (_specialBuffer p) (_seekFile p) (_startFrame p)
    (_startTime p) (_seekPos p) (_seekFrame p) (_skipNext p) (_frame p)
    (_compressedFileMode p) (_storeFrame p) (_speed p) (_endOfFile p) (_dst p)
    (_updateNeeded p) (_palDirtyMin p) (_palDirtyMax p) (_insanity p) v
    (_skipPalette p) (_iactTable p) (_width p) (_height p) (_paused p)
    (_pauseStartTime p) (_pauseTime p) (_codec37 p) (_codec47 p) (_IACT p)
    (vs_pixels p) (_smixer p) (imuse p) (insane p) (debuglog p)
    (_smushVideoShouldFinish p).
Definition set_skipPalette (v : bool) (p : Player) : Player :=
  mkPlayer (_nbframes p) (_deltaPal p) (_pal p) (_base p) (_baseSize p)
    (_frameBuffer p) (_specialBuffer p) (_seekFile p) (_startFrame p)
    (_startTime p) (_seekPos p) (_seekFrame p) (_skipNext p) (_frame p)
    (_compressedFileMode p) (_storeFrame p) (_speed p) (_endOfFile p) (_dst p)
    (_updateNeeded p) (_palDirtyMin p) (_palDirtyMax p) (_insanity p)
    (_middleAudio p) v (_iactTable p) (_width p) (_height p) (_paused p)
    (_pauseStartTime p) (_pauseTime p) (_codec37 p) (_codec47 p) (_IACT p)
    (vs_pixels p) (_smixer p) (imuse p) (insane p) (debuglog p)
    (_smushVideoShouldFinish p).
Definition set_iactTable (v : list Z) (p : Player) : Player :=
  mkPlayer (_nbframes p) (_deltaPal p) (_pal p) (_base p) (_baseSize p)
    (_frameBuffer p) (_specialBuffer p) (_seekFile p) (_startFrame p)
    (_startTime p) (_seekPos p) (_seekFrame p) (_skipNext p) (_frame p)
    (_compressedFileMode p) (_storeFrame p) (_speed p) (_endOfFile p) (_dst p)
    (_updateNeeded p) (_palDirtyMin p) (_palDirtyMax p) (_insanity p)
    (_middleAudio p) (_skipPalette p) v (_width p) (_height p) (_paused p)
    (_pauseStartTime p) (_pauseTime p) (_codec37 p) (_codec47 p) (_IACT p)
    (vs_pixels p) (_smixer p) (imuse p) (insane p) (debuglog p)
    (_smushVideoShouldFinish p).
Definition set_width (v : Z) (p : Player) : Player :=
  mkPlayer (_nbframes p) (_deltaPal p) (_pal p) (_base p) (_baseSize p)
    (_frameBuffer p) (_specialBuffer p) (_seekFile p) (_startFrame p)
    (_startTime p) (_seekPos p) (_seekFrame p) (_skipNext p) (_frame p)
    (_compressedFileMode p) (_storeFrame p) (_speed p) (_endOfFile p) (_dst p)
    (_updateNeeded p) (_palDirtyMin p) (_palDirtyMax p) (_insanity p)
    (_middleAudio p) (_skipPalette p) (_iactTable p) v (_height p) (_paused p)
    (_pauseStartTime p) (_pauseTime p) (_codec37 p) (_codec47 p) (_IACT p)
    (vs_pixels p) (_smixer p) (imuse p) (insane p) (debuglog p)
    (_smushVideoShouldFinish p).
Definition set_height (v : Z) (p : Player) : Player :=
  mkPlayer (_nbframes p) (_deltaPal p) (_pal p) (_base p) (_baseSize p)
    (_frameBuffer p) (_specialBuffer p) (_seekFile p) (_startFrame p)
    (_startTime p) (_seekPos p) (_seekFrame p) (_skipNext p) (_frame p)
    (_compressedFileMode p) (_storeFrame p) (_speed p) (_endOfFile p) (_dst p)
    (_updateNeeded p) (_palDirtyMin p) (_palDirtyMax p) (_insanity p)
    (_middleAudio p) (_skipPalette p) (_iactTable p) (_width p) v (_paused p)
    (_pauseStartTime p) (_pauseTime p) (_codec37 p) (_codec47 p) (_IACT p)
    (vs_pixels p) (_smixer p) (imuse p) (insane p) (debuglog p)
    (_smushVideoShouldFinish p).
Definition set_paused (v : bool) (p : Player) : Player :=
  mkPlayer (_nbframes p) (_deltaPal p) (_pal p) (_base p) (_baseSize p)
    (_frameBuffer p) (_specialBuffer p) (_seekFile p) (_startFrame p)
    (_startTime p) (_seekPos p) (_seekFrame p) (_skipNext p) (_frame p)
    (_compressedFileMode p) (_storeFrame p) (_speed p) (_endOfFile p) (_dst p)
    (_updateNeeded p) (_palDirtyMin p) (_palDirtyMax p) (_insanity p)
    (_middleAudio p) (_skipPalette p) (_iactTable p) (_width p) (_height p) v
    (_pauseStartTime p) (_pauseTime p) (_codec37 p) (_codec47 p) (_IACT p)
    (vs_pixels p) (_smixer p) (imuse p) (insane p) (debuglog p)
    (_smushVideoShouldFinish p).
Definition set_pauseStartTime (v : Z) (p : Player) : Player :=
  mkPlayer (_nbframes p) (_deltaPal p) (_pal p) (_base p) (_baseSize p)
    (_frameBuffer p) (_specialBuffer p) (_seekFile p) (_startFrame p)
    (_startTime p) (_seekPos p) (_seekFrame p) (_skipNext p) (_frame p)
    (_compressedFileMode p) (_storeFrame p) (_speed p) (_endOfFile p) (_dst p)
    (_updateNeeded p) (_palDirtyMin p) (_palDirtyMax p) (_insanity p)
    (_middleAudio p) (_skipPalette p) (_iactTable p) (_width p) (_height p)
    (_paused p) v (_pauseTime p) (_codec37 p) (_codec47 p) (_IACT p)
    (vs_pixels p) (_smixer p) (imuse p) (insane p) (debuglog p)
    (_smushVideoShouldFinish p).
Definition set_pauseTime (v : Z) (p : Player) : Player :=
  mkPlayer (_nbframes p) (_deltaPal p) (_pal p) (_base p) (_baseSize p)
    (_frameBuffer p) (_specialBuffer p) (_seekFile p) (_startFrame p)
    (_startTime p) (_seekPos p) (_seekFrame p) (_skipNext p) (_frame p)
    (_compressedFileMode p) (_storeFrame p) (_speed p) (_endOfFile p) (_dst p)
    (_updateNeeded p) (_palDirtyMin p) (_palDirtyMax p) (_insanity p)
    (_middleAudio p) (_skipPalette p) (_iactTable p) (_width p) (_height p)
    (_paused p) (_pauseStartTime p) v (_codec37 p) (_codec47 p) (_IACT p)
    (vs_pixels p) (_smixer p) (imuse p) (insane p) (debuglog p)
    (_smushVideoShouldFinish p).
Definition set_codec37 (v : option Codec37Decoder) (p : Player) : Player :=
  mkPlayer (_nbframes p) (_deltaPal p) (_pal p) (_base p) (_baseSize p)
    (_frameBuffer p) (_specialBuffer p) (_seekFile p) (_startFrame p)
    (_startTime p) (_seekPos p) (_seekFrame p) (_skipNext p) (_frame p)
    (_compressedFileMode p) (_storeFrame p) (_speed p) (_endOfFile p) (_dst p)
    (_updateNeeded p) (_palDirtyMin p) (_palDirtyMax p) (_insanity p)
    (_middleAudio p) (_skipPalette p) (_iactTable p) (_width p) (_height p)
    (_paused p) (_pauseStartTime p) (_pauseTime p) v (_codec47 p) (_IACT p)
    (vs_pixels p) (_smixer p) (imuse p) (insane p) (debuglog p)
    (_smushVideoShouldFinish p).
Definition set_codec47 (v : option Codec47Decoder) (p : Player) : Player :=
  mkPlayer (_nbframes p) (_deltaPal p) (_pal p) (_base p) (_baseSize p)
    (_frameBuffer p) (_specialBuffer p) (_seekFile p) (_startFrame p)
    (_startTime p) (_seekPos p) (_seekFrame p) (_skipNext p) (_frame p)
    (_compressedFileMode p) (_storeFrame p) (_speed p) (_endOfFile p) (_dst p)
    (_updateNeeded p) (_palDirtyMin p) (_palDirtyMax p) (_insanity p)
    (_middleAudio p) (_skipPalette p) (_iactTable p) (_width p) (_height p)
    (_paused p) (_pauseStartTime p) (_pauseTime p) (_codec37 p) v (_IACT p)
    (vs_pixels p) (_smixer p) (imuse p) (insane p) (debuglog p)
    (_smushVideoShouldFinish p).
Definition set_IACT (v : IACTAudio) (p : Player) : Player :=
  mkPlayer (_nbframes p) (_deltaPal p) (_pal p) (_base p) (_baseSize p)
    (_frameBuffer p) (_specialBuffer p) (_seekFile p) (_startFrame p)
    (_startTime p) (_seekPos p) (_seekFrame p) (_skipNext p) (_frame p)
    (_compressedFileMode p) (_storeFrame p) (_speed p) (_endOfFile p) (_dst p)
    (_updateNeeded p) (_palDirtyMin p) (_palDirtyMax p) (_insanity p)
    (_middleAudio p) (_skipPalette p) (_iactTable p) (_width p) (_height p)
    (_paused p) (_pauseStartTime p) (_pauseTime p) (_codec37 p) (_codec47 p) v
    (vs_pixels p) (_smixer p) (imuse p) (insane p) (debuglog p)
    (_smushVideoShouldFinish p).
Definition set_vs_pixels (v : list Z) (p : Player) : Player :=
  mkPlayer (_nbframes p) (_deltaPal p) (_pal p) (_base p) (_baseSize p)
    (_frameBuffer p) (_specialBuffer p) (_seekFile p) (_startFrame p)
    (_startTime p) (_seekPos p) (_seekFrame p) (_skipNext p) (_frame p)
    (_compressedFileMode p) (_storeFrame p) (_speed p) (_endOfFile p) (_dst p)
    (_updateNeeded p) (_palDirtyMin p) (_palDirtyMax p) (_insanity p)
    (_middleAudio p) (_skipPalette p) (_iactTable p) (_width p) (_height p)
    (_paused p) (_pauseStartTime p) (_pauseTime p) (_codec37 p) (_codec47 p)
    (_IACT p) v (_smixer p) (imuse p) (insane p) (debuglog p)
    (_smushVideoShouldFinish p).
Definition set_smixer (v : gmap Z Channel) (p : Player) : Player :=
  mkPlayer (_nbframes p) (_deltaPal p) (_pal p) (_base p) (_baseSize p)
    (_frameBuffer p) (_specialBuffer p) (_seekFile p) (_startFrame p)
    (_startTime p) (_seekPos p) (_seekFrame p) (_skipNext p) (_frame p)
    (_compressedFileMode p) (_storeFrame p) (_speed p) (_endOfFile p) (_dst p)
    (_updateNeeded p) (_palDirtyMin p) (_palDirtyMax p) (_insanity p)
    (_middleAudio p) (_skipPalette p) (_iactTable p) (_width p) (_height p)
    (_paused p) (_pauseStartTime p) (_pauseTime p) (_codec37 p) (_codec47 p)
    (_IACT p) (vs_pixels p) v (imuse p) (insane p) (debuglog p)
    (_smushVideoShouldFinish p).
Definition set_imuse (v : list IMuseCall) (p : Player) : Player :=
  mkPlayer (_nbframes p) (_deltaPal p) (_pal p) (_base p) (_baseSize p)
    (_frameBuffer p) (_specialBuffer p) (_seekFile p) (_startFrame p)
    (_startTime p) (_seekPos p) (_seekFrame p) (_skipNext p) (_frame p)
    (_compressedFileMode p) (_storeFrame p) (_speed p) (_endOfFile p) (_dst p)
    (_updateNeeded p) (_palDirtyMin p) (_palDirtyMax p) (_insanity p)
    (_middleAudio p) (_skipPalette p) (_iactTable p) (_width p) (_height p)
    (_paused p) (_pauseStartTime p) (_pauseTime p) (_codec37 p) (_codec47 p)
    (_IACT p) (vs_pixels p) (_smixer p) v (insane p) (debuglog p)
    (_smushVideoShouldFinish p).
Definition set_insane (v : Insane) (p : Player) : Player :=
  mkPlayer (_nbframes p) (_deltaPal p) (_pal p) (_base p) (_baseSize p)
    (_frameBuffer p) (_specialBuffer p) (_seekFile p) (_startFrame p)
    (_startTime p) (_seekPos p) (_seekFrame p) (_skipNext p) (_frame p)
    (_compressedFileMode p) (_storeFrame p) (_speed p) (_endOfFile p) (_dst p)
    (_updateNeeded p) (_palDirtyMin p) (_palDirtyMax p) (_insanity p)
    (_middleAudio p) (_skipPalette p) (_iactTable p) (_width p) (_height p)
    (_paused p) (_pauseStartTime p) (_pauseTime p) (_codec37 p) (_codec47 p)
    (_IACT p) (vs_pixels p) (_smixer p) (imuse p) v (debuglog p)
    (_smushVideoShouldFinish p).
Definition set_debuglog (v : list string) (p : Player) : Player :=
  mkPlayer (_nbframes p) (_deltaPal p) (_pal p) (_base p) (_baseSize p)
    (_frameBuffer p) (_specialBuffer p) (_seekFile p) (_startFrame p)
    (_startTime p) (_seekPos p) (_seekFrame p) (_skipNext p) (_frame p)
    (_compressedFileMode p) (_storeFrame p) (_speed p) (_endOfFile p) (_dst p)
    (_updateNeeded p) (_palDirtyMin p) (_palDirtyMax p) (_insanity p)
    (_middleAudio p) (_skipPalette p) (_iactTable p) (_width p) (_height p)
    (_paused p) (_pauseStartTime p) (_pauseTime p) (_codec37 p) (_codec47 p)
    (_IACT p) (vs_pixels p) (_smixer p) (imuse p) (insane p) v
    (_smushVideoShouldFinish p).
Definition set_smushVideoShouldFinish (v : bool) (p : Player) : Player :=
  mkPlayer (_nbframes p) (_deltaPal p) (_pal p) (_base p) (_baseSize p)
    (_frameBuffer p) (_specialBuffer p) (_seekFile p) (_startFrame p)
    (_startTime p) (_seekPos p) (_seekFrame p) (_skipNext p) (_frame p)
    (_compressedFileMode p) (_storeFrame p) (_speed p) (_endOfFile p) (_dst p)
    (_updateNeeded p) (_palDirtyMin p) (_palDirtyMax p) (_insanity p)
    (_middleAudio p) (_skipPalette p) (_iactTable p) (_width p) (_height p)
    (_paused p) (_pauseStartTime p) (_pauseTime p) (_codec37 p) (_codec47 p)
    (_IACT p) (vs_pixels p) (_smixer p) (imuse p) (insane p) (debuglog p) v.

(** *** Small helpers *)

(** The pixels [_dst] points to, and writing through [_dst]. *)
Definition dst_pixels (p : Player) : list Z :=
  match _dst p with
  | DstScreen => vs_pixels p
  | DstSpecial => default [] (_specialBuffer p)
  end.

Definition set_dst_pixels (px : list Z) (p : Player) : Player :=
  match _dst p with
  | DstScreen => set_vs_pixels px p
  | DstSpecial => set_specialBuffer (Some px) p
  end.

(** [memcpy(dst, src, n)] on buffers held as lists. *)
Definition memcpy (dst src : list Z) (n : Z) : list Z :=
  let got := take (Z.to_nat n) src in
  got ++ drop (length got) dst.

(** [malloc(n)]: fresh memory, its unspecified content taken as zeros. *)
Definition malloc (n : Z) : list Z := repeat 0 (Z.to_nat n).

Definition debugC (msgs : list string) (p : Player) : Player :=
  set_debuglog (msgs ++ debuglog p) p.

(** The chunk header: 4-byte tag, 32-bit size held in [int32]. *)
Definition readChunkHeader (b : Stream) : Z * Z * Stream :=
  let '(subType, b) := readUint32BE b in
  let '(subSize, b) := readUint32BE b in
  (subType, to_int32 subSize, b).

(** ** Palette and dirty range *)

Definition palette_wf (p : Player) : Prop :=
  length (_pal p) = 768%nat /\ length (_deltaPal p) = 768%nat /\
  Forall is_byte (_pal p) /\ Forall is_int16 (_deltaPal p).

(** [SmushPlayer::setDirtyColors] *)
Definition setDirtyColors (min max : Z) (p : Player) : Player :=
  let p1 := if min <? _palDirtyMin p then set_palDirtyMin min p else p in
  if _palDirtyMax p1 <? max then set_palDirtyMax max p1 else p1.

(** [SmushPlayer::readPalette]: [in.read(out, 0x300)] overwrites as many
    leading entries of [out] as the stream still holds. *)
Definition readPalette (out : list Z) (b : Stream) : list Z * Stream :=
  let '(got, b') := read 0x300 b in
  (map to_byte got ++ drop (length got) out, b').

(** [delta_color(byte org_color, int16 delta_color)]; the division is
    C++'s, truncating toward zero. *)
Definition delta_color (org_color delta : Z) : Z :=
  let t := Z.quot (org_color * 129 + delta) 128 in
  CLIP t 0 255.

(** One iteration of [_deltaPal[i] = b.readUint16LE()]. *)
Definition readDeltaAt (acc : Stream * list Z) (i : nat) : Stream * list Z :=
  let '(b, dp) := acc in
  let '(v, b') := readUint16LE b in
  (b', <[i := to_int16 v]> dp).

(** One iteration of [_pal[i] = delta_color(_pal[i], _deltaPal[i])]. *)
Definition applyDeltaAt (p : Player) (i : nat) : Player :=
  match _pal p !! i, _deltaPal p !! i with
  | Some c, Some d => set_pal (<[i := delta_color c d]> (_pal p)) p
  | _, _ => p
  end.

(** [SmushPlayer::handleDeltaPalette] *)
Definition handleDeltaPalette (subSize : Z) (b : Stream) (p : Player)
  : Res (Stream * Player) :=
  if subSize =? 0x300 * 3 + 4 then
    let '(_, b) := readUint16LE b in
    let '(_, b) := readUint16LE b in
    let '(b, dp) := fold_left readDeltaAt (seq 0 0x300) (b, _deltaPal p) in
    let '(pal, b) := readPalette (_pal p) b in
    Ok (b, setDirtyColors 0 255 (set_pal pal (set_deltaPal dp p)))
  else if subSize =? 6 then
    let '(_, b) := readUint16LE b in
    let '(_, b) := readUint16LE b in
    let '(_, b) := readUint16LE b in
    Ok (b, setDirtyColors 0 255 (fold_left applyDeltaAt (seq 0 0x300) p))
  else
    error "SmushPlayer::handleDeltaPalette() Wrong size for DeltaPalette".

(** [SmushPlayer::handleNewPalette] *)
Definition handleNewPalette (subSize : Z) (b : Stream) (p : Player)
  : Res (Stream * Player) :=
  _ <- assert (0x300 <=? subSize) "subSize >= 0x300" ;;
  if _skipPalette p then Ok (b, p)
  else
    let '(pal, b) := readPalette (_pal p) b in
    Ok (b, setDirtyColors 0 255 (set_pal pal p)).

(** [SmushPlayer::handleAnimHeader] *)
Definition handleAnimHeader (subSize : Z) (b : Stream) (p : Player)
  : Res (Stream * Player) :=
  _ <- assert (0x300 + 6 <=? subSize) "subSize >= 0x300 + 6" ;;
  let '(_, b) := readUint16LE b in
  let '(n, b) := readUint16LE b in
  let p := set_nbframes n p in
  let '(_, b) := readUint16LE b in
  if _skipPalette p then Ok (b, p)
  else
    let '(pal, b) := readPalette (_pal p) b in
    Ok (b, setDirtyColors 0 255 (set_pal pal p)).

(** [SmushPlayer::setPalette] and [SmushPlayer::setPaletteValue] *)
Definition setPalette (palette : list Z) (p : Player) : Player :=
  setDirtyColors 0 255 (set_pal (memcpy (_pal p) palette 0x300) p).

Definition setPaletteValue (n r g b : Z) (p : Player) : Player :=
  let pal := <[Z.to_nat (n * 3 + 2) := b]>
               (<[Z.to_nat (n * 3 + 1) := g]>
                  (<[Z.to_nat (n * 3 + 0) := r]> (_pal p))) in
  setDirtyColors n n (set_pal pal p).

(** ** Frame buffers *)

(** [SmushPlayer::handleStore] *)
Definition handleStore (subSize : Z) (b : Stream) (p : Player)
  : Res (Stream * Player) :=
  _ <- assert (4 <=? subSize) "subSize >= 4" ;;
  Ok (b, set_storeFrame true p).

(** [SmushPlayer::handleFetch] *)
Definition handleFetch (subSize : Z) (b : Stream) (p : Player)
  : Res (Stream * Player) :=
  _ <- assert (6 <=? subSize) "subSize >= 6" ;;
  match _frameBuffer p with
  | Some fb =>
      Ok (b, set_dst_pixels
               (memcpy (dst_pixels p) fb (to_int32 (_width p * _height p))) p)
  | None => Ok (b, p)
  end.

(** The first part of [decodeFrameObject]: where the frame object goes.
    [None] stands for the two [return]s. *)
Definition selectTarget (width height : Z) (p : Player) : option Player :=
  if (height =? 242) && (width =? 384) then
    let p := match _specialBuffer p with
             | None => set_specialBuffer (Some (malloc (242 * 384))) p
             | Some _ => p
             end in
    Some (set_dst DstSpecial p)
  else if (_screenHeight <? height) || (_screenWidth <? width) then None
  else if negb (_insanity p) &&
          (negb (height =? _screenHeight) || negb (width =? _screenWidth))
  then None
  else Some p.

(** The [switch (codec)] of [decodeFrameObject]. *)
Definition decodeCodec (codec : Z) (src : list Z) (left top width height : Z)
    (p : Player) : Res Player :=
  if (codec =? 1) || (codec =? 3) then
    Ok (set_dst_pixels
          (smush_decode_codec1 (dst_pixels p) src left top width height
             _screenWidth) p)
  else if codec =? 37 then
    let d := match _codec37 p with
             | Some d => d
             | None => codec37_new width height
             end in
    let '(d, px) := codec37_decode d (dst_pixels p) src in
    Ok (set_dst_pixels px (set_codec37 (Some d) p))
  else if codec =? 47 then
    let d := match _codec47 p with
             | Some d => d
             | None => codec47_new width height
             end in
    let '(d, px) := codec47_decode d (dst_pixels p) src in
    Ok (set_dst_pixels px (set_codec47 (Some d) p))
  else if codec =? 20 then
    Ok (set_dst_pixels
          (smush_decode_codec20 (dst_pixels p) src left top width height
             _screenWidth) p)
  else error "Invalid codec for frame object".


(** The tail of [decodeFrameObject]: the store request. *)
Definition storeFrame (p : Player) : Player :=
  if _storeFrame p then
    let n := to_int32 (_width p * _height p) in
    let fb := match _frameBuffer p with
              | Some fb => fb
              | None => malloc n
              end in
    set_storeFrame false (set_frameBuffer (Some (memcpy fb (dst_pixels p) n)) p)
  else p.

(** [SmushPlayer::decodeFrameObject] *)
Definition decodeFrameObject (codec : Z) (src : list Z)
    (left top width height : Z) (p : Player) : Res Player :=
  match selectTarget width height p with
  | None => Ok p
  | Some p =>
      let p := if (height =? 242) && (width =? 384)
               then set_height height (set_width width p)
               else set_height _screenHeight (set_width _screenWidth p) in
      p <- decodeCodec codec src left top width height p ;;
      Ok (storeFrame p)
  end.

(** [SmushPlayer::handleFrameObject] *)
Definition handleFrameObject (subSize : Z) (b : Stream) (p : Player)
  : Res (Stream * Player) :=
  _ <- assert (14 <=? subSize) "subSize >= 14" ;;
  if _skipNext p then Ok (b, set_skipNext false p)
  else
    let '(codec, b) := readUint16LE b in
    let '(left_, b) := readUint16LE b in
    let '(top_, b) := readUint16LE b in
    let '(width, b) := readUint16LE b in
    let '(height, b) := readUint16LE b in
    let '(_, b) := readUint16LE b in
    let '(_, b) := readUint16LE b in
    let chunk_size := to_int32 (subSize - 14) in
    let '(chunk_buffer, b) := read chunk_size b in
    p <- decodeFrameObject codec chunk_buffer left_ top_ width height p ;;
    Ok (b, p).

(** [READ_LE_UINT16] and [READ_BE_UINT32] at an offset of a buffer. *)
Definition READ_LE_UINT16 (l : list Z) (i : nat) : Z :=
  byteAt l i + 256 * byteAt l (i + 1).
Definition READ_BE_UINT32 (l : list Z) (i : nat) : Z :=
  ((byteAt l i * 256 + byteAt l (i + 1)) * 256 + byteAt l (i + 2)) * 256
  + byteAt l (i + 3).

(** [SmushPlayer::handleZlibFrameObject] *)
Definition handleZlibFrameObject (subSize : Z) (b : Stream) (p : Player)
  : Res (Stream * Player) :=
  if _skipNext p then Ok (b, set_skipNext false p)
  else
    let '(chunkBuffer, b) := read subSize b in
    let decompressedSize := READ_BE_UINT32 chunkBuffer 0 in
    match uncompress (drop 4 chunkBuffer) decompressedSize with
    | None => error "SmushPlayer::handleZlibFrameObject() Zlib uncompress error"
    | Some fobjBuffer =>
        let codec := READ_LE_UINT16 fobjBuffer 0 in
        let left := READ_LE_UINT16 fobjBuffer 2 in
        let top := READ_LE_UINT16 fobjBuffer 4 in
        let width := READ_LE_UINT16 fobjBuffer 6 in
        let height := READ_LE_UINT16 fobjBuffer 8 in
        p <- decodeFrameObject codec (drop 14 fobjBuffer) left top width height p ;;
        Ok (b, p)
    end.

(** ** Audio feed *)

(** [SmushPlayer::handleSoundBuffer] *)
Definition handleSoundBuffer (track_id index max_frames flags vol pan : Z)
    (b : Stream) (size : Z) (p : Player) : Stream * Player :=
  let c := match _smixer p !! track_id with
           | Some c => c
           | None => newSaudChannel track_id
           end in
  let '(c, msgs) :=
    if _middleAudio p || (index =? 0)
    then (setParameters max_frames flags vol pan index c, [])
    else checkParameters index max_frames flags vol pan c in
  let p := set_middleAudio false p in
  let '(c, b) := appendData b size c in
  (b, debugC msgs (set_smixer (<[track_id := c]> (_smixer p)) p)).

(** [SmushPlayer::handleSoundFrame] *)
Definition handleSoundFrame (subSize : Z) (b : Stream) (p : Player)
  : Stream * Player :=
  let '(track_id, b) := readUint16LE b in
  let '(index, b) := readUint16LE b in
  let '(max_frames, b) := readUint16LE b in
  let '(flags, b) := readUint16LE b in
  let '(vol, b) := readByte b in
  let '(pan, b) := readSByte b in
  let size := to_int32 (subSize - 10) in
  handleSoundBuffer track_id index max_frames flags vol pan b size p.

(** [_iactTable[bufId]], an [int[4]]: an index outside it stops the run. *)
Definition iactTable_get (bufId : Z) (p : Player) : Res Z :=
  if (0 <=? bufId) && (bufId <? 4) then
    match _iactTable p !! Z.to_nat bufId with
    | Some v => Ok v
    | None => Fatal "_iactTable: index out of range"
    end
  else Fatal "_iactTable: index out of range".

Definition iactTable_set (bufId v : Z) (p : Player) : Res Player :=
  if (0 <=? bufId) && (bufId <? 4) then
    Ok (set_iactTable (<[Z.to_nat bufId := v]> (_iactTable p)) p)
  else Fatal "_iactTable: index out of range".

(** The [switch (userId)] of the DIG branch: buffer id and volume. *)
Definition iactBuffer (userId : Z) : Res (Z * Z) :=
  if userId =? 1 then Ok (1, 127)
  else if userId =? 2 then Ok (2, 127)
  else if userId =? 3 then Ok (3, 127)
  else if (100 <=? userId) && (userId <=? 163)
  then Ok (DIMUSE_BUFFER_SPEECH, 2 * userId - 200)
  else if (200 <=? userId) && (userId <=? 263)
  then Ok (DIMUSE_BUFFER_MUSIC, 2 * userId - 400)
  else if (300 <=? userId) && (userId <=? 363)
  then Ok (DIMUSE_BUFFER_SMUSH, 2 * userId - 600)
  else error "SmushPlayer::handleIACT(): ERROR: got invalid userID".

(** The [do ... while] that looks for a sound already streaming into
    [bufId]; 0 when there is none. *)
Fixpoint findStreamingSound (fuel : nat) (calls : list IMuseCall)
    (bufId curSoundId : Z) : Res Z :=
  match fuel with
  | O => Spin
  | S fuel' =>
      let curSoundId := diMUSEGetNextSound calls curSoundId in
      if curSoundId =? 0 then Ok 0
      else if negb (diMUSEGetParam calls curSoundId DIMUSE_P_SND_HAS_STREAM =? 1)
              || negb (diMUSEGetParam calls curSoundId DIMUSE_P_STREAM_BUFID =? bufId)
      then findStreamingSound fuel' calls bufId curSoundId
      else Ok curSoundId
  end.

Definition MSG_OUT_OF_ORDER : string :=
  "SmushPlayer::handleIACT(): WARNING: got out of order block".

Definition diMUSE (c : IMuseCall) (p : Player) : Player :=
  set_imuse (c :: imuse p) p.

(** The branch of [handleIACT] for The Dig (not the demo), from the
    point where the sub-header has been read. *)
Definition handleIACT_DIG (fuel : nat) (subSize userId index nbframes bsize : Z)
    (b : Stream) (p : Player) : Res (Stream * Player) :=
  let '(dataBuffer, b) := read bsize b in
  bv <- iactBuffer userId ;;
  let '(bufId, volume) := bv in
  let paused := if nbframes - index =? 1 then 1 else 0 in
  last <- (if index =? 0 then Ok 0 else iactTable_get bufId p) ;;
  if negb (index =? 0) && negb (last - index =? -1) then
    Ok (b, debugC [MSG_OUT_OF_ORDER] p)
  else
    p <- iactTable_set bufId index p ;;
    let soundId := bufId + DIMUSE_SMUSH_SOUNDID in
    if negb (index =? 0) then
      if negb (diMUSEGetParam (imuse p) soundId DIMUSE_P_SND_TRACK_NUM =? 0)
      then Ok (b, diMUSE (FeedStream soundId dataBuffer (subSize - 18) paused) p)
      else error "SmushPlayer::handleIACT(): ERROR: got unexpected non-zero IACT block"
    else
      if negb (READ_BE_UINT32 dataBuffer 0 =? TAG_iMUS)
      then error "SmushPlayer::handleIACT(): ERROR: got non-IMUS IACT block"
      else
        curSoundId <- findStreamingSound fuel (imuse p) bufId 0 ;;
        p <- (if curSoundId =? 0 then
                if negb (diMUSEStartStream (imuse p) soundId 126 bufId =? 0)
                then error "SmushPlayer::handleIACT(): ERROR: couldn't start stream"
                else Ok (diMUSE (StartStream soundId 126 bufId) p)
              else
                Ok (diMUSE (SwitchStream curSoundId soundId
                              (if bufId =? 2 then 1000 else 150)) p)) ;;
        let p := diMUSE (SetParam soundId DIMUSE_P_VOLUME volume) p in
        let group := if bufId =? DIMUSE_BUFFER_SPEECH then DIMUSE_GROUP_SPEECH
                     else if bufId =? DIMUSE_BUFFER_MUSIC then DIMUSE_GROUP_MUSIC
                     else DIMUSE_GROUP_SFX in
        let p := diMUSE (SetParam soundId DIMUSE_P_GROUP group) p in
        Ok (b, diMUSE (FeedStream soundId dataBuffer (subSize - 18) paused) p).

(** [SmushPlayer::handleIACT]. The branch for The Curse of Monkey Island
    unpacks the block into the queue of its own audio stream, which is
    left to [iact_queue]. *)
Definition handleIACT (fuel : nat) (subSize : Z) (b : Stream) (p : Player)
  : Res (Stream * Player) :=
  _ <- assert (8 <=? subSize) "subSize >= 8" ;;
  let '(code, b) := readUint16LE b in
  let '(flags, b) := readUint16LE b in
  let '(unknown, b) := readSint16LE b in
  let '(userId, b) := readUint16LE b in
  if negb (code =? 8) && negb (flags =? 46) then
    let '(b, ins, px) :=
      procIACT (dst_pixels p) b code flags unknown userId (insane p) in
    Ok (b, set_dst_pixels px (set_insane ins p))
  else if _compressedFileMode p then Ok (b, p)
  else
    _ <- assert ((flags =? 46) && (unknown =? 0)) "flags == 46 && unknown == 0" ;;
    let '(_, b) := readUint16LE b in
    let '(index, b) := readUint16LE b in
    let '(nbframes, b) := readUint16LE b in
    let '(_, b) := readUint32LE b in
    let bsize := to_int32 (subSize - 18) in
    match game_id with
    | GID_CMI =>
        let '(src, b) := read bsize b in
        Ok (b, set_IACT (iact_queue src (_IACT p)) p)
    | GID_DIG =>
        if negb game_demo
        then handleIACT_DIG fuel subSize userId index nbframes bsize b p
        else Ok (b, p)
    | _ => Ok (b, p)
    end.

(** [SmushPlayer::handleTextResource]: the string handling and the glyph
    rendering are the text renderer's. *)
Definition handleTextResource (subType subSize : Z) (b : Stream) (p : Player)
  : Res (Stream * Player) :=
  r <- drawTextResource subType subSize b (_width p) (_height p) (dst_pixels p) ;;
  let '(b, px) := r in
  Ok (b, set_dst_pixels px p).

(** ** The decode dispatcher *)

(** [SmushPlayer::updateScreen] *)
Definition updateScreen (p : Player) : Player := set_updateNeeded true p.

(** The [switch (subType)] of [handleFrame]. *)
Definition handleSubChunk (fuel : nat) (subType subSize : Z) (b : Stream)
    (p : Player) : Res (Stream * Player) :=
  if subType =? TAG_NPAL then handleNewPalette subSize b p
  else if subType =? TAG_FOBJ then handleFrameObject subSize b p
  else if USE_ZLIB && (subType =? TAG_ZFOB) then handleZlibFrameObject subSize b p
  else if subType =? TAG_PSAD then
    if negb (_compressedFileMode p) then Ok (handleSoundFrame subSize b p)
    else Ok (b, p)
  else if subType =? TAG_TRES then handleTextResource subType subSize b p
  else if subType =? TAG_XPAL then handleDeltaPalette subSize b p
  else if subType =? TAG_IACT then handleIACT fuel subSize b p
  else if subType =? TAG_STOR then handleStore subSize b p
  else if subType =? TAG_FTCH then handleFetch subSize b p
  else if subType =? TAG_SKIP then
    let '(b, ins, skipNext) := procSKIP subSize b (insane p) in
    let p := set_insane ins p in
    Ok (b, if skipNext then set_skipNext true p else p)
  else if subType =? TAG_TEXT then handleTextResource subType subSize b p
  else error "Unknown frame subChunk found".

(** What the handling of sub-chunks leaves alone: the frame counter, the
    display request and the insanity flag; the current dimensions stay or
    become those of the special buffer or of the screen. *)
Definition keeps_frame (p p' : Player) : Prop :=
  _frame p' = _frame p /\
  _updateNeeded p' = _updateNeeded p /\
  _insanity p' = _insanity p /\
  ((_width p' = _width p /\ _height p' = _height p) \/
   (_width p' = 384 /\ _height p' = 242) \/
   (_width p' = _screenWidth /\ _height p' = _screenHeight)).

(** One turn of the [while (frameSize > 0)] loop of [handleFrame]: the
    sub-chunk is read and handled, then the cursor is put behind it. *)
Definition handleFrame_step (fuel : nat) (frameSize : Z) (b : Stream)
    (p : Player) : Res (Z * Stream * Player) :=
  let '(subType, subSize, b) := readChunkHeader b in
  let subOffset := to_int32 (pos b) in
  r <- handleSubChunk fuel subType subSize b p ;;
  let '(b, p) := r in
  let frameSize := to_int32 (frameSize - to_int32 (subSize + 8)) in
  let b := seek (to_int32 (subOffset + subSize)) b in
  if negb (Z.land subSize 1 =? 0)
  then Ok (to_int32 (frameSize - 1), skip 1 b, p)
  else Ok (frameSize, b, p).

Fixpoint handleFrame_loop (fuel : nat) (frameSize : Z) (b : Stream)
    (p : Player) : Res (Stream * Player) :=
  if 0 <? frameSize then
    match fuel with
    | O => Spin
    | S fuel' =>
        r <- handleFrame_step fuel' frameSize b p ;;
        let '(frameSize, b, p) := r in
        handleFrame_loop fuel' frameSize b p
    end
  else Ok (b, p).

(** [SmushPlayer::handleFrame] *)
Definition handleFrame (fuel : nat) (frameSize : Z) (b : Stream) (p : Player)
  : Res (Stream * Player) :=
  let p := set_skipNext false p in
  let p := if _insanity p then set_insane (procPreRendering (insane p)) p
           else p in
  r <- handleFrame_loop fuel frameSize b p ;;
  let '(b, p) := r in
  let p := if _insanity p then
             let '(ins, px) :=
               procPostRendering (dst_pixels p) (_frame p) (_nbframes p - 1)
                 (insane p) in
             set_dst_pixels px (set_insane ins p)
           else p in
  let p := if negb (_width p =? 0) && negb (_height p =? 0)
           then updateScreen p else p in
  let p := set_smixer (smixer_handleFrame (_smixer p)) p in
  Ok (b, set_frame (to_uint32 (_frame p + 1)) p).

(** ** Seeking and the top level of the container *)

(** [strrchr(filename, '.') != NULL] *)
Fixpoint has_dot (s : string) : bool :=
  match s with
  | EmptyString => false
  | String c s' => (Ascii.eqb c "."%char) || has_dot s'
  end.

(** [SmushPlayer::tryCmpFile]: whether an .ogg or .mp3 companion opens is
    the file system's (and the build's) answer. *)
Definition tryCmpFile (filename : string) (p : Player) : Res Player :=
  let p := set_compressedFileMode false p in
  _ <- assert (has_dot filename) "invalid filename" ;;
  if compressedFileOpens filename then Ok (set_compressedFileMode true p)
  else Ok p.

(** [SmushPlayer::seekSan] *)
Definition seekSan (file : option string) (pos contFrame : Z) (p : Player)
  : Player :=
  set_pauseTime 0
    (set_seekFrame (to_uint32 contFrame)
       (set_seekPos pos
          (set_seekFile (match file with Some f => f | None => EmptyString end) p))).

(** The [if (_seekPos >= 0)] block of [parseNextFrame]; [millis] is what
    [getMillis()] returns there. *)
Definition applySeek (millis : Z) (p : Player) : Res Player :=
  if 0 <=? _seekPos p then
    let p := set_smixer (smixer_stop (_smixer p)) p in
    p <- (if (0 <? String.length (_seekFile p))%nat then
            match openFile (_seekFile p) with
            | None => error "SmushPlayer: Unable to open file"
            | Some bytes =>
                let b := mkStream bytes 0 in
                let '(_, b) := readUint32BE b in
                let '(baseSize, b) := readUint32BE b in
                let p := set_baseSize baseSize (set_base (Some b) p) in
                p <- (if 0 <? _seekPos p then
                        _ <- assert (8 <? _seekPos p) "_seekPos > 8" ;;
                        let '(subType, subSize, b) := readChunkHeader b in
                        let subOffset := to_int32 (pos b) in
                        _ <- assert (subType =? TAG_AHDR) "subType == AHDR" ;;
                        r <- handleAnimHeader subSize b p ;;
                        let '(b, p) := r in
                        let b := seek (to_int32 (subOffset + subSize)) b in
                        Ok (set_seekPos (to_int32 (_seekPos p - 8))
                              (set_middleAudio true (set_base (Some b) p)))
                      else tryCmpFile (_seekFile p) p) ;;
                Ok (set_skipPalette false p)
            end
          else Ok (set_skipPalette true p)) ;;
    match _base p with
    | None => Fatal "_base is null"
    | Some b =>
        let p := set_base (Some (seek (to_int32 (_seekPos p + 8)) b)) p in
        let p := set_frame (_seekFrame p) p in
        let p := set_startFrame (_frame p) p in
        let p := set_startTime (to_uint32 millis) p in
        Ok (set_seekPos (-1) p)
    end
  else Ok p.

(** [SmushPlayer::parseNextFrame] *)
Definition parseNextFrame (fuel : nat) (millis : Z) (p : Player) : Res Player :=
  p <- applySeek millis p ;;
  match _base p with
  | None => Fatal "assert(_base)"
  | Some b =>
      let '(subType, subSize, b) := readChunkHeader b in
      let subOffset := to_int32 (pos b) in
      let p := set_base (Some b) p in
      if to_int32 (_baseSize p) <=? pos b then
        Ok (set_endOfFile true (set_smushVideoShouldFinish true p))
      else
        r <- (if subType =? TAG_AHDR then handleAnimHeader subSize b p
              else if subType =? TAG_FRME then handleFrame fuel subSize b p
              else error "Unknown Chunk found") ;;
        let '(b, p) := r in
        let p := set_base (Some (seek (to_int32 (subOffset + subSize)) b)) p in
        Ok (diMUSE FlushTracks p)
  end.

(** [SmushPlayer::timerCallback] *)
Definition timerCallback (fuel : nat) (millis : Z) (p : Player) : Res Player :=
  parseNextFrame fuel millis p.

(** The player as the constructor leaves it, with [_dst] as [init] sets
    it; the arrays the constructor does not fill are taken as zeros. *)
Definition SmushPlayer_new (screen : list Z) (ins : Insane) (iact : IACTAudio)
  : Player :=
  {| _nbframes := 0; _deltaPal := repeat 0 768; _pal := repeat 0 768;
     _base := None; _baseSize := 0; _frameBuffer := None;
     _specialBuffer := None; _seekFile := EmptyString; _startFrame := 0;
     _startTime := 0; _seekPos := -1; _seekFrame := 0; _skipNext := false;
     _frame := 0; _compressedFileMode := false; _storeFrame := false;
     _speed := -1; _endOfFile := false; _dst := DstScreen;
     _updateNeeded := false; _palDirtyMin := 256; _palDirtyMax := -1;
     _insanity := false; _middleAudio := false; _skipPalette := false;
     _iactTable := [0; 0; 0; 0]; _width := 0; _height := 0;
     _paused := false; _pauseStartTime := 0; _pauseTime := 0;
     _codec37 := None; _codec47 := None; _IACT := iact;
     vs_pixels := screen; _smixer := ∅; imuse := []; insane := ins;
     debuglog := []; _smushVideoShouldFinish := false |}.

(** [SmushPlayer::insanity] *)
Definition insanity (flag : bool) (p : Player) : Player := set_insanity flag p.

(** ** Pausing

    [now] is what [_vm->_system->getMillis()] returns at the call. *)

(** [SmushPlayer::pause] *)
Definition pause (now : Z) (p : Player) : Player :=
  if negb (_paused p) then set_pauseStartTime (to_uint32 now) (set_paused true p)
  else p.

(** [SmushPlayer::unpause] *)
Definition unpause (now : Z) (p : Player) : Player :=
  if _paused p then
    let p := set_paused false p in
    let p := set_pauseTime
               (to_uint32 (_pauseTime p
                           + to_uint32 (to_uint32 now - _pauseStartTime p))) p in
    set_pauseStartTime 0 p
  else p.

(** ** The play loop *)

(** What one turn of the loop asks of the system and the engine: the
    clock, the two sound handles the loop may sync against, and the quit
    and save/load requests. *)
Record TickInput : Type := mkTickInput {
  in_millis : Z;
  in_millis_seek : Z;
  in_compressedActive : bool;
  in_compressedElapsed : Z;
  in_iactActive : bool;
  in_iactElapsed : Z;
  in_quit : bool
}.

(** What one turn of the loop shows: whether a frame was due, the skip
    flag as the display step saw it, whether a frame was waiting, the
    palette range handed to the system, and the blit
    [copyRectToScreen(_dst, pitch, 0, 0, w, h)]. *)
Record TickOut : Type := mkTickOut {
  o_due : bool;
  o_skipFrame : bool;
  o_updateNeeded : bool;
  o_palette : option (Z * Z);
  o_blit : option (Z * Z * Z)
}.

Definition udiv32 (a b : Z) : Res Z :=
  if b =? 0 then Fatal "division by zero" else Ok (a / b).

(** The clock selection at the head of the loop. *)
Definition elapsedTime (i : TickInput) (p : Player) : Z :=
  let wall := to_uint32 (to_uint32 (to_uint32 (in_millis i) - _pauseTime p)
                         - _startTime p) in
  if _insanity p then wall
  else if in_compressedActive i then to_uint32 (in_compressedElapsed i)
  else if in_iactActive i then to_uint32 (in_iactElapsed i)
  else wall.

(** The decode half of a turn: [skipFrame] and the timer callback. *)
Definition tick_decode (fuel : nat) (i : TickInput) (p : Player)
  : Res (Player * bool * bool) :=
  let elapsed := elapsedTime i p in
  let speed := to_uint32 (_speed p) in
  due <- udiv32 (to_uint32 (to_uint32 (_frame p - _startFrame p) * 1000)) speed ;;
  if due <=? elapsed then
    next <- udiv32 (to_uint32 (to_uint32 (_frame p + 1) * 1000)) speed ;;
    let skipFrame := next <=? elapsed in
    p <- timerCallback fuel (in_millis_seek i) p ;;
    Ok (p, skipFrame, true)
  else Ok (p, false, false).

(** The display half of a turn: palette flush, skip counter, blit. *)
Definition tick_present (due skipFrame : bool) (skipped : Z) (p : Player)
  : Player * Z * TickOut :=
  let dirty := _palDirtyMin p <=? _palDirtyMax p in
  let pal_out :=
    if dirty then Some (_palDirtyMin p, _palDirtyMax p - _palDirtyMin p + 1)
    else None in
  let p := if dirty then set_palDirtyMin 256 (set_palDirtyMax (-1) p) else p in
  let skipFrame := if dirty then false else skipFrame in
  let '(skipFrame, skipped) :=
    if skipFrame then
      if 10 <? skipped + 1 then (false, 0) else (true, skipped + 1)
    else (false, 0) in
  let pending := _updateNeeded p in
  if pending && negb skipFrame then
    let w := MIN (_width p) _screenWidth in
    let h := MIN (_height p) _screenHeight in
    (set_updateNeeded false p, skipped,
     mkTickOut due skipFrame pending pal_out (Some (_width p, w, h)))
  else (p, skipped, mkTickOut due skipFrame pending pal_out None).

(** The stop requested from outside, at the foot of the loop. *)
Definition stopPlayback (p : Player) : Player :=
  diMUSE StopSMUSHAudio
    (set_IACT (iact_reset (_IACT p)) (set_smixer (smixer_stop (_smixer p)) p)).

(** The [for (;;)] of [play]: one input per turn. The outcome is [Ok]
    when the loop was left through a [break] and [Spin] when the inputs
    ran out first; the turns taken are reported either way. *)
Fixpoint play_loop (fuel : nat) (inputs : list TickInput) (skipped : Z)
    (p : Player) : list TickOut * Res Player :=
  match inputs with
  | [] => ([], Spin)
  | i :: inputs' =>
      match tick_decode fuel i p with
      | Fatal msg => ([], Fatal msg)
      | Spin => ([], Spin)
      | Ok (p, skipFrame, due) =>
          let '(p, skipped, out) := tick_present due skipFrame skipped p in
          if _endOfFile p then ([out], Ok p)
          else if in_quit i || _smushVideoShouldFinish p
          then ([out], Ok (stopPlayback p))
          else
            let '(outs, r) := play_loop fuel inputs' skipped p in
            (out :: outs, r)
      end
  end.

(** The number of turns at the head of a run whose display was skipped. *)
Fixpoint leading_skips (outs : list TickOut) : nat :=
  match outs with
  | o :: outs' => if o_skipFrame o then S (leading_skips outs') else O
  | [] => O
  end.

(** The skip counter bounds the skipped turns at the head of what is left
    of a run, and every later stretch of skipped turns as well. *)
Definition skips_bounded (skipped : Z) (outs : list TickOut) : Prop :=
  Z.of_nat (leading_skips outs) + skipped <= 10 /\
  forall pre suf, outs = pre ++ suf -> (leading_skips suf <= 10)%nat.

(** [SmushPlayer::init], as far as it touches the state kept here. *)
Definition init (speed : Z) (p : Player) : Player :=
  let p := set_frame 0 p in
  let p := set_speed speed p in
  let p := set_endOfFile false p in
  let p := set_smushVideoShouldFinish false p in
  let p := set_dst DstScreen p in
  let p := set_IACT (iact_reset (_IACT p)) p in
  set_smixer (smixer_stop (_smixer p)) p.

(** [SmushPlayer::release] *)
Definition release (p : Player) : Player :=
  let p := set_smushVideoShouldFinish true p in
  let p := set_base None p in
  let p := set_specialBuffer None p in
  let p := set_frameBuffer None p in
  let p := set_codec37 None p in
  set_codec47 None p.

(** [SmushPlayer::readString], as far as it can stop the run: a file
    name without a dot is a fatal error; the strings it loads are the
    text renderer's. *)
Definition readString (file : string) : Res unit :=
  assert (has_dot file) "invalid filename".

(** [SmushPlayer::setupAnim]: in insanity mode the strings are those of
    "mineroad.trs" (not read at all in the DOS demo), a name with a dot;
    otherwise those that go with the film. *)
Definition setupAnim (file : string) (p : Player) : Res unit :=
  if _insanity p then readString "mineroad.trs" else readString file.

(** [SmushPlayer::play]; [millis] is the clock at [_startTime]. *)
Definition play (fuel : nat) (inputs : list TickInput) (filename : string)
    (speed offset startFrame millis : Z) (p : Player)
  : list TickOut * Res Player :=
  match openFile filename with
  | None => ([], Ok p)
  | Some _ =>
      let p := set_updateNeeded false p in
      let p := set_palDirtyMin 256 p in
      let p := set_palDirtyMax (-1) p in
      let p := set_seekFile filename p in
      let p := set_seekPos offset p in
      let p := set_seekFrame (to_uint32 startFrame) p in
      let p := set_base None p in
      match setupAnim filename p with
      | Fatal msg => ([], Fatal msg)
      | Spin => ([], Spin)
      | Ok _ =>
          let p := init speed p in
          let p := set_startTime (to_uint32 millis) p in
          let p := set_startFrame (to_uint32 startFrame) p in
          let p := set_frame (to_uint32 startFrame) p in
          let p := set_pauseTime 0 p in
          let '(outs, r) := play_loop fuel inputs 0 p in
          (outs, p <- r ;; Ok (release p))
      end
  end.

End Model.

(** ** A concrete engine

    An instance of the collaborators on which the definitions above can
    be run: codecs that copy their source over the destination, an idle
    INSANE system, the given files, and an iMUSE that accepts every
    stream. *)

Definition copyCodec (dst src : list Z) (left top width height pitch : Z)
  : list Z := memcpy dst src (width * height).

Definition sampleEngine (g : GameId) (demo : bool) (w h : Z)
    (files : string -> option (list Z)) : Externals :=
  {| game_id := g; game_demo := demo; _screenWidth := w; _screenHeight := h;
     USE_ZLIB := true;
     smush_decode_codec1 := copyCodec;
     smush_decode_codec20 := copyCodec;
     Codec37Decoder := Z * Z;
     codec37_new := fun cw ch => (cw, ch);
     codec37_decode := fun d dst src => (d, memcpy dst src (fst d * snd d));
     Codec47Decoder := Z * Z;
     codec47_new := fun cw ch => (cw, ch);
     codec47_decode := fun d dst src => (d, memcpy dst src (fst d * snd d));
     uncompress := fun src n => Some (take (Z.to_nat n) src);
     Insane := unit;
     procPreRendering := fun ins => ins;
     procPostRendering := fun px _ _ ins => (ins, px);
     procSKIP := fun _ b ins => (b, ins, false);
     procIACT := fun px b _ _ _ _ ins => (b, ins, px);
     drawTextResource := fun _ _ b _ _ px => Ok (b, px);
     openFile := files;
     compressedFileOpens := fun _ => false;
     smixer_stop := fun _ => ∅;
     smixer_handleFrame := fun m => m;
     IACTAudio := list Z;
     iact_reset := fun _ => [];
     iact_queue := fun src q => q ++ src;
     DIMUSE_BUFFER_SPEECH := 1;
     DIMUSE_BUFFER_MUSIC := 2;
     DIMUSE_BUFFER_SMUSH := 3;
     DIMUSE_SMUSH_SOUNDID := 12345678;
     DIMUSE_P_SND_TRACK_NUM := 0x100;
     DIMUSE_P_SND_HAS_STREAM := 0x1800;
     DIMUSE_P_STREAM_BUFID := 0x1900;
     DIMUSE_P_VOLUME := 0x600;
     DIMUSE_P_GROUP := 0x400;
     DIMUSE_GROUP_SPEECH := 2;
     DIMUSE_GROUP_MUSIC := 3;
     DIMUSE_GROUP_SFX := 1;
     diMUSEGetParam := fun _ _ _ => 1;
     diMUSEGetNextSound := fun _ _ => 0;
     diMUSEStartStream := fun _ _ _ _ => 0 |}.

(** Full Throttle on a 320x200 screen, The Dig on a 4x2 one. *)
Definition noFiles (name : string) : option (list Z) := None.
Definition engineFT : Externals := sampleEngine GID_FT false 320 200 noFiles.
Definition engineDIG : Externals := sampleEngine GID_DIG false 4 2 noFiles.

Definition playerFT : @Player engineFT :=
  @SmushPlayer_new engineFT (repeat 0 (320 * 200)) tt [].
Definition playerDIG : @Player engineDIG :=
  @SmushPlayer_new engineDIG (repeat 0 8) tt [].

(** A big-endian 32-bit value and a little-endian 16-bit value as bytes. *)
Definition be32 (v : Z) : list Z :=
  [v / 16777216 mod 256; v / 65536 mod 256; v / 256 mod 256; v mod 256].
Definition le16 (v : Z) : list Z := [v mod 256; v / 256 mod 256].

(** A chunk: tag, size, payload. *)
Definition chunk (tag : Z) (payload : list Z) : list Z :=
  be32 tag ++ be32 (Z.of_nat (length payload)) ++ payload.

(** A frame object: the 14-byte header, then the pixels. *)
Definition fobj (codec width height : Z) (pixels : list Z) : list Z :=
  chunk TAG_FOBJ
    (le16 codec ++ le16 0 ++ le16 0 ++ le16 width ++ le16 height
     ++ le16 0 ++ le16 0 ++ pixels).

(** A small film for a 4x2 screen: the animation header with a grey
    palette, then 13 frames of one frame object each. *)
Definition tinyFrame (n : Z) : list Z := chunk TAG_FRME (fobj 1 4 2 (repeat n 8)).

Definition tinyFilm : list Z :=
  let body :=
    chunk TAG_AHDR (le16 2 ++ le16 13 ++ le16 0 ++ repeat 128 768)
    ++ flat_map tinyFrame [1; 2; 3; 4; 5; 6; 7; 8; 9; 10; 11; 12; 13] in
  be32 (MKTAG 65 78 73 77) ++ be32 (Z.of_nat (length body) + 8) ++ body.

Definition tinyFiles (name : string) : option (list Z) :=
  if String.eqb name "tiny.san" then Some tinyFilm else None.

Definition engineTiny : Externals := sampleEngine GID_FT false 4 2 tinyFiles.
Definition playerTiny : @Player engineTiny :=
  @SmushPlayer_new engineTiny (repeat 0 8) tt [].

(** A clock that is always far ahead of the film. *)
Definition lateTick : TickInput := mkTickInput 1000000 0 false 0 false 0 false.

(** A top-level header chunk of odd size (775 bytes), with bytes after
    it, in a file said to be 2000 bytes long. *)
Definition oddHeaderStream : Stream :=
  mkStream (chunk TAG_AHDR (le16 2 ++ le16 1 ++ le16 0 ++ repeat 0 769)
            ++ repeat 0 16) 0.
Definition oddHeaderPlayer : @Player engineTiny :=
  @set_baseSize engineTiny 2000
    (@set_base engineTiny (Some oddHeaderStream) playerTiny).

(** A store sub-chunk of odd size (5 bytes) and its pad byte. *)
Definition storStream : Stream :=
  mkStream (chunk TAG_STOR [0; 0; 0; 0; 0] ++ [0]) 0.

(** A palette of mid greys, with no deltas and with deltas of 256. *)
Definition greyPlayer : @Player engineTiny :=
  @set_pal engineTiny (repeat 128 768) playerTiny.
Definition rampPlayer : @Player engineTiny :=
  @set_deltaPal engineTiny (repeat 256 768) greyPlayer.

(** The payload of a delta-palette chunk that sets the table (every delta
    -2) and the palette (every byte 7). *)
Definition xpalStream : Stream :=
  mkStream ([0; 0; 0; 0] ++ flat_map (fun _ => le16 65534) (seq 0 768)
            ++ repeat 7 768) 0.

(** A frame of two frame objects for the 4x2 screen. *)
Definition twoObjectFrame : Stream :=
  mkStream (fobj 1 4 2 (repeat 1 8) ++ fobj 1 4 2 (repeat 2 8)) 0.

(** A player showing the 384x242 special buffer on the 320x200 screen. *)
Definition specialPlayer : @Player engineFT :=
  @set_updateNeeded engineFT true
    (@set_height engineFT 242 (@set_width engineFT 384 playerFT)).

(** A player right after a seek into a film: middle-audio mode is on. *)
Definition midAudioPlayer : @Player engineDIG :=
  @set_middleAudio engineDIG true playerDIG.

(** Four payload bytes of an audio block. *)
Definition audioStream : Stream := mkStream [1; 2; 3; 4] 0.

(** A player of the small engine about to read a Frame chunk of the
    4x2 screen. *)
Definition frameStream : Stream := mkStream (tinyFrame 1) 0.
Definition framePlayer : @Player engineTiny :=
  @set_baseSize engineTiny 2000
    (@set_base engineTiny (Some frameStream) playerTiny).

(** The run of the small film under the late clock. *)
Definition tinyRun : list TickOut :=
  fst (@play engineTiny 10 (repeat lateTick 15) "tiny.san" 12 0 0 0 playerTiny).

(** * Further parts of the player *)

(** ** The IACT audio of The Curse of Monkey Island

    The branch of [handleIACT] for The Curse of Monkey Island gathers the
    bytes of successive blocks in [_IACToutput] (4096 bytes in the player)
    until a packet is complete: two bytes of big-endian length, then the
    packet. A complete packet is unpacked into 1024 stereo samples of 16
    bits and queued on [_IACTstream]. An access outside [_IACToutput]
    stops the run. *)

Record IACTState : Type := mkIACT {
  _IACToutput : list Z;
  _IACTpos : Z;
  _IACTstream : option (list (list Z))
}.

Definition MSG_IACT : string := "_IACToutput: access out of range".

(** [memcpy(_IACToutput + pos, src, length src)] *)
Definition pokeBytes (buf : list Z) (pos : Z) (src : list Z) : Res (list Z) :=
  if (0 <=? pos) && (pos + Z.of_nat (length src) <=? Z.of_nat (length buf))
  then Ok (take (Z.to_nat pos) buf ++ src
           ++ drop (Z.to_nat pos + length src) buf)
  else Fatal MSG_IACT.

(** [*(_IACToutput + i)] *)
Definition peekByte (buf : list Z) (i : Z) : Res Z :=
  if 0 <=? i then
    match buf !! Z.to_nat i with
    | Some v => Ok v
    | None => Fatal MSG_IACT
    end
  else Fatal MSG_IACT.

(** One sample: the byte 0x80 announces two literal bytes; any other byte
    is [(int8)value << shift], stored as 16 bits, high byte first. The
    result is the two bytes and the place of the next read. *)
Definition iact_sample (buf : list Z) (i shift : Z) : Res (list Z * Z) :=
  value <- peekByte buf i ;;
  if value =? 0x80 then
    b1 <- peekByte buf (i + 1) ;;
    b2 <- peekByte buf (i + 2) ;;
    Ok ([b1; b2], i + 3)
  else
    let val := to_int16 (Z.shiftl (to_int8 value) shift) in
    Ok ([to_byte (Z.shiftr val 8); to_byte val], i + 1).

(** The [do ... while (--count)] loop: per turn one sample shifted by
    [variable2] and one shifted by [variable1]. *)
Fixpoint iact_decode (count : nat) (buf : list Z) (i variable1 variable2 : Z)
    (output_data : list Z) : Res (list Z) :=
  match count with
  | O => Ok output_data
  | S count' =>
      s1 <- iact_sample buf i variable2 ;;
      s2 <- iact_sample buf (snd s1) variable1 ;;
      iact_decode count' buf (snd s2) variable1 variable2
        (output_data ++ fst s1 ++ fst s2)
  end.

(** [_IACTstream->queueBuffer(output_data, 0x1000, ...)], the stream
    being made at the first buffer. *)
Definition queueBuffer (output_data : list Z) (stream : option (list (list Z)))
  : option (list (list Z)) :=
  match stream with
  | None => Some [output_data]
  | Some q => Some (q ++ [output_data])
  end.

(** One turn of [while (bsize > 0)], on the bytes of the block not yet
    taken; the result is what is left of them and the new state. *)
Definition iact_step (src : list Z) (st : IACTState)
  : Res (list Z * IACTState) :=
  let bsize := Z.of_nat (length src) in
  let out := _IACToutput st in
  let pos := _IACTpos st in
  if 2 <=? pos then
    hi <- peekByte out 0 ;;
    lo <- peekByte out 1 ;;
    let len := hi * 256 + lo + 2 - pos in
    if bsize <? len then
      out' <- pokeBytes out pos src ;;
      Ok ([], mkIACT out' (pos + bsize) (_IACTstream st))
    else
      _ <- assert (0 <=? len) MSG_IACT ;;
      out' <- pokeBytes out pos (take (Z.to_nat len) src) ;;
      v <- peekByte out' 2 ;;
      let variable2 := v / 16 in
      let variable1 := Z.land v 0x0f in
      output_data <- iact_decode 1024 out' 3 variable1 variable2 [] ;;
      Ok (drop (Z.to_nat len) src,
          mkIACT out' 0 (queueBuffer output_data (_IACTstream st)))
  else
    match src with
    | [] => Ok ([], st)
    | c0 :: rest =>
        if (1 <? bsize) && (pos =? 0) then
          match rest with
          | c1 :: rest' =>
              out' <- pokeBytes out 0 [c0] ;;
              out'' <- pokeBytes out' 1 [c1] ;;
              Ok (rest', mkIACT out'' 2 (_IACTstream st))
          | [] => Fatal MSG_IACT
          end
        else
          out' <- pokeBytes out pos [c0] ;;
          Ok (rest, mkIACT out' (pos + 1) (_IACTstream st))
    end.

Fixpoint iact_loop (fuel : nat) (src : list Z) (st : IACTState)
  : Res IACTState :=
  match src with
  | [] => Ok st
  | _ :: _ =>
      match fuel with
      | O => Spin
      | S fuel' =>
          r <- iact_step src st ;;
          iact_loop fuel' (fst r) (snd r)
      end
  end.

(** The branch as a whole, on a block read in full. Two turns per byte
    and one more are enough for the loop. *)
Definition handleIACT_CMI (src : list Z) (st : IACTState) : Res IACTState :=
  iact_loop (2 * length src + 1) src st.

(** What the loop still has to do: two for every byte left, one more
    when a packet may be complete. *)
Definition iact_measure (src : list Z) (st : IACTState) : nat :=
  (2 * length src + (if (2 <=? _IACTpos st)%Z then 1 else 0))%nat.



(** ** String resources

    [StringResource] keeps the strings of a .trs file by id, in file
    order, and remembers the last answer of [get]. [_lastString] is
    [None] for the null pointer. *)

Record StringResource : Type := mkStringResource {
  sr_strings : list (Z * string);
  _lastId : Z;
  _lastString : option string
}.

(** The constructor of [StringResource], with the entries [init] found. *)
Definition StringResource_new (strings : list (Z * string)) : StringResource :=
  mkStringResource strings (-1) None.

(** The [for] loop of [get]: the first entry with the id. *)
Fixpoint findString (strings : list (Z * string)) (id : Z) : option string :=
  match strings with
  | [] => None
  | (i, s) :: rest => if i =? id then Some s else findString rest id
  end.

Definition UNKNOWN_STRING : string := "unknown string".

(** [StringResource::get]: the string returned, the resource afterwards
    and whether the warning about an invalid id was given. *)
Definition StringResource_get (id : Z) (sr : StringResource)
  : option string * StringResource * bool :=
  if id =? _lastId sr then (_lastString sr, sr, false)
  else
    match findString (sr_strings sr) id with
    | Some s => (Some s, mkStringResource (sr_strings sr) id (Some s), false)
    | None =>
        (Some UNKNOWN_STRING,
         mkStringResource (sr_strings sr) (-1) (Some UNKNOWN_STRING), true)
    end.

(** The remembered answer is the one the table gives. *)
Definition sr_coherent (sr : StringResource) : Prop :=
  _lastId sr = -1 \/
  (exists s : string,
     findString (sr_strings sr) (_lastId sr) = Some s /\ _lastString sr = Some s).

(** ** Encoded string files

    The part of [getStrings] between reading the file and handing the
    buffer to [StringResource::init]: the buffer is the file and a closing
    zero; behind the tag ETRS, in an encoded file, the text is moved down
    over the 16-byte header in place, each byte xor 0xCC. The result is
    the buffer and the length handed on. *)

Definition ETRS_HEADER_LENGTH : Z := 16.
Definition TAG_ETRS : Z := MKTAG 69 84 82 83.

(** One turn of [filebuffer[i] = filebuffer[i + ETRS_HEADER_LENGTH] ^ 0xCC]. *)
Definition decodeETRSAt (filebuffer : list Z) (i : nat) : list Z :=
  match filebuffer !! (i + Z.to_nat ETRS_HEADER_LENGTH)%nat with
  | Some c => <[i := to_byte (Z.lxor c 0xCC)]> filebuffer
  | None => filebuffer
  end.

Definition getStrings_buffer (is_encoded : bool) (file : list Z)
  : Res (list Z * Z) :=
  let length0 := Z.of_nat (length file) in
  let filebuffer := file ++ [0] in
  if is_encoded && (READ_BE_UINT32 filebuffer 0 =? TAG_ETRS) then
    _ <- assert (ETRS_HEADER_LENGTH <? length0) "length > ETRS_HEADER_LENGTH" ;;
    let length1 := length0 - ETRS_HEADER_LENGTH in
    let filebuffer := fold_left decodeETRSAt (seq 0 (Z.to_nat length1)) filebuffer in
    Ok (<[Z.to_nat length1 := 0]> filebuffer, length1)
  else Ok (filebuffer, length0).

(** A text as an encoded string file: a header of 16 bytes that starts
    with the tag, then the text, each byte xor 0xCC. *)
Definition encodeETRS (text : list Z) : list Z :=
  [69; 84; 82; 83] ++ repeat 0 12 ++ map (fun c => Z.lxor c 0xCC) text.

Section MoreModel.
Context {E : Externals}.

(** ** The palette on the screen

    [shown] is the palette as the system last got it. The player is in
    step with it when its own palette has the same size, the dirty range
    lies within the 256 colours, and every byte that differs belongs to a
    colour inside the dirty range. *)
Definition pal_synced (shown : list Z) (p : Player) : Prop :=
  length (_pal p) = length shown /\
  (0 <= _palDirtyMin p /\ _palDirtyMax p <= 255) /\
  forall i : nat,
    _pal p !! i <> shown !! i ->
    _palDirtyMin p <= Z.of_nat i / 3 <= _palDirtyMax p.

(** A step of the player that keeps it in step with any palette shown. *)
Definition keeps_synced (p p' : Player) : Prop :=
  forall shown : list Z,
    length shown = 768%nat -> pal_synced shown p -> pal_synced shown p'.

(** The handlers that load a palette need the palette to be 768 bytes
    long, and keep it so. *)
Definition pal_ok (p p' : Player) : Prop :=
  length (_pal p) = 768%nat ->
  length (_pal p') = 768%nat /\ keeps_synced p p'.

(** Modelled from the spec: the palette manager is outside the sources at
    hand. The display step pushes only the dirty sub-range to the display
    palette: [setPalette(_pal + start * 3, start, num)] puts the colours
    [start] to [start + num - 1] of the palette in place of those shown. *)
Definition pushPalette (range : option (Z * Z)) (pal shown : list Z) : list Z :=
  match range with
  | None => shown
  | Some (start, num) =>
      take (Z.to_nat (3 * start)) shown
      ++ take (Z.to_nat (3 * num)) (drop (Z.to_nat (3 * start)) pal)
      ++ drop (Z.to_nat (3 * (start + num))) shown
  end.

End MoreModel.

(** ** Sample data for the further parts *)

(** A film of the small engine whose next chunk is a frame holding a
    palette of sevens. *)
Definition npalStream : Stream :=
  mkStream (chunk TAG_FRME (chunk TAG_NPAL (repeat 7 768))) 0.
Definition npalPlayer : @Player engineTiny :=
  @set_baseSize engineTiny 2000
    (@set_base engineTiny (Some npalStream) playerTiny).


(** A 4x2 picture with a store request pending, and the player after the
    store with its screen cleared. *)
Definition storePlayer : @Player engineTiny :=
  @set_storeFrame engineTiny true
    (@set_height engineTiny 2
       (@set_width engineTiny 4
          (@set_vs_pixels engineTiny [1; 2; 3; 4; 5; 6; 7; 8] playerTiny))).
Definition clearedPlayer : @Player engineTiny :=
  @set_vs_pixels engineTiny (repeat 0 8) (@storeFrame engineTiny storePlayer).

(** A player with a skip request pending. *)
Definition skipPlayer : @Player engineTiny :=
  @set_skipNext engineTiny true playerTiny.

(** A frame object of the 4x2 screen, and the same as the payload of a
    compressed frame object (the small engine inflates by copying). *)
Definition zfobBody : list Z :=
  le16 1 ++ le16 0 ++ le16 0 ++ le16 4 ++ le16 2 ++ le16 0 ++ le16 0
  ++ repeat 5 8.
Definition zfobStream : Stream := mkStream (be32 22 ++ zfobBody) 0.

(** An audio sub-chunk that gives its size as 0xFFFFFFF8, in a film
    played with a compressed sound file. *)
Definition stuckStream : Stream :=
  mkStream (be32 TAG_PSAD ++ be32 4294967288) 0.
Definition stuckPlayer : @Player engineTiny :=
  @set_compressedFileMode engineTiny true playerTiny.

(** A table of two strings with the same id and one other. *)
Definition sampleStrings : StringResource :=
  StringResource_new [(3, "abc"%string); (3, "xyz"%string); (4, "def"%string)].

(** * Properties *)

Section Properties.
Context {E : Externals}.

(** ** Machine integers and clipping *)

Lemma CLIP_range (v lo hi : Z) : lo <= hi -> lo <= CLIP v lo hi <= hi.
Proof. unfold CLIP; intros; repeat case_match; lia. Qed.

Lemma MIN_min (a b : Z) : MIN a b = Z.min a b.
Proof. unfold MIN; case_match; lia. Qed.

Lemma to_byte_id (z : Z) : is_byte z -> to_byte z = z.
Proof. unfold is_byte, to_byte, wrapU; intros; apply Z.mod_small; lia. Qed.

Lemma to_byte_range (z : Z) : is_byte (to_byte z).
Proof.
  unfold is_byte, to_byte, wrapU.
  pose proof (Z.mod_pos_bound z (2 ^ 8)); lia.
Qed.

Lemma to_int16_range (z : Z) : is_int16 (to_int16 z).
Proof.
  unfold is_int16, to_int16, wrapS.
  pose proof (Z.mod_pos_bound (z + 2 ^ (16 - 1)) (2 ^ 16)); lia.
Qed.

Lemma to_int32_id (z : Z) : is_int32 z -> to_int32 z = z.
Proof.
  unfold is_int32, to_int32, wrapS; intros.
  rewrite Z.mod_small; lia.
Qed.

Lemma to_uint32_id (z : Z) : 0 <= z < 4294967296 -> to_uint32 z = z.
Proof. unfold to_uint32, wrapU; intros; apply Z.mod_small; lia. Qed.

Lemma to_uint32_range (z : Z) : 0 <= to_uint32 z < 4294967296.
Proof.
  unfold to_uint32, wrapU. pose proof (Z.mod_pos_bound z (2 ^ 32)); lia.
Qed.

(** [delta_color] neither overflows [int] nor leaves the byte range, and
    the clipped quotient is the same under truncating and flooring
    division. *)
Lemma delta_color_int (c d : Z) :
  is_byte c -> is_int16 d -> is_int32 (c * 129 + d) /\ is_byte (delta_color c d).
Proof.
  unfold is_byte, is_int16, is_int32, delta_color; intros Hc Hd; split; [lia|].
  apply CLIP_range; lia.
Qed.


(** With no delta a byte below 128 and the byte 255 stay, the bytes from
    128 to 254 go up by one. *)
Lemma delta_color_zero (c : Z) :
  is_byte c ->
  delta_color c 0 = if (128 <=? c) && (c <? 255) then c + 1 else c.
Proof.
  unfold is_byte, delta_color; intros Hc.
  rewrite Z.add_0_r, Z.quot_div_nonneg by lia.
  assert (Hq : c * 129 / 128 = c + c / 128).
  { replace (c * 129) with (c + c * 128) by lia.
    rewrite Z.div_add by lia. lia. }
  rewrite Hq.
  assert (c / 128 = if 128 <=? c then 1 else 0) as ->.
  { destruct (128 <=? c) eqn:E1.
    - symmetry; apply Z.div_unique with (r := c - 128); lia.
    - apply Z.div_small; lia. }
  unfold CLIP.
  destruct (128 <=? c) eqn:E1, (c <? 255) eqn:E2; simpl; repeat case_match; lia.
Qed.

(** ** The cursor *)

Lemma read_within (bs : list Z) (q n : Z) :
  0 <= q -> 0 <= n -> q + n <= Z.of_nat (length bs) ->
  read n (mkStream bs q) =
    (take (Z.to_nat n) (drop (Z.to_nat q) bs), mkStream bs (q + n)).
Proof.
  intros Hq Hn Hlen. unfold read, remaining; simpl.
  destruct (q <? 0) eqn:Eq; [lia|].
  rewrite length_take, length_drop. do 2 f_equal. lia.
Qed.

Lemma byteAt_take_drop (bs : list Z) (q n i : nat) :
  (i < n)%nat -> byteAt (take n (drop q bs)) i = byteAt bs (q + i).
Proof.
  intros Hi. unfold byteAt. rewrite lookup_take_lt by lia.
  rewrite lookup_drop. reflexivity.
Qed.

Lemma readUint16LE_within (bs : list Z) (q : Z) :
  0 <= q -> q + 2 <= Z.of_nat (length bs) ->
  readUint16LE (mkStream bs q) =
    (READ_LE_UINT16 bs (Z.to_nat q), mkStream bs (q + 2)).
Proof.
  intros Hq Hlen. unfold readUint16LE. rewrite read_within by lia.
  rewrite !byteAt_take_drop by (simpl; lia).
  rewrite Nat.add_0_r. reflexivity.
Qed.

(** Reads and seeks keep the bytes of the stream. *)
Lemma read_bytes (n : Z) (b : Stream) : s_bytes (snd (read n b)) = s_bytes b.
Proof. reflexivity. Qed.

(** ** The palette tracker *)

Lemma setDirtyColors_pal (lo hi : Z) (p : Player) :
  _pal (setDirtyColors lo hi p) = _pal p /\
  _deltaPal (setDirtyColors lo hi p) = _deltaPal p.
Proof. unfold setDirtyColors; repeat case_match; simpl; auto. Qed.

Lemma setDirtyColors_range (lo hi : Z) (p : Player) :
  _palDirtyMin (setDirtyColors lo hi p) = Z.min (_palDirtyMin p) lo /\
  _palDirtyMax (setDirtyColors lo hi p) = Z.max (_palDirtyMax p) hi.
Proof.
  unfold setDirtyColors.
  destruct (lo <? _palDirtyMin p) eqn:E1; simpl;
    destruct (_ <? hi) eqn:E2; simpl in *; lia.
Qed.

(** The apply loop, run over the first [n] entries. *)
Lemma applyDelta_loop (n : nat) (p : Player) :
  let p' := fold_left applyDeltaAt (seq 0 n) p in
  length (_pal p') = length (_pal p) /\
  _deltaPal p' = _deltaPal p /\
  _palDirtyMin p' = _palDirtyMin p /\
  _palDirtyMax p' = _palDirtyMax p /\
  (forall i : nat, (n <= i)%nat -> _pal p' !! i = _pal p !! i) /\
  (forall (i : nat) (c d : Z), (i < n)%nat ->
     _pal p !! i = Some c -> _deltaPal p !! i = Some d ->
     _pal p' !! i = Some (delta_color c d)).
Proof.
  induction n as [|n IH]; cbv zeta.
  - simpl. repeat split; auto; intros; lia.
  - cbv zeta in IH. rewrite seq_S, fold_left_app; simpl.
    set (q := fold_left applyDeltaAt (seq 0 n) p) in *.
    destruct IH as (Hlen & Hdp & Hmin & Hmax & Hge & Hlt).
    unfold applyDeltaAt.
    destruct (_pal q !! n) as [c|] eqn:Ec; [destruct (_deltaPal q !! n) as [d|] eqn:Ed|];
      simpl; rewrite ?length_insert.
    + repeat split; auto.
      * intros i Hi. rewrite list_lookup_insert_ne by lia. apply Hge; lia.
      * intros i c' d' Hi Hc Hd.
        destruct (decide (i = n)) as [->|Hne].
        -- rewrite list_lookup_insert_eq by (apply lookup_lt_Some in Ec; lia).
           rewrite Hge in Ec by lia. rewrite Hdp in Ed. congruence.
        -- rewrite list_lookup_insert_ne by lia. apply Hlt; auto; lia.
    + repeat split; auto.
      * intros i Hi; apply Hge; lia.
      * intros i c' d' Hi Hc Hd.
        destruct (decide (i = n)) as [->|Hne]; [|apply Hlt; auto; lia].
        rewrite Hdp in Ed; congruence.
    + repeat split; auto.
      * intros i Hi; apply Hge; lia.
      * intros i c' d' Hi Hc Hd.
        destruct (decide (i = n)) as [->|Hne]; [|apply Hlt; auto; lia].
        rewrite Hge in Ec by lia; congruence.
Qed.

(** The 6-byte payload: what the apply branch returns. *)
Lemma handleDeltaPalette_6 (b : Stream) (p : Player) :
  exists (b' : Stream) (p' : Player),
    handleDeltaPalette 6 b p = Ok (b', p') /\
    length (_pal p') = length (_pal p) /\
    (forall (i : nat) (old delta : Z),
       _pal p !! i = Some old -> _deltaPal p !! i = Some delta ->
       (i < 768)%nat -> _pal p' !! i = Some (delta_color old delta)) /\
    _deltaPal p' = _deltaPal p /\
    _palDirtyMin p' = Z.min (_palDirtyMin p) 0 /\
    _palDirtyMax p' = Z.max (_palDirtyMax p) 255.
Proof.
  unfold handleDeltaPalette.
  change (6 =? 0x300 * 3 + 4) with false. change (6 =? 6) with true.
  cbv iota.
  destruct (readUint16LE b) as [v1 b1].
  destruct (readUint16LE b1) as [v2 b2].
  destruct (readUint16LE b2) as [v3 b3].
  eexists _, _; split; [reflexivity|].
  pose proof (applyDelta_loop 768 p) as H; cbv zeta in H.
  change (Pos.to_nat 768) with 768%nat.
  set (q := fold_left applyDeltaAt (seq 0 768) p) in *.
  destruct H as (Hlen & Hd & Hmin & Hmax & _ & Hlt).
  destruct (setDirtyColors_pal 0 255 q) as [Hp1 Hp2].
  destruct (setDirtyColors_range 0 255 q) as [Hr1 Hr2].
  rewrite Hp1, Hp2, Hr1, Hr2, Hlen, Hd, Hmin, Hmax.
  repeat split; auto.
Qed.


(** C2 (as amended): applying the stored deltas when the delta table is
    all zeros returns, leaves every palette byte below 128 and the byte
    255 as they are, and raises every byte from 128 to 254 by one. *)
Theorem handleDeltaPalette_zero_delta (b : Stream) (p : Player) :
  length (_pal p) = 768%nat -> length (_deltaPal p) = 768%nat ->
  Forall is_byte (_pal p) ->
  Forall (fun d => d = 0) (_deltaPal p) ->
  exists (b' : Stream) (p' : Player),
    handleDeltaPalette 6 b p = Ok (b', p') /\
    length (_pal p') = 768%nat /\
    forall (i : nat) (old : Z),
      _pal p !! i = Some old ->
      _pal p' !! i = Some (if (128 <=? old) && (old <? 255) then old + 1 else old).
Proof.
  intros Hpal Hdp Hbytes Hzero.
  destruct (handleDeltaPalette_6 b p) as (b' & p' & Hrun & Hlen & Hval & _).
  exists b', p'. split; [exact Hrun|]. split; [lia|].
  intros i old Hold.
  assert (Hi : (i < 768)%nat) by (apply lookup_lt_Some in Hold; lia).
  destruct (lookup_lt_is_Some_2 (_deltaPal p) i) as [d Hd]; [lia|].
  assert (d = 0) as ->.
  { rewrite Forall_forall in Hzero. apply Hzero.
    eapply list_elem_of_lookup_2; eauto. }
  rewrite (Hval i old 0 Hold Hd Hi), delta_color_zero; [reflexivity|].
  rewrite Forall_forall in Hbytes. apply Hbytes.
  eapply list_elem_of_lookup_2; eauto.
Qed.

(** The loop that reads the delta table, run over the first [n] entries. *)
Lemma readDelta_loop (bs : list Z) (n : nat) (q : Z) (dp : list Z) :
  0 <= q -> q + 2 * Z.of_nat n <= Z.of_nat (length bs) ->
  let r := fold_left readDeltaAt (seq 0 n) (mkStream bs q, dp) in
  fst r = mkStream bs (q + 2 * Z.of_nat n) /\
  length (snd r) = length dp /\
  (forall i : nat, (n <= i)%nat -> snd r !! i = dp !! i) /\
  (forall i : nat, (i < n)%nat -> (i < length dp)%nat ->
     snd r !! i = Some (to_int16 (READ_LE_UINT16 bs (Z.to_nat q + 2 * i)))).
Proof.
  intros Hq. induction n as [|n IH]; intros Hlen; cbv zeta.
  - simpl. replace (q + 2 * Z.of_nat 0) with q by lia.
    repeat split; auto; intros; lia.
  - rewrite seq_S, fold_left_app.
    destruct IH as (Hb & Hl & Hge & Hlt); [lia|].
    destruct (fold_left readDeltaAt (seq 0 n) (mkStream bs q, dp)) as [b1 dp1].
    cbn [fst snd] in *. subst b1. cbn [fold_left Nat.add]. unfold readDeltaAt.
    rewrite readUint16LE_within by lia. cbn [fst snd].
    rewrite length_insert.
    repeat split; auto.
    + f_equal. lia.
    + intros i Hi. rewrite list_lookup_insert_ne by lia. apply Hge; lia.
    + intros i Hi Hidp.
      destruct (decide (i = n)) as [->|Hne].
      * rewrite list_lookup_insert_eq by lia.
        do 3 f_equal. lia.
      * rewrite list_lookup_insert_ne by lia. apply Hlt; lia.
Qed.

(** The table-and-palette payload: what the set branch returns. *)
Lemma handleDeltaPalette_set (bs : list Z) (q : Z) (p : Player) :
  length (_pal p) = 768%nat -> length (_deltaPal p) = 768%nat ->
  0 <= q -> q + 2308 <= Z.of_nat (length bs) ->
  exists p' : Player,
    handleDeltaPalette (0x300 * 3 + 4) (mkStream bs q) p
      = Ok (mkStream bs (q + 2308), p') /\
    length (_deltaPal p') = 768%nat /\ length (_pal p') = 768%nat /\
    (forall i : nat, (i < 768)%nat ->
       _deltaPal p' !! i
         = Some (to_int16 (READ_LE_UINT16 bs (Z.to_nat q + 4 + 2 * i)))) /\
    (forall i : nat, (i < 768)%nat ->
       _pal p' !! i = Some (byteAt bs (Z.to_nat q + 1540 + i))) /\
    _palDirtyMin p' = Z.min (_palDirtyMin p) 0 /\
    _palDirtyMax p' = Z.max (_palDirtyMax p) 255.
Proof.
  intros Hpal Hdp Hq Hlen. unfold handleDeltaPalette.
  change (0x300 * 3 + 4 =? 0x300 * 3 + 4) with true. cbv iota.
  rewrite readUint16LE_within by lia.
  rewrite readUint16LE_within by lia.
  change (Pos.to_nat 768) with 768%nat.
  pose proof (readDelta_loop bs 768 (q + 2 + 2) (_deltaPal p)) as H.
  cbv zeta in H. destruct H as (Hb & Hl & _ & Hlt); [lia|lia|].
  destruct (fold_left readDeltaAt (seq 0 768) (mkStream bs (q + 2 + 2), _deltaPal p))
    as [b1 dp1]. simpl in Hb, Hl, Hlt. subst b1.
  unfold readPalette. rewrite read_within by lia.
  set (got := take (Z.to_nat 768) (drop (Z.to_nat (q + 2 + 2 + 2 * Z.of_nat 768)) bs)).
  assert (Hgot : length got = 768%nat).
  { unfold got. rewrite length_take, length_drop. lia. }
  eexists. split; [do 3 f_equal; lia|].
  destruct (setDirtyColors_pal 0 255
              (set_pal (map to_byte got ++ drop (length got) (_pal p))
                 (set_deltaPal dp1 p))) as [Hp1 Hp2].
  destruct (setDirtyColors_range 0 255
              (set_pal (map to_byte got ++ drop (length got) (_pal p))
                 (set_deltaPal dp1 p))) as [Hr1 Hr2].
  rewrite Hp1, Hp2, Hr1, Hr2. simpl.
  repeat split; auto; try lia.
  - rewrite length_app, length_map, length_drop. lia.
  - intros i Hi. rewrite Hlt by lia. do 3 f_equal. lia.
  - intros i Hi. rewrite lookup_app_l by (rewrite length_map; lia).
    rewrite list_lookup_fmap. unfold got.
    rewrite lookup_take_lt by lia. rewrite lookup_drop.
    unfold byteAt.
    replace (Z.to_nat (q + 2 + 2 + 2 * Z.of_nat 768) + i)%nat
      with (Z.to_nat q + 1540 + i)%nat by lia.
    destruct (lookup_lt_is_Some_2 bs (Z.to_nat q + 1540 + i)) as [x Hx]; [lia|].
    rewrite Hx. reflexivity.
Qed.

(** C8: [handleDeltaPalette] accepts exactly two payload lengths. With
    0x300*3+4 bytes (all present in the stream) it stores the 768 entries
    of the delta table as read, little-endian and signed, then copies the
    768 palette bytes that follow as they are, no delta applied, and
    widens the dirty range over [[0,255]]; with 6 bytes it reads no
    palette and no table but applies the stored deltas to the current
    palette: every byte [old] with the stored delta [delta] at its index
    becomes [(old * 129 + delta) / 128] (the division truncating),
    brought into 0..255, the table is kept and the dirty range is
    widened over [[0,255]]; any other length is a fatal error. *)
Theorem handleDeltaPalette_lengths (subSize : Z) (b : Stream) (p : Player) :
  length (_pal p) = 768%nat -> length (_deltaPal p) = 768%nat ->
  (subSize = 0x300 * 3 + 4 ->
   0 <= pos b -> pos b + 2308 <= Z.of_nat (length (s_bytes b)) ->
   exists p' : Player,
     handleDeltaPalette subSize b p = Ok (skip 2308 b, p') /\
     (forall i : nat, (i < 768)%nat ->
        _deltaPal p' !! i
          = Some (to_int16 (READ_LE_UINT16 (s_bytes b)
                              (Z.to_nat (pos b) + 4 + 2 * i)))) /\
     (forall i : nat, (i < 768)%nat ->
        _pal p' !! i = Some (byteAt (s_bytes b) (Z.to_nat (pos b) + 1540 + i))) /\
     _palDirtyMin p' <= 0 /\ 255 <= _palDirtyMax p') /\
  (subSize = 6 ->
   exists (b' : Stream) (p' : Player),
     handleDeltaPalette subSize b p = Ok (b', p') /\
     _deltaPal p' = _deltaPal p /\
     length (_pal p') = 768%nat /\
     (forall (i : nat) (old delta : Z),
        _pal p !! i = Some old -> _deltaPal p !! i = Some delta ->
        _pal p' !! i
          = Some (Z.max 0 (Z.min 255 (Z.quot (old * 129 + delta) 128)))) /\
     _palDirtyMin p' <= 0 /\ 255 <= _palDirtyMax p') /\
  (subSize <> 0x300 * 3 + 4 -> subSize <> 6 ->
   exists msg : string, handleDeltaPalette subSize b p = Fatal msg).
Proof.
  intros Hpal Hdp. split; [|split].
  - intros -> Hq Hlen. destruct b as [bs q]; simpl in *.
    destruct (handleDeltaPalette_set bs q p Hpal Hdp Hq Hlen)
      as (p' & Hrun & _ & _ & Hd & Hp & Hmin & Hmax).
    exists p'. unfold skip; simpl. repeat split; auto; lia.
  - intros ->.
    destruct (handleDeltaPalette_6 b p) as (b' & p' & Hrun & Hlen & Hval & Hd & Hmin & Hmax).
    exists b', p'. repeat split; auto; try lia.
    intros i old delta Ho Hdl. rewrite (Hval i old delta Ho Hdl).
    + unfold delta_color, CLIP. f_equal. repeat case_match; lia.
    + apply lookup_lt_Some in Ho. lia.
  - intros H1 H2. unfold handleDeltaPalette.
    destruct (subSize =? 0x300 * 3 + 4) eqn:E1; [lia|].
    destruct (subSize =? 6) eqn:E2; [lia|].
    eexists; reflexivity.
Qed.

(** ** Pausing *)

(** C10: [pause] while paused and [unpause] while not paused change
    nothing; [pause();pause()] is [pause()] and [unpause();unpause()] is
    [unpause()] in every state, whatever the clock reads; [pause] leaves
    the accumulated pause time alone, and a matched [pause]/[unpause] pair
    adds to it the clock difference between the two calls (in 32-bit
    unsigned arithmetic, which is the plain difference as long as nothing
    wraps). *)
Theorem pause_unpause_idempotent (t1 t2 : Z) (p : Player) :
  (_paused p = true -> pause t1 p = p) /\
  (_paused p = false -> unpause t1 p = p) /\
  pause t2 (pause t1 p) = pause t1 p /\
  unpause t2 (unpause t1 p) = unpause t1 p /\
  _pauseTime (pause t1 p) = _pauseTime p /\
  (_paused p = false ->
   _pauseTime (unpause t2 (pause t1 p))
     = to_uint32 (_pauseTime p + to_uint32 (to_uint32 t2 - to_uint32 t1))) /\
  (_paused p = false ->
   0 <= t1 <= t2 -> t2 < 4294967296 ->
   0 <= _pauseTime p -> _pauseTime p + (t2 - t1) < 4294967296 ->
   _pauseTime (unpause t2 (pause t1 p)) = _pauseTime p + (t2 - t1)).
Proof.
  assert (Hpair : _paused p = false ->
            _pauseTime (unpause t2 (pause t1 p))
            = to_uint32 (_pauseTime p + to_uint32 (to_uint32 t2 - to_uint32 t1))).
  { intros Hp. unfold pause, unpause. rewrite Hp. reflexivity. }
  repeat split.
  - intros Hp. unfold pause. rewrite Hp. reflexivity.
  - intros Hp. unfold unpause. rewrite Hp. reflexivity.
  - unfold pause. destruct (_paused p) eqn:Hp; simpl; rewrite ?Hp; reflexivity.
  - unfold unpause. destruct (_paused p) eqn:Hp; simpl; rewrite ?Hp; reflexivity.
  - unfold pause. destruct (_paused p); reflexivity.
  - exact Hpair.
  - intros Hp Ht1 Ht2 Hpt Hsum. rewrite (Hpair Hp).
    rewrite (to_uint32_id t2), (to_uint32_id t1) by lia.
    rewrite (to_uint32_id (t2 - t1)) by lia.
    apply to_uint32_id. lia.
Qed.

(** ** The display half of a turn *)

Lemma tick_present_counter (due skipFrame : bool) (skipped : Z) (p : Player) :
  0 <= skipped <= 10 ->
  let '(_, skipped', out) := tick_present due skipFrame skipped p in
  0 <= skipped' <= 10 /\
  (o_skipFrame out = true -> skipFrame = true /\ skipped' = skipped + 1) /\
  (o_skipFrame out = false -> skipped' = 0) /\
  (skipFrame = true -> skipped = 10 -> o_skipFrame out = false) /\
  (skipFrame = false -> o_skipFrame out = false) /\
  (_palDirtyMin p <= _palDirtyMax p -> o_skipFrame out = false).
Proof.
  intros Hs. unfold tick_present.
  destruct (_palDirtyMin p <=? _palDirtyMax p) eqn:Ed; cbn [negb];
    destruct skipFrame; cbv iota;
    try destruct (10 <? skipped + 1) eqn:E10;
    repeat match goal with
           | |- context [if ?c then _ else _] => destruct c
           end; cbn [o_skipFrame]; repeat split; intros; try lia; congruence.
Qed.

Lemma tick_present_blit (due skipFrame : bool) (skipped : Z) (p : Player) :
  let '(p', _, out) := tick_present due skipFrame skipped p in
  o_updateNeeded out = _updateNeeded p /\
  (o_updateNeeded out = true -> o_skipFrame out = false ->
   o_blit out = Some (_width p, Z.min (_width p) _screenWidth,
                      Z.min (_height p) _screenHeight)
   /\ _updateNeeded p' = false) /\
  (forall pitch w h : Z,
     o_blit out = Some (pitch, w, h) ->
     pitch = _width p /\
     w = Z.min (_width p) _screenWidth /\
     h = Z.min (_height p) _screenHeight).
Proof.
  unfold tick_present. rewrite !MIN_min.
  destruct (_palDirtyMin p <=? _palDirtyMax p); cbn [negb];
    destruct skipFrame; cbv iota;
    try destruct (10 <? skipped + 1);
    destruct (_updateNeeded p) eqn:Eu; cbn; rewrite ?Eu; cbn;
    repeat split; intros; try congruence.
Qed.

(** When the display half of a turn pushes the frame: exactly when one is
    waiting and the skip flag is clear; the push takes the request back,
    and without a push the request stays as it was. *)
Lemma tick_present_push (due skipFrame : bool) (skipped : Z) (p : Player) :
  let '(p', _, out) := tick_present due skipFrame skipped p in
  (is_Some (o_blit out) <-> _updateNeeded p = true /\ o_skipFrame out = false) /\
  (is_Some (o_blit out) -> _updateNeeded p' = false) /\
  (o_blit out = None -> _updateNeeded p' = _updateNeeded p).
Proof.
  unfold tick_present.
  destruct (_palDirtyMin p <=? _palDirtyMax p); cbn [negb];
    destruct skipFrame; cbv iota;
    try destruct (10 <? skipped + 1);
    destruct (_updateNeeded p) eqn:Eu; cbn; rewrite ?Eu; cbn;
    (split; [split|split]);
    try (intros [x Hx]; discriminate Hx);
    try (intros [H1 H2]; discriminate);
    try (intros; discriminate);
    try (intros; reflexivity);
    try (intros; split; reflexivity);
    try (intros; eexists; reflexivity);
    try (intros; exact Eu).
Qed.

(** ** The play loop *)

Lemma play_loop_cons (fuel : nat) (i : TickInput) (inputs : list TickInput)
    (skipped : Z) (p : Player) :
  play_loop fuel (i :: inputs) skipped p =
  match tick_decode fuel i p with
  | Fatal msg => ([], Fatal msg)
  | Spin => ([], Spin)
  | Ok (p, skipFrame, due) =>
      let '(p, skipped, out) := tick_present due skipFrame skipped p in
      if _endOfFile p then ([out], Ok p)
      else if in_quit i || _smushVideoShouldFinish p
      then ([out], Ok (stopPlayback p))
      else
        let '(outs, r) := play_loop fuel inputs skipped p in
        (out :: outs, r)
  end.
Proof. reflexivity. Qed.

(** A property of every turn's display half holds of every turn of a run. *)
Lemma play_loop_Forall (Q : TickOut -> Prop) (fuel : nat) :
  (forall due skipFrame skipped p,
     Q (snd (tick_present due skipFrame skipped p))) ->
  forall inputs skipped p, Forall Q (fst (play_loop fuel inputs skipped p)).
Proof.
  intros HQ. induction inputs as [|i inputs IH]; intros skipped p.
  - constructor.
  - rewrite play_loop_cons.
    destruct (tick_decode fuel i p) as [[[p1 sf] due]|msg|]; try constructor.
    pose proof (HQ due sf skipped p1) as Hout.
    destruct (tick_present due sf skipped p1) as [[p2 sk2] out]. simpl in Hout.
    destruct (_endOfFile p2); [repeat constructor; auto|].
    destruct (in_quit i || _smushVideoShouldFinish p2); [repeat constructor; auto|].
    specialize (IH sk2 p2).
    destruct (play_loop fuel inputs sk2 p2) as [outs r]. simpl in *.
    constructor; auto.
Qed.

Lemma skips_bounded_nil (skipped : Z) : 0 <= skipped <= 10 -> skips_bounded skipped [].
Proof.
  intros Hs. split; [simpl; lia|].
  intros pre suf Heq. symmetry in Heq. apply app_eq_nil in Heq as [_ ->].
  simpl; lia.
Qed.

Lemma skips_bounded_cons (skipped sk2 : Z) (out : TickOut) (outs : list TickOut) :
  0 <= skipped <= 10 -> 0 <= sk2 <= 10 ->
  (o_skipFrame out = true -> sk2 = skipped + 1) ->
  skips_bounded sk2 outs -> skips_bounded skipped (out :: outs).
Proof.
  intros Hs Hs2 Hstep [Hlead Hsuf].
  assert (Hhead : Z.of_nat (leading_skips (out :: outs)) + skipped <= 10).
  { simpl. destruct (o_skipFrame out) eqn:Eo; [|simpl; lia].
    specialize (Hstep eq_refl). lia. }
  split; [exact Hhead|].
  intros [|o pre] suf Heq; simpl in Heq.
  - subst suf. lia.
  - injection Heq as _ Heq. eapply Hsuf; eauto.
Qed.

Lemma play_loop_skips (fuel : nat) (inputs : list TickInput) :
  forall (skipped : Z) (p : Player),
    0 <= skipped <= 10 ->
    skips_bounded skipped (fst (play_loop fuel inputs skipped p)).
Proof.
  induction inputs as [|i inputs IH]; intros skipped p Hs.
  - apply skips_bounded_nil; auto.
  - rewrite play_loop_cons.
    destruct (tick_decode fuel i p) as [[[p1 sf] due]|msg|];
      try (apply skips_bounded_nil; auto).
    pose proof (tick_present_counter due sf skipped p1 Hs) as Hc.
    destruct (tick_present due sf skipped p1) as [[p2 sk2] out].
    destruct Hc as (Hr & Htrue & _).
    assert (Hstep : o_skipFrame out = true -> sk2 = skipped + 1)
      by (intros Ho; apply Htrue; auto).
    destruct (_endOfFile p2);
      [apply (skips_bounded_cons skipped sk2); auto using skips_bounded_nil|].
    destruct (in_quit i || _smushVideoShouldFinish p2);
      [apply (skips_bounded_cons skipped sk2); auto using skips_bounded_nil|].
    specialize (IH sk2 p2 Hr).
    destruct (play_loop fuel inputs sk2 p2) as [outs r]. simpl in *.
    apply (skips_bounded_cons skipped sk2); auto.
Qed.

(** A stretch of turns either contains a displayed one or counts in full
    towards the skipped turns at its head. *)
Lemma leading_skips_window (win post : list TickOut) :
  (length win <= leading_skips (win ++ post))%nat \/
  exists o, o ∈ win /\ o_skipFrame o = false.
Proof.
  induction win as [|o win IH]; simpl.
  - left; lia.
  - destruct (o_skipFrame o) eqn:Eo.
    + destruct IH as [IH|(o' & Hin & Ho')]; [left; lia|].
      right. exists o'. split; [right; auto|auto].
    + right. exists o. split; [left|auto].
Qed.

Lemma play_outs (fuel : nat) (inputs : list TickInput) (filename : string)
    (speed offset startFrame millis : Z) (p : Player) :
  fst (play fuel inputs filename speed offset startFrame millis p) = [] \/
  exists q : Player,
    fst (play fuel inputs filename speed offset startFrame millis p)
    = fst (play_loop fuel inputs 0 q).
Proof.
  unfold play. destruct (openFile filename); [|left; reflexivity].
  destruct (setupAnim filename _); [|left; reflexivity|left; reflexivity].
  right. eexists.
  match goal with
  | |- context [play_loop fuel inputs 0 ?q] =>
      destruct (play_loop fuel inputs 0 q) as [outs r] eqn:Er
  end.
  simpl. rewrite Er. reflexivity.
Qed.

(** C9: the rectangle of every blit of the display half of a turn is
    [min(_width, _screenWidth)] wide and [min(_height, _screenHeight)]
    high, with [_width] as pitch; so in a run of [play] no blit is wider
    or higher than the screen, whatever the current frame dimensions. *)
Theorem play_blit_within_screen (fuel : nat) (inputs : list TickInput)
    (filename : string) (speed offset startFrame millis : Z) (p : Player) :
  (forall (due skipFrame : bool) (skipped : Z) (q : Player) (pitch w h : Z),
     o_blit (snd (tick_present due skipFrame skipped q)) = Some (pitch, w, h) ->
     pitch = _width q /\
     w = Z.min (_width q) _screenWidth /\
     h = Z.min (_height q) _screenHeight) /\
  (forall (o : TickOut) (pitch w h : Z),
     o ∈ fst (play fuel inputs filename speed offset startFrame millis p) ->
     o_blit o = Some (pitch, w, h) ->
     w = Z.min pitch _screenWidth /\ w <= _screenWidth /\ h <= _screenHeight).
Proof.
  assert (Htick : forall (due skipFrame : bool) (skipped : Z) (q : Player)
                    (pitch w h : Z),
             o_blit (snd (tick_present due skipFrame skipped q)) = Some (pitch, w, h) ->
             pitch = _width q /\
             w = Z.min (_width q) _screenWidth /\
             h = Z.min (_height q) _screenHeight).
  { intros due sf sk q pitch w h.
    pose proof (tick_present_blit due sf sk q) as Hb.
    destruct (tick_present due sf sk q) as [[q' sk'] out]. simpl.
    destruct Hb as (_ & _ & Hb). apply Hb. }
  split; [exact Htick|].
  intros o pitch w h Hin Hblit.
  assert (HF : Forall (fun o => forall pitch w h, o_blit o = Some (pitch, w, h) ->
                         w = Z.min pitch _screenWidth /\
                         w <= _screenWidth /\ h <= _screenHeight)
                 (fst (play fuel inputs filename speed offset startFrame millis p))).
  { destruct (play_outs fuel inputs filename speed offset startFrame millis p)
      as [Hnil|[q Hq]]; [rewrite Hnil; constructor|].
    rewrite Hq. apply play_loop_Forall.
    intros due sf sk r pitch' w' h' Hb.
    destruct (Htick due sf sk r pitch' w' h' Hb) as (-> & -> & ->).
    repeat split; lia. }
  rewrite Forall_forall in HF. eapply HF; eauto.
Qed.

(** ** Routing of frame objects *)





Lemma dst_pixels_set (px : list Z) (p : Player) :
  dst_pixels (set_dst_pixels px p) = px.
Proof.
  unfold dst_pixels, set_dst_pixels.
  destruct (_dst p) eqn:Ed; simpl; rewrite Ed; reflexivity.
Qed.




(** ** Out-of-order audio blocks *)

(** C3 (as amended): for an audio block whose index is not zero and not
    the successor of the last index seen on its track, [handleSoundBuffer]
    always appends the payload to the channel, and logs the mismatch
    unless the player is in middle-audio mode (the first block after a
    seek into a file), where the parameters are set unchecked and nothing
    is logged; the branch of [handleIACT] for The Dig drops the block: it
    logs the out-of-order warning, feeds nothing to iMUSE and keeps the
    last index of the buffer. *)
Theorem audio_out_of_order (index : Z) :
  index <> 0 ->
  (forall (track_id max_frames flags vol pan size : Z) (b : Stream) (p : Player),
     let c0 := match _smixer p !! track_id with
               | Some c => c
               | None => newSaudChannel track_id
               end in
     index <> ch_index c0 + 1 ->
     let '(b', p') :=
       handleSoundBuffer track_id index max_frames flags vol pan b size p in
     b' = snd (read size b) /\
     (exists c' : Channel,
        _smixer p' !! track_id = Some c' /\
        ch_data c' = ch_data c0 ++ fst (read size b)) /\
     (_middleAudio p = false -> debuglog p' = MSG_INDEX :: debuglog p) /\
     (_middleAudio p = true -> debuglog p' = debuglog p)) /\
  (forall (fuel : nat) (subSize userId nbframes bsize : Z) (b : Stream)
          (p : Player) (bufId volume last : Z),
     iactBuffer userId = Ok (bufId, volume) ->
     iactTable_get bufId p = Ok last ->
     index <> last + 1 ->
     exists p' : Player,
       handleIACT_DIG fuel subSize userId index nbframes bsize b p
         = Ok (snd (read bsize b), p') /\
       imuse p' = imuse p /\
       _iactTable p' = _iactTable p /\
       debuglog p' = MSG_OUT_OF_ORDER :: debuglog p).
Proof.
  intros Hnz. split.
  - intros track_id max_frames flags vol pan size b p c0 Hseq.
    unfold handleSoundBuffer. fold c0.
    assert (Ei : (index =? 0) = false) by lia. rewrite Ei.
    unfold appendData, checkParameters, setParameters.
    assert (Es : (index =? ch_index c0 + 1) = false) by lia. rewrite Es.
    destruct (_middleAudio p) eqn:Em; cbn [orb];
      destruct (read size b) as [got b1]; cbn [fst snd];
      (split; [reflexivity|]); (split; [|split; intros; [try discriminate|try discriminate]]).
    + eexists. split; [apply lookup_insert_eq|reflexivity].
    + reflexivity.
    + eexists. split; [apply lookup_insert_eq|reflexivity].
    + reflexivity.
  - intros fuel subSize userId nbframes bsize b p bufId volume last Hbuf Hget Hseq.
    unfold handleIACT_DIG.
    destruct (read bsize b) as [data b1]. cbn [snd].
    rewrite Hbuf. cbn [bind].
    assert (Ei : (index =? 0) = false) by lia. rewrite Ei, Hget. cbn [bind negb andb].
    assert (Es : (last - index =? -1) = false) by lia. rewrite Es. cbn [negb].
    eexists. split; [reflexivity|]. repeat split.
Qed.

(** ** What sub-chunk handlers leave alone *)

Ltac res_inv :=
  repeat match goal with
    | H : Ok _ = Ok _ |- _ => inversion H; subst; clear H
    | H : Fatal _ = Ok _ |- _ => discriminate H
    | H : Spin = Ok _ |- _ => discriminate H
    | H : error _ = Ok _ |- _ => discriminate H
    | H : bind ?m _ = Ok _ |- _ =>
        let E := fresh "E" in destruct m eqn:E; cbn [bind] in H
    | H : (let '(_, _) := ?x in _) = Ok _ |- _ =>
        let E := fresh "E" in destruct x eqn:E
    | H : (if ?c then _ else _) = Ok _ |- _ =>
        let E := fresh "E" in destruct c eqn:E
    | H : match ?x with _ => _ end = Ok _ |- _ =>
        let E := fresh "E" in destruct x eqn:E
    end.

Lemma keeps_frame_refl (p : Player) : keeps_frame p p.
Proof. unfold keeps_frame; auto 10. Qed.

Lemma keeps_frame_trans (p q r : Player) :
  keeps_frame p q -> keeps_frame q r -> keeps_frame p r.
Proof.
  unfold keeps_frame. intros (F1 & U1 & I1 & D1) (F2 & U2 & I2 & D2).
  repeat split; try congruence.
  destruct D2 as [[W2 H2]|[D2|D2]]; auto.
  destruct D1 as [[W1 H1]|[D1|D1]]; [left|right; left|right; right];
    split; try congruence; lia.
Qed.

(** A change that touches none of the fields [keeps_frame] speaks of. *)
Lemma keeps_frame_fields (p p' : Player) :
  _frame p' = _frame p -> _updateNeeded p' = _updateNeeded p ->
  _insanity p' = _insanity p -> _width p' = _width p ->
  _height p' = _height p -> keeps_frame p p'.
Proof. unfold keeps_frame; auto 10. Qed.

Lemma setDirtyColors_keeps (lo hi : Z) (p : Player) :
  keeps_frame p (setDirtyColors lo hi p).
Proof.
  unfold setDirtyColors; repeat case_match; apply keeps_frame_fields; reflexivity.
Qed.

Lemma set_dst_pixels_keeps (px : list Z) (p : Player) :
  keeps_frame p (set_dst_pixels px p).
Proof.
  unfold set_dst_pixels; case_match; apply keeps_frame_fields; reflexivity.
Qed.

Ltac keeps_step :=
  first
    [ apply keeps_frame_refl
    | apply keeps_frame_fields; reflexivity
    | eapply keeps_frame_trans; [|apply setDirtyColors_keeps]
    | eapply keeps_frame_trans; [|apply set_dst_pixels_keeps] ].

Lemma handleNewPalette_keeps (subSize : Z) (b b' : Stream) (p p' : Player) :
  handleNewPalette subSize b p = Ok (b', p') -> keeps_frame p p'.
Proof. unfold handleNewPalette, assert. intros H. res_inv; repeat keeps_step. Qed.

Lemma applyDelta_keeps (n : nat) (p : Player) :
  keeps_frame p (fold_left applyDeltaAt (seq 0 n) p).
Proof.
  induction n as [|n IH]; [apply keeps_frame_refl|].
  rewrite seq_S, fold_left_app. simpl.
  eapply keeps_frame_trans; [exact IH|].
  unfold applyDeltaAt. repeat case_match; repeat keeps_step.
Qed.

Lemma handleDeltaPalette_keeps (subSize : Z) (b b' : Stream) (p p' : Player) :
  handleDeltaPalette subSize b p = Ok (b', p') -> keeps_frame p p'.
Proof.
  unfold handleDeltaPalette. intros H.
  destruct (subSize =? 0x300 * 3 + 4); [|destruct (subSize =? 6)].
  - destruct (readUint16LE b) as [v1 b1]. destruct (readUint16LE b1) as [v2 b2].
    destruct (fold_left readDeltaAt _ _) as [b3 dp].
    destruct (readPalette (_pal p) b3) as [pal b4].
    apply (f_equal (fun r => match r with Ok (_, q) => q | _ => p end)) in H.
    cbv beta iota in H. subst p'. repeat keeps_step.
  - destruct (readUint16LE b) as [v1 b1]. destruct (readUint16LE b1) as [v2 b2].
    destruct (readUint16LE b2) as [v3 b3].
    apply (f_equal (fun r => match r with Ok (_, q) => q | _ => p end)) in H.
    cbv beta iota in H. subst p'. keeps_step. apply applyDelta_keeps.
  - discriminate.
Qed.

Lemma handleStore_keeps (subSize : Z) (b b' : Stream) (p p' : Player) :
  handleStore subSize b p = Ok (b', p') -> keeps_frame p p'.
Proof. unfold handleStore, assert. intros H. res_inv; repeat keeps_step. Qed.

Lemma handleFetch_keeps (subSize : Z) (b b' : Stream) (p p' : Player) :
  handleFetch subSize b p = Ok (b', p') -> keeps_frame p p'.
Proof. unfold handleFetch, assert. intros H. res_inv; repeat keeps_step. Qed.

Lemma decodeCodec_keeps (codec : Z) (src : list Z) (left top width height : Z)
    (p p' : Player) :
  decodeCodec codec src left top width height p = Ok p' -> keeps_frame p p'.
Proof.
  unfold decodeCodec. intros H. res_inv; repeat keeps_step;
    unfold set_dst_pixels; case_match; apply keeps_frame_fields; reflexivity.
Qed.

Lemma storeFrame_keeps_frame (p : Player) : keeps_frame p (storeFrame p).
Proof. unfold storeFrame; case_match; repeat keeps_step. Qed.

Lemma decodeFrameObject_keeps (codec : Z) (src : list Z)
    (left top width height : Z) (p p' : Player) :
  decodeFrameObject codec src left top width height p = Ok p' ->
  keeps_frame p p'.
Proof.
  unfold decodeFrameObject. intros H.
  destruct (selectTarget width height p) as [q|] eqn:Es;
    [|res_inv; apply keeps_frame_refl].
  assert (Hq : _frame q = _frame p /\ _updateNeeded q = _updateNeeded p /\
               _insanity q = _insanity p).
  { unfold selectTarget in Es.
    repeat match type of Es with
           | (if ?c then _ else _) = Some _ => destruct c
           end; try discriminate; inversion Es; subst; clear Es;
      try case_match; simpl; auto. }
  destruct Hq as (F & U & I).
  destruct (decodeCodec _ _ _ _ _ _ _) as [p1| |] eqn:Ec; cbn [bind] in H;
    res_inv.
  apply decodeCodec_keeps in Ec.
  eapply keeps_frame_trans; [|apply storeFrame_keeps_frame].
  eapply keeps_frame_trans; [|exact Ec].
  unfold keeps_frame. destruct ((height =? 242) && (width =? 384)) eqn:Esp; simpl.
  - apply andb_true_iff in Esp as [E1 E2]. repeat split; auto. right; left; lia.
  - repeat split; auto.
Qed.

Lemma handleFrameObject_keeps (subSize : Z) (b b' : Stream) (p p' : Player) :
  handleFrameObject subSize b p = Ok (b', p') -> keeps_frame p p'.
Proof.
  unfold handleFrameObject, assert. intros H. res_inv; repeat keeps_step.
  eapply decodeFrameObject_keeps; eauto.
Qed.

Lemma handleZlibFrameObject_keeps (subSize : Z) (b b' : Stream) (p p' : Player) :
  handleZlibFrameObject subSize b p = Ok (b', p') -> keeps_frame p p'.
Proof.
  unfold handleZlibFrameObject. intros H. res_inv; repeat keeps_step.
  eapply decodeFrameObject_keeps; eauto.
Qed.

Lemma handleSoundFrame_keeps (subSize : Z) (b : Stream) (p : Player) :
  keeps_frame p (snd (handleSoundFrame subSize b p)).
Proof.
  unfold handleSoundFrame, handleSoundBuffer, appendData.
  repeat match goal with
         | |- context [let '(_, _) := ?x in _] => destruct x
         end.
  simpl. apply keeps_frame_fields; reflexivity.
Qed.

Lemma handleTextResource_keeps (subType subSize : Z) (b b' : Stream)
    (p p' : Player) :
  handleTextResource subType subSize b p = Ok (b', p') -> keeps_frame p p'.
Proof. unfold handleTextResource. intros H. res_inv; repeat keeps_step. Qed.

Lemma handleIACT_DIG_keeps (fuel : nat) (subSize userId index nbframes bsize : Z)
    (b b' : Stream) (p p' : Player) :
  handleIACT_DIG fuel subSize userId index nbframes bsize b p = Ok (b', p') ->
  keeps_frame p p'.
Proof.
  unfold handleIACT_DIG, iactTable_set, diMUSE, debugC. intros H.
  res_inv; apply keeps_frame_fields; reflexivity.
Qed.

Lemma handleIACT_keeps (fuel : nat) (subSize : Z) (b b' : Stream)
    (p p' : Player) :
  handleIACT fuel subSize b p = Ok (b', p') -> keeps_frame p p'.
Proof.
  unfold handleIACT, assert. intros H. res_inv; repeat keeps_step;
    eapply handleIACT_DIG_keeps; eauto.
Qed.

Lemma handleSubChunk_keeps (fuel : nat) (subType subSize : Z) (b b' : Stream)
    (p p' : Player) :
  handleSubChunk fuel subType subSize b p = Ok (b', p') -> keeps_frame p p'.
Proof.
  unfold handleSubChunk. intros H.
  repeat match type of H with
         | (if ?c then _ else _) = Ok _ => destruct c eqn:?
         end;
    eauto using handleNewPalette_keeps, handleFrameObject_keeps,
      handleZlibFrameObject_keeps, handleTextResource_keeps,
      handleDeltaPalette_keeps, handleIACT_keeps, handleStore_keeps,
      handleFetch_keeps.
  - inversion H. pose proof (handleSoundFrame_keeps subSize b p) as K.
    rewrite H1 in K. exact K.
  - res_inv. apply keeps_frame_refl.
  - res_inv; case_match; apply keeps_frame_fields; reflexivity.
  - discriminate.
Qed.

(** ** Frames *)

Lemma handleFrame_step_keeps (fuel : nat) (frameSize frameSize' : Z)
    (b b' : Stream) (p p' : Player) :
  handleFrame_step fuel frameSize b p = Ok (frameSize', b', p') ->
  keeps_frame p p'.
Proof.
  unfold handleFrame_step. intros H.
  destruct (readChunkHeader b) as [[subType subSize] b1].
  destruct (handleSubChunk fuel subType subSize b1 p) as [[b2 p2]| |] eqn:Eh;
    cbn [bind] in H; try discriminate.
  apply handleSubChunk_keeps in Eh.
  destruct (negb (Z.land subSize 1 =? 0)); inversion H; subst; exact Eh.
Qed.

Lemma handleFrame_loop_keeps (fuel : nat) :
  forall (frameSize : Z) (b b' : Stream) (p p' : Player),
    handleFrame_loop fuel frameSize b p = Ok (b', p') -> keeps_frame p p'.
Proof.
  induction fuel as [|fuel IH]; intros frameSize b b' p p' H; simpl in H.
  - destruct (0 <? frameSize); [discriminate|].
    inversion H; subst. apply keeps_frame_refl.
  - destruct (0 <? frameSize); [|inversion H; subst; apply keeps_frame_refl].
    destruct (handleFrame_step fuel frameSize b p) as [[[fs1 b1] p1]| |] eqn:Es;
      cbn [bind] in H; try discriminate.
    eapply keeps_frame_trans;
      [eapply handleFrame_step_keeps; eauto|eapply IH; eauto].
Qed.

Lemma preRendering_keeps (p : Player) :
  keeps_frame p
    (if _insanity (set_skipNext false p)
     then set_insane (procPreRendering (insane (set_skipNext false p)))
            (set_skipNext false p)
     else set_skipNext false p).
Proof. case_match; apply keeps_frame_fields; reflexivity. Qed.

Lemma postRendering_keeps (p : Player) :
  keeps_frame p
    (if _insanity p
     then let '(ins, px) :=
            procPostRendering (dst_pixels p) (_frame p) (_nbframes p - 1)
              (insane p) in
          set_dst_pixels px (set_insane ins p)
     else p).
Proof.
  destruct (_insanity p); [|apply keeps_frame_refl].
  destruct (procPostRendering _ _ _ _) as [ins px].
  eapply keeps_frame_trans; [|apply set_dst_pixels_keeps].
  apply keeps_frame_fields; reflexivity.
Qed.

(** C7 (as amended): when [handleFrame] returns, the sub-chunks, however
    many frame objects were among them, have left the frame counter and
    the display request as they were and have kept the current dimensions
    or made them those of the special buffer or of the screen; after
    them, once, the frame counter goes up by one, and the display is
    requested ([updateScreen] sets [_updateNeeded]) exactly when [_width]
    and [_height] are both non-zero: in particular whenever the chunk set
    up a frame size on a screen of non-zero dimensions. [handleFrame]
    pushes nothing itself: the push is the display half of a turn of the
    play loop, made exactly when a request is waiting and the turn's skip
    flag is clear; it takes the request back, and a turn without a push
    leaves the request waiting. *)
Theorem handleFrame_once (fuel : nat) (frameSize : Z) (b b' : Stream)
    (p p' : Player) :
  handleFrame fuel frameSize b p = Ok (b', p') ->
  (forall (q : Player) (bq : Stream) (q' : Player) (bq' : Stream),
     handleFrame_loop fuel frameSize bq q = Ok (bq', q') ->
     _frame q' = _frame q /\ _updateNeeded q' = _updateNeeded q) /\
  _frame p' = to_uint32 (_frame p + 1) /\
  (0 <= _frame p < 4294967295 -> _frame p' = _frame p + 1) /\
  (_width p' <> 0 -> _height p' <> 0 -> _updateNeeded p' = true) /\
  (_width p' = 0 \/ _height p' = 0 -> _updateNeeded p' = _updateNeeded p) /\
  ((_width p' = _width p /\ _height p' = _height p) \/
   (_width p' = 384 /\ _height p' = 242) \/
   (_width p' = _screenWidth /\ _height p' = _screenHeight)) /\
  (_screenWidth <> 0 -> _screenHeight <> 0 ->
   ~ (_width p' = _width p /\ _height p' = _height p) ->
   _updateNeeded p' = true) /\
  (forall (due skipFrame : bool) (skipped : Z) (q : Player),
     let '(q', _, out) := tick_present due skipFrame skipped q in
     (is_Some (o_blit out)
      <-> _updateNeeded q = true /\ o_skipFrame out = false) /\
     (is_Some (o_blit out) -> _updateNeeded q' = false) /\
     (o_blit out = None -> _updateNeeded q' = _updateNeeded q)).
Proof.
  intros H.
  pose proof tick_present_push as Hpush.
  assert (Hloop : forall q bq q' bq',
             handleFrame_loop fuel frameSize bq q = Ok (bq', q') ->
             _frame q' = _frame q /\ _updateNeeded q' = _updateNeeded q).
  { intros q bq q' bq' Hq. apply handleFrame_loop_keeps in Hq.
    destruct Hq as (F & U & _). auto. }
  split; [exact Hloop|].
  unfold handleFrame in H.
  set (p0 := if _insanity (set_skipNext false p)
             then set_insane (procPreRendering (insane (set_skipNext false p)))
                    (set_skipNext false p)
             else set_skipNext false p) in H.
  assert (K0 : keeps_frame p p0) by apply preRendering_keeps.
  destruct (handleFrame_loop fuel frameSize b p0) as [[b1 p1]| |] eqn:El;
    cbn [bind] in H; try discriminate.
  apply handleFrame_loop_keeps in El.
  set (p2 := if _insanity p1
             then let '(ins, px) :=
                    procPostRendering (dst_pixels p1) (_frame p1)
                      (_nbframes p1 - 1) (insane p1) in
                  set_dst_pixels px (set_insane ins p1)
             else p1) in H.
  assert (K2 : keeps_frame p1 p2) by apply postRendering_keeps.
  pose proof (keeps_frame_trans _ _ _ (keeps_frame_trans _ _ _ K0 El) K2) as K.
  destruct K as (F & U & _ & D).
  assert (Hf : _frame p' = to_uint32 (_frame p + 1)).
  { inversion H; subst. simpl.
    destruct (negb (_width p2 =? 0) && negb (_height p2 =? 0)); simpl;
      rewrite F; reflexivity. }
  assert (Hw : _width p' = _width p2 /\ _height p' = _height p2 /\
               _updateNeeded p' =
                 if negb (_width p2 =? 0) && negb (_height p2 =? 0)
                 then true else _updateNeeded p2).
  { inversion H; subst. simpl.
    destruct (negb (_width p2 =? 0) && negb (_height p2 =? 0)); simpl; auto. }
  destruct Hw as (W & Hh & Up). rewrite W, Hh.
  assert (Hyes : _width p2 <> 0 -> _height p2 <> 0 -> _updateNeeded p' = true).
  { intros N1 N2. rewrite Up.
    destruct (_width p2 =? 0) eqn:E1; [lia|].
    destruct (_height p2 =? 0) eqn:E2; [lia|]. reflexivity. }
  repeat split; auto.
  - intros Hr. rewrite Hf. apply to_uint32_id. lia.
  - intros Hz. rewrite Up, <- U.
    destruct (_width p2 =? 0) eqn:E1; [reflexivity|].
    destruct (_height p2 =? 0) eqn:E2; [reflexivity|]. lia.
  - intros Sw Sh Hch.
    destruct D as [D|[[D1 D2]|[D1 D2]]]; [contradiction| |]; apply Hyes; lia.
Qed.

(** ** The cursor after a chunk *)

Lemma land_1_odd (z : Z) : Z.land z 1 = if Z.odd z then 1 else 0.
Proof.
  rewrite <- Zmod_odd. change 1 with (Z.ones 1) at 1.
  rewrite Z.land_ones by lia. reflexivity.
Qed.

Lemma handleFrame_step_pos (fuel : nat) (frameSize : Z) (b : Stream)
    (p : Player) (subType subSize : Z) (b1 : Stream) (frameSize' : Z)
    (b' : Stream) (p' : Player) :
  readChunkHeader b = (subType, subSize, b1) ->
  handleFrame_step fuel frameSize b p = Ok (frameSize', b', p') ->
  pos b' = to_int32 (to_int32 (pos b1) + subSize)
           + (if Z.odd subSize then 1 else 0).
Proof.
  intros Hh H. unfold handleFrame_step in H. rewrite Hh in H.
  destruct (handleSubChunk fuel subType subSize b1 p) as [[b2 p2]| |];
    cbn [bind] in H; try discriminate.
  rewrite land_1_odd in H.
  destruct (Z.odd subSize); simpl in H; inversion H; subst; simpl; lia.
Qed.

Lemma parseNextFrame_pos (fuel : nat) (millis : Z) (p p1 : Player)
    (b : Stream) (subType subSize : Z) (b1 : Stream) (p' : Player) :
  applySeek millis p = Ok p1 -> _base p1 = Some b ->
  readChunkHeader b = (subType, subSize, b1) ->
  pos b1 < to_int32 (_baseSize p1) ->
  parseNextFrame fuel millis p = Ok p' ->
  exists b' : Stream,
    _base p' = Some b' /\ pos b' = to_int32 (to_int32 (pos b1) + subSize).
Proof.
  intros Hs Hb Hh Hsize H. unfold parseNextFrame in H.
  rewrite Hs in H. cbn [bind] in H. rewrite Hb, Hh in H.
  change (_baseSize (set_base (Some b1) p1)) with (_baseSize p1) in H.
  destruct (to_int32 (_baseSize p1) <=? pos b1) eqn:Ee; [lia|].
  match type of H with
  | bind ?m _ = _ => destruct m as [[b2 p2]| |]
  end; cbn [bind] in H; try discriminate.
  inversion H; subst. eexists. split; reflexivity.
Qed.

(** C1 (as amended): when the handling of a chunk returns and the sum of
    payload start and size stays within [int32], the cursor is put at a
    place that does not depend on what the handler read: after a
    sub-chunk of [handleFrame], at payload start + size rounded up to
    even (one pad byte when the size is odd); after a top-level chunk of
    [parseNextFrame], at payload start + size, no pad byte taken. *)
Theorem chunk_cursor_resync (fuel : nat) (b : Stream) (subType subSize : Z)
    (b1 : Stream) :
  readChunkHeader b = (subType, subSize, b1) ->
  is_int32 (pos b1) -> is_int32 (pos b1 + subSize) ->
  (forall (frameSize : Z) (p : Player) (frameSize' : Z) (b' : Stream)
          (p' : Player),
     handleFrame_step fuel frameSize b p = Ok (frameSize', b', p') ->
     pos b' = pos b1 + subSize + (if Z.odd subSize then 1 else 0) /\
     Z.even (pos b' - pos b1) = true /\
     subSize <= pos b' - pos b1 <= subSize + 1) /\
  (forall (millis : Z) (p p1 p' : Player),
     applySeek millis p = Ok p1 -> _base p1 = Some b ->
     pos b1 < to_int32 (_baseSize p1) ->
     parseNextFrame fuel millis p = Ok p' ->
     exists b' : Stream, _base p' = Some b' /\ pos b' = pos b1 + subSize).
Proof.
  intros Hh Hp Hsum. split.
  - intros frameSize p frameSize' b' p' H.
    rewrite (handleFrame_step_pos _ _ _ _ _ _ _ _ _ _ Hh H).
    rewrite (to_int32_id (pos b1)), to_int32_id by assumption.
    split; [reflexivity|].
    destruct (Z.odd subSize) eqn:Eo.
    + split; [|lia].
      replace (pos b1 + subSize + 1 - pos b1) with (Z.succ subSize) by lia.
      rewrite Z.even_succ. exact Eo.
    + split; [|lia].
      replace (pos b1 + subSize + 0 - pos b1) with subSize by lia.
      rewrite <- Z.negb_odd, Eo. reflexivity.
  - intros millis p p1 p' Hs Hb Hsize H.
    destruct (parseNextFrame_pos _ _ _ _ _ _ _ _ _ Hs Hb Hh Hsize H)
      as (b' & Hb' & Hpos).
    exists b'. split; [exact Hb'|].
    rewrite Hpos, (to_int32_id (pos b1)), to_int32_id by assumption.
    reflexivity.
Qed.

(** ** Frames waiting for the display *)

(** [handleFrame] asks for the display of a frame of non-zero size and
    never takes a request back. *)
Lemma handleFrame_request (fuel : nat) (frameSize : Z) (b b' : Stream)
    (p p' : Player) :
  handleFrame fuel frameSize b p = Ok (b', p') ->
  (_width p' <> 0 -> _height p' <> 0 -> _updateNeeded p' = true) /\
  (_updateNeeded p = true -> _updateNeeded p' = true).
Proof.
  intros H. unfold handleFrame in H.
  set (p0 := if _insanity (set_skipNext false p)
             then set_insane (procPreRendering (insane (set_skipNext false p)))
                    (set_skipNext false p)
             else set_skipNext false p) in H.
  assert (K0 : keeps_frame p p0) by apply preRendering_keeps.
  destruct (handleFrame_loop fuel frameSize b p0) as [[b1 p1]| |] eqn:El;
    cbn [bind] in H; try discriminate.
  apply handleFrame_loop_keeps in El.
  set (p2 := if _insanity p1
             then let '(ins, px) :=
                    procPostRendering (dst_pixels p1) (_frame p1)
                      (_nbframes p1 - 1) (insane p1) in
                  set_dst_pixels px (set_insane ins p1)
             else p1) in H.
  assert (K2 : keeps_frame p1 p2) by apply postRendering_keeps.
  pose proof (keeps_frame_trans _ _ _ (keeps_frame_trans _ _ _ K0 El) K2) as K.
  destruct K as (_ & U & _ & _).
  assert (Hw : _width p' = _width p2 /\ _height p' = _height p2 /\
               _updateNeeded p' =
                 if negb (_width p2 =? 0) && negb (_height p2 =? 0)
                 then true else _updateNeeded p2).
  { inversion H; subst. simpl.
    destruct (negb (_width p2 =? 0) && negb (_height p2 =? 0)); simpl; auto. }
  destruct Hw as (W & Hh & Up). rewrite W, Hh, Up, U. split.
  - intros N1 N2.
    destruct (_width p2 =? 0) eqn:E1; [lia|].
    destruct (_height p2 =? 0) eqn:E2; [lia|]. reflexivity.
  - intros ->. destruct (negb _ && negb _); reflexivity.
Qed.

Lemma handleAnimHeader_updateNeeded (subSize : Z) (b b' : Stream)
    (p p' : Player) :
  handleAnimHeader subSize b p = Ok (b', p') ->
  _updateNeeded p' = _updateNeeded p.
Proof.
  unfold handleAnimHeader, assert. intros H.
  destruct (0x300 + 6 <=? subSize); cbn [bind] in H; [|discriminate].
  destruct (readUint16LE b) as [v1 b1]. destruct (readUint16LE b1) as [n b2].
  destruct (readUint16LE b2) as [v3 b3].
  destruct (_skipPalette (set_nbframes n p)); [inversion H; reflexivity|].
  destruct (readPalette _ b3) as [pal b4].
  apply (f_equal (fun r => match r with Ok (_, q) => q | _ => p end)) in H.
  cbv beta iota in H. subst p'.
  destruct (setDirtyColors_keeps 0 255 (set_pal pal (set_nbframes n p)))
    as (_ & U & _).
  rewrite U. reflexivity.
Qed.

Lemma applySeek_updateNeeded (millis : Z) (p p' : Player) :
  applySeek millis p = Ok p' -> _updateNeeded p' = _updateNeeded p.
Proof.
  unfold applySeek. intros H.
  destruct (0 <=? _seekPos p); [|inversion H; reflexivity].
  match type of H with
  | bind ?m _ = _ => destruct m as [p1| |] eqn:Em; cbn [bind] in H;
                     try discriminate
  end.
  assert (K1 : _updateNeeded p1 = _updateNeeded p).
  { destruct (0 <? String.length _)%nat.
    - destruct (openFile _) as [bytes|]; [|discriminate].
      destruct (readUint32BE _) as [v1 b1]. destruct (readUint32BE b1) as [sz b2].
      match type of Em with
      | bind ?m _ = _ => destruct m as [p2| |] eqn:Em2; cbn [bind] in Em;
                         try discriminate
      end.
      inversion Em; subst; clear Em.
      change (_updateNeeded (set_skipPalette false p2)) with (_updateNeeded p2).
      cbn [_seekPos set_baseSize set_base set_smixer] in Em2.
      destruct (0 <? _seekPos p).
      + unfold assert in Em2.
        destruct (8 <? _seekPos p); cbn [bind] in Em2; [|discriminate].
        destruct (readChunkHeader b2) as [[subType subSize] b3].
        destruct (subType =? TAG_AHDR); cbn [bind] in Em2; [|discriminate].
        destruct (handleAnimHeader _ _ _) as [[b4 p4]| |] eqn:Eh;
          cbn [bind] in Em2; try discriminate.
        apply handleAnimHeader_updateNeeded in Eh. inversion Em2; subst.
        exact Eh.
      + unfold tryCmpFile, assert in Em2.
        destruct (has_dot _); cbn [bind] in Em2; [|discriminate].
        destruct (compressedFileOpens _); inversion Em2; subst; reflexivity.
    - inversion Em; subst. reflexivity. }
  destruct (_base p1); [|discriminate]. inversion H; subst. exact K1.
Qed.

(** What [parseNextFrame] does to the display request: it never takes
    one back, and a Frame chunk that leaves a non-zero frame size leaves
    a request. *)
Lemma parseNextFrame_request (fuel : nat) (millis : Z) (p p' : Player) :
  parseNextFrame fuel millis p = Ok p' ->
  (_updateNeeded p = true -> _updateNeeded p' = true) /\
  (forall (p0 : Player) (b : Stream) (subSize : Z) (b1 : Stream),
     applySeek millis p = Ok p0 -> _base p0 = Some b ->
     readChunkHeader b = (TAG_FRME, subSize, b1) ->
     pos b1 < to_int32 (_baseSize p0) ->
     _width p' <> 0 -> _height p' <> 0 -> _updateNeeded p' = true).
Proof.
  unfold parseNextFrame. intros H.
  destruct (applySeek millis p) as [p1| |] eqn:Es; cbn [bind] in H;
    try discriminate.
  pose proof (applySeek_updateNeeded _ _ _ Es) as Us.
  destruct (_base p1) as [b|] eqn:Eb; [|discriminate].
  destruct (readChunkHeader b) as [[subType subSize] b1] eqn:Eh.
  change (_baseSize (set_base (Some b1) p1)) with (_baseSize p1) in H.
  destruct (to_int32 (_baseSize p1) <=? pos b1) eqn:Ee.
  { inversion H; subst. split; [intros Hp; simpl; congruence|].
    intros p0 b0 subSize0 b2 Hs0 Hb0 Hh0 Hlt.
    inversion Hs0; subst p0. rewrite Eb in Hb0. inversion Hb0; subst b0.
    rewrite Eh in Hh0. inversion Hh0; subst. lia. }
  match type of H with
  | bind ?m _ = _ => destruct m as [[b2 p2]| |] eqn:Em; cbn [bind] in H;
                     try discriminate
  end.
  inversion H; subst; clear H.
  change (_updateNeeded (diMUSE FlushTracks (set_base _ p2)))
    with (_updateNeeded p2).
  change (_width (diMUSE FlushTracks (set_base _ p2))) with (_width p2).
  change (_height (diMUSE FlushTracks (set_base _ p2))) with (_height p2).
  destruct (subType =? TAG_AHDR) eqn:Ea.
  - apply handleAnimHeader_updateNeeded in Em.
    change (_updateNeeded (set_base (Some b1) p1)) with (_updateNeeded p1) in Em.
    split; [intros Hp; congruence|].
    intros p0 b0 subSize0 b3 Hs0 Hb0 Hh0 Hlt.
    inversion Hs0; subst p0. rewrite Eb in Hb0. inversion Hb0; subst b0.
    rewrite Eh in Hh0. inversion Hh0; subst. discriminate Ea.
  - destruct (subType =? TAG_FRME); [|discriminate].
    apply handleFrame_request in Em. destruct Em as [Hreq Hkeep].
    change (_updateNeeded (set_base (Some b1) p1)) with (_updateNeeded p1)
      in Hkeep.
    split; [intros Hp; apply Hkeep; congruence|].
    intros p0 b0 subSize0 b3 _ _ _ _. exact Hreq.
Qed.

(** The decode half of a turn: a frame that was due is the work of
    [parseNextFrame], otherwise the player is left alone. *)
Lemma tick_decode_due (fuel : nat) (i : TickInput) (p p1 : Player)
    (skipFrame due : bool) :
  tick_decode fuel i p = Ok (p1, skipFrame, due) ->
  (due = true -> parseNextFrame fuel (in_millis_seek i) p = Ok p1) /\
  (due = false -> p1 = p).
Proof.
  unfold tick_decode, timerCallback. intros H.
  destruct (udiv32 _ _) as [d| |]; cbn [bind] in H; try discriminate.
  destruct (d <=? elapsedTime i p).
  - destruct (udiv32 _ _) as [nx| |]; cbn [bind] in H; try discriminate.
    destruct (parseNextFrame fuel (in_millis_seek i) p) as [q| |];
      cbn [bind] in H; try discriminate.
    inversion H; subst. split; [reflexivity|discriminate].
  - inversion H; subst. split; [discriminate|reflexivity].
Qed.

Lemma tick_decode_pending (fuel : nat) (i : TickInput) (p p1 : Player)
    (skipFrame due : bool) :
  tick_decode fuel i p = Ok (p1, skipFrame, due) ->
  _updateNeeded p = true -> _updateNeeded p1 = true.
Proof.
  intros H Hp. destruct (tick_decode_due _ _ _ _ _ _ H) as [Hdue Hnot].
  destruct due.
  - destruct (parseNextFrame_request _ _ _ _ (Hdue eq_refl)) as [Hk _]. auto.
  - rewrite (Hnot eq_refl). exact Hp.
Qed.

(** In a run, a frame waiting at the start is reported by the first
    turn, and a frame waiting in a turn that does not push it is still
    waiting in the next turn. *)
Lemma play_loop_pending (fuel : nat) (inputs : list TickInput) :
  forall (skipped : Z) (p : Player),
    (_updateNeeded p = true ->
     forall (o : TickOut) (rest : list TickOut),
       fst (play_loop fuel inputs skipped p) = o :: rest ->
       o_updateNeeded o = true) /\
    (forall (pre : list TickOut) (o1 o2 : TickOut) (post : list TickOut),
       fst (play_loop fuel inputs skipped p) = pre ++ o1 :: o2 :: post ->
       o_updateNeeded o1 = true -> o_blit o1 = None ->
       o_updateNeeded o2 = true).
Proof.
  induction inputs as [|i inputs IH]; intros skipped p.
  - split; [intros _ o rest Heq; discriminate Heq|].
    intros [|x pre] o1 o2 post Heq; discriminate Heq.
  - rewrite play_loop_cons.
    destruct (tick_decode fuel i p) as [[[p1 sf] due]|msg|] eqn:Ed;
      try (split; [intros _ o rest Heq; discriminate Heq|];
           intros [|x pre] o1 o2 post Heq; discriminate Heq).
    pose proof (tick_decode_pending _ _ _ _ _ _ Ed) as Hkeep.
    pose proof (tick_present_blit due sf skipped p1) as Hb.
    pose proof (tick_present_push due sf skipped p1) as Hpush.
    destruct (tick_present due sf skipped p1) as [[p2 sk2] out].
    destruct Hb as (Hu & _). destruct Hpush as (_ & _ & Hstay).
    assert (Hone : forall (r : Res Player),
              (_updateNeeded p = true ->
               forall o rest, fst ([out], r) = o :: rest ->
                              o_updateNeeded o = true) /\
              (forall pre o1 o2 post,
                 fst ([out], r) = pre ++ o1 :: o2 :: post ->
                 o_updateNeeded o1 = true -> o_blit o1 = None ->
                 o_updateNeeded o2 = true)).
    { intros r. split.
      - intros Hp o rest Heq. inversion Heq; subst. rewrite Hu. auto.
      - intros [|x [|y pre]] o1 o2 post Heq; discriminate Heq. }
    destruct (_endOfFile p2); [apply Hone|].
    destruct (in_quit i || _smushVideoShouldFinish p2); [apply Hone|].
    specialize (IH sk2 p2). destruct IH as [IHhead IHadj].
    destruct (play_loop fuel inputs sk2 p2) as [outs r]. cbn [fst] in *.
    split.
    + intros Hp o rest Heq. inversion Heq; subst. rewrite Hu. auto.
    + intros [|x pre] o1 o2 post Heq Hw Hn.
      * inversion Heq; subst.
        apply (IHhead (eq_trans (Hstay Hn) (eq_trans (eq_sym Hu) Hw)) o2 post).
        reflexivity.
      * inversion Heq; subst. eapply IHadj; eauto.
Qed.

(** A frame waiting at the head of a stretch of turns is pushed within
    the stretch, if the stretch has a turn that is not skipped. *)
Lemma pending_window_blit (win : list TickOut) :
  (forall (pre : list TickOut) (o1 o2 : TickOut) (post : list TickOut),
     win = pre ++ o1 :: o2 :: post ->
     o_updateNeeded o1 = true -> o_blit o1 = None -> o_updateNeeded o2 = true) ->
  (forall o : TickOut, o ∈ win ->
     o_updateNeeded o = true -> o_skipFrame o = false -> is_Some (o_blit o)) ->
  (exists o : TickOut, o ∈ win /\ o_skipFrame o = false) ->
  (forall (o : TickOut) (rest : list TickOut),
     win = o :: rest -> o_updateNeeded o = true) ->
  exists o : TickOut, o ∈ win /\ is_Some (o_blit o).
Proof.
  induction win as [|o win IH]; intros Hadj Hblit (x & Hin & Hx) Hhead.
  - inversion Hin.
  - pose proof (Hhead o win eq_refl) as Hw.
    destruct (o_blit o) as [r|] eqn:Eb.
    { exists o. split; [left|]. rewrite Eb. eexists; reflexivity. }
    destruct (o_skipFrame o) eqn:Es.
    2:{ destruct (Hblit o ltac:(left) Hw Es) as [r Hr]. congruence. }
    assert (Hin' : x ∈ win).
    { apply elem_of_cons in Hin as [->|Hin]; [congruence|exact Hin]. }
    destruct IH as (o' & Ho' & Hb').
    + intros pre o1 o2 post Heq. apply (Hadj (o :: pre) o1 o2 post).
      rewrite Heq. reflexivity.
    + intros o' Ho'. apply Hblit. right. exact Ho'.
    + exists x. split; assumption.
    + intros o2 rest Heq. subst win.
      apply (Hadj [] o o2 rest eq_refl Hw Eb).
    + exists o'. split; [right; exact Ho'|exact Hb'].
Qed.

(** Every 11 turns in a row of a run of the loop that start with a frame
    waiting push a frame. *)
Lemma play_loop_window (fuel : nat) (inputs : list TickInput) (skipped : Z)
    (p : Player) (pre win post : list TickOut) :
  0 <= skipped <= 10 ->
  fst (play_loop fuel inputs skipped p) = pre ++ win ++ post ->
  length win = 11%nat ->
  (forall (o : TickOut) (rest : list TickOut),
     win = o :: rest -> o_updateNeeded o = true) ->
  exists o : TickOut, o ∈ win /\ is_Some (o_blit o).
Proof.
  intros Hs Heq Hlen Hhead.
  destruct (play_loop_pending fuel inputs skipped p) as [_ Hadj].
  apply pending_window_blit; [| | |exact Hhead].
  - intros pre' o1 o2 post' Hw. apply (Hadj (pre ++ pre') o1 o2 (post' ++ post)).
    rewrite Heq, Hw. rewrite <- !app_assoc. reflexivity.
  - intros o Hin.
    assert (HF : Forall (fun o => o_updateNeeded o = true ->
                           o_skipFrame o = false -> is_Some (o_blit o))
                   (fst (play_loop fuel inputs skipped p))).
    { apply play_loop_Forall. intros due sf sk r.
      pose proof (tick_present_blit due sf sk r) as Hb.
      destruct (tick_present due sf sk r) as [[r' sk'] out]. simpl.
      destruct Hb as (_ & Hb & _). intros H1 H2.
      destruct (Hb H1 H2) as [-> _]. eexists; reflexivity. }
    rewrite Forall_forall in HF. apply HF. rewrite Heq.
    apply elem_of_app. right. apply elem_of_app. left. exact Hin.
  - destruct (play_loop_skips fuel inputs skipped p Hs) as [_ Hsuf].
    specialize (Hsuf pre (win ++ post) Heq).
    destruct (leading_skips_window win post) as [Hrun|Hex]; [lia|exact Hex].
Qed.

(** C4: in a run of [play], no 11 turns in a row have their display
    skipped, and a turn that is not skipped blits the waiting frame; a
    frame waiting in a turn that does not blit is still waiting in the
    next turn, so that of any 11 turns in a row that start with a frame
    waiting one blits. A turn that decodes a Frame chunk and is left
    with a non-zero frame size has a frame waiting ([handleFrame] has
    asked for the display), reports it, and the run blits within the 11
    turns from that one on, if it lasts as long. In any turn, once 10 turns
    in a row have been skipped the skip flag is cleared and the counter
    goes back to 0, and when the palette dirty range is not empty
    ([_palDirtyMax >= _palDirtyMin]) the skip flag is cleared, so the
    frame waiting in that turn is blitted. *)
Theorem play_skip_bound (fuel : nat) (inputs : list TickInput)
    (filename : string) (speed offset startFrame millis : Z) (p : Player) :
  let outs := fst (play fuel inputs filename speed offset startFrame millis p) in
  (forall pre win post : list TickOut,
     outs = pre ++ win ++ post -> length win = 11%nat ->
     exists o, o ∈ win /\ o_skipFrame o = false) /\
  (forall o, o ∈ outs ->
     o_updateNeeded o = true -> o_skipFrame o = false -> is_Some (o_blit o)) /\
  (forall (due skipFrame : bool) (skipped : Z) (q : Player),
     let '(q', skipped', out) := tick_present due skipFrame skipped q in
     (skipFrame = true -> skipped = 10 ->
      o_skipFrame out = false /\ skipped' = 0 /\
      (_updateNeeded q = true -> is_Some (o_blit out))) /\
     (_palDirtyMin q <= _palDirtyMax q ->
      o_skipFrame out = false /\
      (_updateNeeded q = true -> is_Some (o_blit out)))) /\
  (forall (pre : list TickOut) (o1 o2 : TickOut) (post : list TickOut),
     outs = pre ++ o1 :: o2 :: post ->
     o_updateNeeded o1 = true -> o_blit o1 = None ->
     o_updateNeeded o2 = true) /\
  (forall pre win post : list TickOut,
     outs = pre ++ win ++ post -> length win = 11%nat ->
     (forall (o : TickOut) (rest : list TickOut),
        win = o :: rest -> o_updateNeeded o = true) ->
     exists o, o ∈ win /\ is_Some (o_blit o)) /\
  (forall (i : TickInput) (rest : list TickInput) (skipped : Z)
          (q q0 q1 : Player) (skipFrame : bool)
          (b : Stream) (subSize : Z) (b1 : Stream),
     0 <= skipped <= 10 ->
     tick_decode fuel i q = Ok (q1, skipFrame, true) ->
     applySeek (in_millis_seek i) q = Ok q0 -> _base q0 = Some b ->
     readChunkHeader b = (TAG_FRME, subSize, b1) ->
     pos b1 < to_int32 (_baseSize q0) ->
     _width q1 <> 0 -> _height q1 <> 0 ->
     _updateNeeded q1 = true /\
     (exists (o : TickOut) (later : list TickOut),
        fst (play_loop fuel (i :: rest) skipped q) = o :: later /\
        o_updateNeeded o = true) /\
     ((11 <= length (fst (play_loop fuel (i :: rest) skipped q)))%nat ->
      exists o : TickOut,
        o ∈ take 11 (fst (play_loop fuel (i :: rest) skipped q)) /\
        is_Some (o_blit o))).
Proof.
  cbv zeta. split; [|split; [|split; [|split; [|split]]]].
  - intros pre win post Heq Hlen.
    destruct (play_outs fuel inputs filename speed offset startFrame millis p)
      as [Hnil|[q Hq]].
    + rewrite Hnil in Heq. symmetry in Heq.
      apply app_eq_nil in Heq as [_ Heq]. apply app_eq_nil in Heq as [-> _].
      discriminate.
    + rewrite Hq in Heq.
      destruct (play_loop_skips fuel inputs 0 q ltac:(lia)) as [_ Hsuf].
      specialize (Hsuf pre (win ++ post) Heq).
      destruct (leading_skips_window win post) as [Hrun|Hex]; [lia|exact Hex].
  - intros o Hin Hu Hs.
    assert (HF : Forall (fun o => o_updateNeeded o = true ->
                           o_skipFrame o = false -> is_Some (o_blit o))
                   (fst (play fuel inputs filename speed offset startFrame millis p))).
    { destruct (play_outs fuel inputs filename speed offset startFrame millis p)
        as [Hnil|[q Hq]]; [rewrite Hnil; constructor|].
      rewrite Hq. apply play_loop_Forall.
      intros due sf sk r.
      pose proof (tick_present_blit due sf sk r) as Hb.
      destruct (tick_present due sf sk r) as [[r' sk'] out]. simpl.
      destruct Hb as (_ & Hb & _). intros H1 H2.
      destruct (Hb H1 H2) as [-> _]. eexists; reflexivity. }
    rewrite Forall_forall in HF. apply HF; auto.
  - intros due skipFrame skipped q.
    pose proof (tick_present_blit due skipFrame skipped q) as Hb.
    destruct (Z_le_dec 0 skipped) as [H0|H0];
      [destruct (Z_le_dec skipped 10) as [H10|H10]|].
    + pose proof (tick_present_counter due skipFrame skipped q ltac:(lia)) as Hc.
      destruct (tick_present due skipFrame skipped q) as [[q' sk'] out].
      destruct Hb as (Hu & Hb & _).
      destruct Hc as (_ & _ & Hz & Hforce & _ & Hdirty).
      split.
      * intros Hsf Hten. pose proof (Hforce Hsf Hten) as Ho.
        repeat split; auto.
        intros Hq. rewrite <- Hu in Hq. destruct (Hb Hq Ho) as [-> _].
        eexists; reflexivity.
      * intros Hd. pose proof (Hdirty Hd) as Ho. split; auto.
        intros Hq. rewrite <- Hu in Hq. destruct (Hb Hq Ho) as [-> _].
        eexists; reflexivity.
    + assert (Hd : forall sf, _palDirtyMin q <= _palDirtyMax q ->
                o_skipFrame (snd (tick_present due sf skipped q)) = false).
      { intros sf Hle. unfold tick_present.
        destruct (_palDirtyMin q <=? _palDirtyMax q) eqn:Ed; [|lia].
        cbv iota. destruct (_updateNeeded _ && negb false); reflexivity. }
      specialize (Hd skipFrame).
      destruct (tick_present due skipFrame skipped q) as [[q' sk'] out].
      simpl in Hd. destruct Hb as (Hu & Hb & _).
      split; [intros; lia|].
      intros Hle. split; auto.
      intros Hq. rewrite <- Hu in Hq. destruct (Hb Hq (Hd Hle)) as [-> _].
      eexists; reflexivity.
    + assert (Hd : forall sf, _palDirtyMin q <= _palDirtyMax q ->
                o_skipFrame (snd (tick_present due sf skipped q)) = false).
      { intros sf Hle. unfold tick_present.
        destruct (_palDirtyMin q <=? _palDirtyMax q) eqn:Ed; [|lia].
        cbv iota. destruct (_updateNeeded _ && negb false); reflexivity. }
      specialize (Hd skipFrame).
      destruct (tick_present due skipFrame skipped q) as [[q' sk'] out].
      simpl in Hd. destruct Hb as (Hu & Hb & _).
      split; [intros; lia|].
      intros Hle. split; auto.
      intros Hq. rewrite <- Hu in Hq. destruct (Hb Hq (Hd Hle)) as [-> _].
      eexists; reflexivity.
  - intros pre o1 o2 post Heq.
    destruct (play_outs fuel inputs filename speed offset startFrame millis p)
      as [Hnil|[q Hq]].
    + rewrite Hnil in Heq. destruct pre; discriminate Heq.
    + rewrite Hq in Heq.
      destruct (play_loop_pending fuel inputs 0 q) as [_ Hadj].
      apply (Hadj pre o1 o2 post Heq).
  - intros pre win post Heq Hlen Hhead.
    destruct (play_outs fuel inputs filename speed offset startFrame millis p)
      as [Hnil|[q Hq]].
    + rewrite Hnil in Heq. symmetry in Heq.
      apply app_eq_nil in Heq as [_ Heq]. apply app_eq_nil in Heq as [-> _].
      discriminate.
    + rewrite Hq in Heq.
      apply (play_loop_window fuel inputs 0 q pre win post); auto. lia.
  - intros i rest skipped q q0 q1 skipFrame b subSize b1
      Hs Hd Hseek Hbase Hh Hlt Hw Hht.
    destruct (tick_decode_due _ _ _ _ _ _ Hd) as [Hdue _].
    destruct (parseNextFrame_request _ _ _ _ (Hdue eq_refl)) as [_ Hreq].
    pose proof (Hreq q0 b subSize b1 Hseek Hbase Hh Hlt Hw Hht) as Hneed.
    assert (Hfirst : exists (o : TickOut) (later : list TickOut),
              fst (play_loop fuel (i :: rest) skipped q) = o :: later /\
              o_updateNeeded o = true).
    { rewrite play_loop_cons, Hd.
      pose proof (tick_present_blit true skipFrame skipped q1) as Hb.
      destruct (tick_present true skipFrame skipped q1) as [[q2 sk2] out].
      destruct Hb as (Hu & _).
      destruct (_endOfFile q2);
        [eexists _, _; split; [reflexivity|congruence]|].
      destruct (in_quit i || _smushVideoShouldFinish q2);
        [eexists _, _; split; [reflexivity|congruence]|].
      destruct (play_loop fuel rest sk2 q2) as [outs' r].
      eexists _, _; split; [reflexivity|congruence]. }
    split; [exact Hneed|]. split; [exact Hfirst|].
    intros Hlen. destruct Hfirst as (o & later & Heq & Hpend).
    apply (play_loop_window fuel (i :: rest) skipped q []
             (take 11 (fst (play_loop fuel (i :: rest) skipped q)))
             (drop 11 (fst (play_loop fuel (i :: rest) skipped q)))).
    + exact Hs.
    + cbn [app]. symmetry. apply take_drop.
    + rewrite length_take. lia.
    + intros o' rest' Hwin. rewrite Heq in Hwin. cbn [take] in Hwin.
      inversion Hwin; subst. exact Hpend.
Qed.


(** ** The iteration budget

    A result reached within some budget is the result for every larger
    one: the budget only decides whether the model gets to the end. *)

Lemma findStreamingSound_mono (calls : list IMuseCall) (bufId : Z) :
  forall (fuel fuel' : nat) (cur r : Z),
    findStreamingSound fuel calls bufId cur = Ok r -> (fuel <= fuel')%nat ->
    findStreamingSound fuel' calls bufId cur = Ok r.
Proof.
  induction fuel as [|fuel IH]; intros fuel' cur r H Hle; [discriminate|].
  destruct fuel' as [|fuel']; [lia|]. simpl in *.
  destruct (diMUSEGetNextSound calls cur =? 0); [exact H|].
  destruct (negb _ || negb _); [|exact H].
  apply IH; [exact H|lia].
Qed.

Lemma handleIACT_DIG_mono (fuel fuel' : nat)
    (subSize userId index nbframes bsize : Z) (b : Stream) (p : Player)
    (r : Stream * Player) :
  handleIACT_DIG fuel subSize userId index nbframes bsize b p = Ok r ->
  (fuel <= fuel')%nat ->
  handleIACT_DIG fuel' subSize userId index nbframes bsize b p = Ok r.
Proof.
  unfold handleIACT_DIG. intros H Hle.
  destruct (read bsize b) as [data b1].
  destruct (iactBuffer userId) as [[bufId volume]| |]; cbn [bind] in *;
    try discriminate.
  destruct (if index =? 0 then Ok 0 else iactTable_get bufId p) as [last| |];
    cbn [bind] in *; try discriminate.
  destruct (negb (index =? 0) && negb (last - index =? -1)); [exact H|].
  destruct (iactTable_set bufId index p) as [p1| |]; cbn [bind] in *;
    try discriminate.
  destruct (negb (index =? 0)); [exact H|].
  destruct (negb (READ_BE_UINT32 data 0 =? TAG_iMUS)); [exact H|].
  destruct (findStreamingSound fuel (imuse p1) bufId 0) as [cur| |] eqn:Ef;
    cbn [bind] in H; try discriminate.
  rewrite (findStreamingSound_mono _ _ _ _ _ _ Ef Hle). exact H.
Qed.

Lemma handleIACT_mono (fuel fuel' : nat) (subSize : Z) (b : Stream)
    (p : Player) (r : Stream * Player) :
  handleIACT fuel subSize b p = Ok r -> (fuel <= fuel')%nat ->
  handleIACT fuel' subSize b p = Ok r.
Proof.
  unfold handleIACT. intros H Hle.
  destruct (assert (8 <=? subSize) _); cbn [bind] in *; try discriminate.
  repeat match goal with
         | H : context [let '(_, _) := ?x in _] |- _ => destruct x
         end.
  destruct (negb _ && negb _); [exact H|].
  destruct (_compressedFileMode p); [exact H|].
  destruct (assert _ _); cbn [bind] in *; try discriminate.
  repeat match goal with
         | H : context [let '(_, _) := ?x in _] |- _ => destruct x
         end.
  destruct game_id; [exact H| |exact H|exact H].
  destruct (negb game_demo); [|exact H].
  eapply handleIACT_DIG_mono; eauto.
Qed.

Lemma handleSubChunk_mono (fuel fuel' : nat) (subType subSize : Z)
    (b : Stream) (p : Player) (r : Stream * Player) :
  handleSubChunk fuel subType subSize b p = Ok r -> (fuel <= fuel')%nat ->
  handleSubChunk fuel' subType subSize b p = Ok r.
Proof.
  unfold handleSubChunk. intros H Hle.
  destruct (subType =? TAG_NPAL); [exact H|].
  destruct (subType =? TAG_FOBJ); [exact H|].
  destruct (USE_ZLIB && (subType =? TAG_ZFOB)); [exact H|].
  destruct (subType =? TAG_PSAD); [exact H|].
  destruct (subType =? TAG_TRES); [exact H|].
  destruct (subType =? TAG_XPAL); [exact H|].
  destruct (subType =? TAG_IACT); [|exact H].
  eapply handleIACT_mono; eauto.
Qed.

Lemma handleFrame_step_mono (fuel fuel' : nat) (frameSize : Z) (b : Stream)
    (p : Player) (r : Z * Stream * Player) :
  handleFrame_step fuel frameSize b p = Ok r -> (fuel <= fuel')%nat ->
  handleFrame_step fuel' frameSize b p = Ok r.
Proof.
  unfold handleFrame_step. intros H Hle.
  destruct (readChunkHeader b) as [[subType subSize] b1].
  destruct (handleSubChunk fuel subType subSize b1 p) as [r1| |] eqn:Eh;
    cbn [bind] in H; try discriminate.
  rewrite (handleSubChunk_mono _ _ _ _ _ _ _ Eh Hle). exact H.
Qed.

Lemma handleFrame_loop_mono :
  forall (fuel fuel' : nat) (frameSize : Z) (b : Stream) (p : Player)
         (r : Stream * Player),
    handleFrame_loop fuel frameSize b p = Ok r -> (fuel <= fuel')%nat ->
    handleFrame_loop fuel' frameSize b p = Ok r.
Proof.
  induction fuel as [|fuel IH]; intros fuel' frameSize b p r H Hle.
  - simpl in H. destruct (0 <? frameSize) eqn:E0; [discriminate|].
    destruct fuel'; simpl; rewrite E0; exact H.
  - destruct fuel' as [|fuel']; [lia|]. simpl in *.
    destruct (0 <? frameSize); [|exact H].
    destruct (handleFrame_step fuel frameSize b p) as [[[fs1 b1] p1]| |] eqn:Es;
      cbn [bind] in H; try discriminate.
    rewrite (handleFrame_step_mono fuel fuel' _ _ _ _ Es) by lia.
    cbn [bind]. apply IH; [exact H|lia].
Qed.

Lemma handleFrame_mono (fuel fuel' : nat) (frameSize : Z) (b : Stream)
    (p : Player) (r : Stream * Player) :
  handleFrame fuel frameSize b p = Ok r -> (fuel <= fuel')%nat ->
  handleFrame fuel' frameSize b p = Ok r.
Proof.
  unfold handleFrame. intros H Hle.
  match type of H with
  | bind (handleFrame_loop fuel frameSize b ?q) _ = _ =>
      destruct (handleFrame_loop fuel frameSize b q) as [r1| |] eqn:El;
      cbn [bind] in H; try discriminate;
      rewrite (handleFrame_loop_mono _ _ _ _ _ _ El Hle)
  end.
  exact H.
Qed.

Lemma parseNextFrame_mono (fuel fuel' : nat) (millis : Z) (p p' : Player) :
  parseNextFrame fuel millis p = Ok p' -> (fuel <= fuel')%nat ->
  parseNextFrame fuel' millis p = Ok p'.
Proof.
  unfold parseNextFrame. intros H Hle.
  destruct (applySeek millis p) as [p1| |]; cbn [bind] in *; try discriminate.
  destruct (_base p1) as [b|]; [|exact H].
  destruct (readChunkHeader b) as [[subType subSize] b1].
  destruct (_ <=? pos b1); [exact H|].
  destruct (subType =? TAG_AHDR); [exact H|].
  destruct (subType =? TAG_FRME); [|exact H].
  match type of H with
  | bind (handleFrame fuel ?s ?bb ?q) _ = _ =>
      destruct (handleFrame fuel s bb q) as [r1| |] eqn:Ef;
      cbn [bind] in H; try discriminate;
      rewrite (handleFrame_mono _ _ _ _ _ _ Ef Hle)
  end.
  exact H.
Qed.

End Properties.

(** * The properties at work on concrete players *)

Lemma Forall_repeat {A : Type} (P : A -> Prop) (x : A) (n : nat) :
  P x -> Forall P (repeat x n).
Proof. intros Hx. induction n; simpl; constructor; auto. Qed.

(** ** The cursor after a chunk *)

(** A header chunk of 775 bytes at the top level: the payload starts at 8
    and the cursor ends at 783, not at the even 784. *)
Lemma top_level_odd_chunk_no_pad :
  exists (p' : @Player engineTiny) (b' : Stream),
    readChunkHeader oddHeaderStream
      = (TAG_AHDR, 775, mkStream (s_bytes oddHeaderStream) 8) /\
    @parseNextFrame engineTiny 0 0 oddHeaderPlayer = Ok p' /\
    _base p' = Some b' /\
    pos b' = 8 + 775 /\ pos b' <> 8 + 776.
Proof.
  destruct (@parseNextFrame engineTiny 0 0 oddHeaderPlayer) as [p'| |] eqn:Hrun;
    [|vm_compute in Hrun; discriminate ..].
  exists p', (mkStream (s_bytes oddHeaderStream) 783).
  assert (Hb : _base p' = Some (mkStream (s_bytes oddHeaderStream) 783)).
  { transitivity (match @parseNextFrame engineTiny 0 0 oddHeaderPlayer with
                  | Ok q => _base q
                  | _ => None
                  end); [rewrite Hrun; reflexivity|vm_compute; reflexivity]. }
  split; [vm_compute; reflexivity|]. split; [reflexivity|].
  split; [exact Hb|]. split; [reflexivity|]. simpl; lia.
Qed.

Lemma chunk_cursor_resync_witness :
  exists (frameSize' : Z) (b' : Stream) (p' : @Player engineTiny),
    @handleFrame_step engineTiny 1 14 storStream playerTiny
      = Ok (frameSize', b', p') /\
    pos b' = 14.
Proof.
  destruct (@chunk_cursor_resync engineTiny 1 storStream TAG_STOR 5
              (mkStream (s_bytes storStream) 8) eq_refl) as [Hsub _].
  - unfold is_int32; simpl; lia.
  - unfold is_int32; simpl; lia.
  - destruct (@handleFrame_step engineTiny 1 14 storStream playerTiny)
      as [[[fs' b'] p']| |] eqn:Hrun; [|vm_compute in Hrun; discriminate ..].
    exists fs', b', p'. split; [reflexivity|].
    destruct (Hsub 14 playerTiny fs' b' p' Hrun) as [Hpos _].
    rewrite Hpos. reflexivity.
Defined.

(** ** The palette *)

(** A palette byte of 128 under an all-zero delta table becomes 129. *)
Lemma zero_delta_changes_palette :
  Forall (fun d => d = 0) (_deltaPal greyPlayer) /\
  exists (b' : Stream) (p' : @Player engineTiny),
    @handleDeltaPalette engineTiny 6 (mkStream [0; 0; 0; 0; 0; 0] 0) greyPlayer
      = Ok (b', p') /\
    _pal greyPlayer !! 0%nat = Some 128 /\
    _pal p' !! 0%nat = Some 129 /\
    _pal p' <> _pal greyPlayer.
Proof.
  split; [apply Forall_repeat; reflexivity|].
  destruct (@handleDeltaPalette engineTiny 6 (mkStream [0; 0; 0; 0; 0; 0] 0)
              greyPlayer) as [[b' p']| |] eqn:Hrun;
    [|vm_compute in Hrun; discriminate ..].
  exists b', p'. split; [reflexivity|]. split; [reflexivity|].
  assert (H0 : _pal p' !! 0%nat = Some 129).
  { transitivity (match @handleDeltaPalette engineTiny 6
                          (mkStream [0; 0; 0; 0; 0; 0] 0) greyPlayer with
                  | Ok (_, q) => _pal q !! 0%nat
                  | _ => None
                  end); [rewrite Hrun; reflexivity|vm_compute; reflexivity]. }
  split; [exact H0|].
  intros Heq. rewrite Heq in H0. vm_compute in H0. discriminate.
Qed.

Lemma handleDeltaPalette_zero_delta_witness :
  exists (b' : Stream) (p' : @Player engineTiny),
    @handleDeltaPalette engineTiny 6 (mkStream [0; 0; 0; 0; 0; 0] 0) greyPlayer
      = Ok (b', p') /\
    _pal p' !! 3%nat = Some 129.
Proof.
  destruct (@handleDeltaPalette_zero_delta engineTiny
              (mkStream [0; 0; 0; 0; 0; 0] 0) greyPlayer)
    as (b' & p' & Hrun & _ & Hval).
  - reflexivity.
  - reflexivity.
  - apply Forall_repeat. unfold is_byte; lia.
  - apply Forall_repeat. reflexivity.
  - exists b', p'. split; [exact Hrun|].
    apply (Hval 3%nat 128). reflexivity.
Defined.


Lemma handleDeltaPalette_lengths_witness :
  (exists p' : @Player engineTiny,
     @handleDeltaPalette engineTiny 2308 xpalStream playerTiny
       = Ok (skip 2308 xpalStream, p') /\
     _deltaPal p' !! 767%nat = Some (-2) /\ _pal p' !! 767%nat = Some 7) /\
  (exists (b' : Stream) (p' : @Player engineTiny),
     @handleDeltaPalette engineTiny 6 xpalStream rampPlayer = Ok (b', p') /\
     _pal p' !! 5%nat = Some 131) /\
  (exists msg : string,
     @handleDeltaPalette engineTiny 7 xpalStream playerTiny = Fatal msg).
Proof.
  destruct (@handleDeltaPalette_lengths engineTiny 2308 xpalStream playerTiny
              eq_refl eq_refl) as (Hset & _ & _).
  destruct (@handleDeltaPalette_lengths engineTiny 6 xpalStream rampPlayer
              eq_refl eq_refl) as (_ & Happly & _).
  destruct (@handleDeltaPalette_lengths engineTiny 7 xpalStream playerTiny
              eq_refl eq_refl) as (_ & _ & Hbad).
  split; [|split].
  - destruct Hset as (p' & Hrun & Hd & Hp & _).
    + reflexivity.
    + simpl; lia.
    + vm_compute; discriminate.
    + exists p'. split; [exact Hrun|].
      split; [rewrite Hd by lia|rewrite Hp by lia]; vm_compute; reflexivity.
  - destruct (Happly eq_refl) as (b' & p' & Hrun & _ & _ & Hval & _).
    exists b', p'. split; [exact Hrun|].
    rewrite (Hval 5%nat 128 256 eq_refl eq_refl). reflexivity.
  - apply Hbad; lia.
Defined.

(** ** Out-of-order audio blocks *)

(** In middle-audio mode a first block of index 5 on a fresh track is
    appended and nothing is logged. *)
Lemma middle_audio_block_not_logged :
  5 <> 0 /\
  _smixer midAudioPlayer !! 1 = None /\
  5 <> ch_index (newSaudChannel 1) + 1 /\
  debuglog midAudioPlayer = [] /\
  debuglog (snd (@handleSoundBuffer engineDIG 1 5 10 0 127 0 audioStream 4
                   midAudioPlayer)) = [] /\
  (ch_data <$> _smixer (snd (@handleSoundBuffer engineDIG 1 5 10 0 127 0
                               audioStream 4 midAudioPlayer)) !! 1)
    = Some [1; 2; 3; 4].
Proof.
  split; [lia|]. split; [reflexivity|]. split; [simpl; lia|].
  split; [reflexivity|]. split; vm_compute; reflexivity.
Qed.

Lemma audio_out_of_order_witness :
  debuglog (snd (@handleSoundBuffer engineDIG 1 5 10 0 127 0 audioStream 4
                   playerDIG)) = [MSG_INDEX] /\
  exists p' : @Player engineDIG,
    @handleIACT_DIG engineDIG 0 22 1 5 10 4 audioStream playerDIG
      = Ok (snd (read 4 audioStream), p') /\
    imuse p' = [].
Proof.
  destruct (@audio_out_of_order engineDIG 5 ltac:(lia)) as [Hgen Hdig].
  split.
  - specialize (Hgen 1 10 0 127 0 4 audioStream playerDIG).
    cbv zeta in Hgen.
    destruct (@handleSoundBuffer engineDIG 1 5 10 0 127 0 audioStream 4 playerDIG)
      as [b' p'].
    destruct Hgen as (_ & _ & Hlog & _); [vm_compute; discriminate|].
    exact (Hlog eq_refl).
  - destruct (Hdig 0%nat 22 1 10 4 audioStream playerDIG 1 127 0 eq_refl eq_refl)
      as (p' & Hrun & Him & _); [lia|].
    exists p'. split; [exact Hrun|exact Him].
Defined.

(** ** The play loop *)

Lemma play_skip_bound_witness :
  map o_skipFrame tinyRun
    = [false; true; true; true; true; true; true; true; true; true; true;
       false; true; true; true] /\
  (exists o : TickOut, o ∈ take 11 (drop 1 tinyRun) /\ o_skipFrame o = false) /\
  (exists o : TickOut, o ∈ take 11 (drop 1 tinyRun) /\ is_Some (o_blit o)) /\
  (exists (q1 : @Player engineTiny) (skipFrame : bool),
     @tick_decode engineTiny 5 lateTick framePlayer = Ok (q1, skipFrame, true) /\
     _updateNeeded framePlayer = false /\ _updateNeeded q1 = true /\
     exists (o : TickOut) (later : list TickOut),
       fst (@play_loop engineTiny 5 [lateTick] 0 framePlayer) = o :: later /\
       o_updateNeeded o = true).
Proof.
  split; [vm_compute; reflexivity|].
  destruct (@play_skip_bound engineTiny 10 (repeat lateTick 15) "tiny.san"
              12 0 0 0 playerTiny) as (Hwin & _ & _ & _ & Hblit & _).
  destruct (@play_skip_bound engineTiny 5 [] EmptyString 0 0 0 0 playerTiny)
    as (_ & _ & _ & _ & _ & Hframe).
  split; [|split].
  - apply (Hwin (take 1 tinyRun) (take 11 (drop 1 tinyRun)) (drop 12 tinyRun));
      vm_compute; reflexivity.
  - apply (Hblit (take 1 tinyRun) (take 11 (drop 1 tinyRun)) (drop 12 tinyRun));
      [vm_compute; reflexivity|vm_compute; reflexivity|].
    intros o rest Heq. vm_compute in Heq. inversion Heq. reflexivity.
  - assert (Hok : match @tick_decode engineTiny 5 lateTick framePlayer with
                  | Ok (q, _, due) =>
                      due && negb (_width q =? 0) && negb (_height q =? 0)
                  | _ => false
                  end = true) by (vm_compute; reflexivity).
    destruct (@tick_decode engineTiny 5 lateTick framePlayer)
      as [[[q1 skipFrame] due]| |] eqn:Hrun; try discriminate Hok.
    apply andb_true_iff in Hok as [Hok Hh].
    apply andb_true_iff in Hok as [Hdue Hw]. subst due.
    apply negb_true_iff, Z.eqb_neq in Hw, Hh.
    destruct (Hframe lateTick [] 0 framePlayer framePlayer q1 skipFrame
                frameStream 30 (skip 8 frameStream))
      as (Hneed & Hfirst & _);
      [lia|exact Hrun|reflexivity|reflexivity|vm_compute; reflexivity
      |vm_compute; reflexivity|exact Hw|exact Hh|].
    exists q1, skipFrame. split; [reflexivity|].
    split; [reflexivity|]. split; [exact Hneed|exact Hfirst].
Defined.

Lemma play_blit_within_screen_witness :
  o_blit (snd (@tick_present engineFT true false 0 specialPlayer))
    = Some (384, 320, 200) /\
  Forall (fun o => forall pitch w h : Z,
            o_blit o = Some (pitch, w, h) -> w <= 4 /\ h <= 2) tinyRun.
Proof.
  destruct (@play_blit_within_screen engineTiny 10 (repeat lateTick 15)
              "tiny.san" 12 0 0 0 playerTiny) as (_ & Hrun).
  destruct (@play_blit_within_screen engineFT 0 [] EmptyString 0 0 0 0 playerFT)
    as (Htick & _).
  split.
  - destruct (o_blit (snd (@tick_present engineFT true false 0 specialPlayer)))
      as [[[pitch w] h]|] eqn:Hb; [|vm_compute in Hb; discriminate].
    destruct (Htick true false 0 specialPlayer pitch w h Hb) as (-> & -> & ->).
    reflexivity.
  - unfold tinyRun. apply Forall_forall. intros o Hin pitch w h Hb.
    destruct (Hrun o pitch w h Hin Hb) as (_ & Hw & Hh). split; assumption.
Defined.

(** ** Pausing *)

Lemma pause_unpause_idempotent_witness :
  @pause engineTiny 700 (@pause engineTiny 500 playerTiny)
    = @pause engineTiny 500 playerTiny /\
  _pauseTime (@unpause engineTiny 900 (@pause engineTiny 500 playerTiny)) = 400.
Proof.
  destruct (@pause_unpause_idempotent engineTiny 500 700 playerTiny)
    as (_ & _ & Hpp & _).
  destruct (@pause_unpause_idempotent engineTiny 500 900 playerTiny)
    as (_ & _ & _ & _ & _ & _ & Hsum).
  split; [exact Hpp|].
  rewrite Hsum; [reflexivity|reflexivity|lia|lia|simpl; lia|simpl; lia].
Defined.

(** ** Routing of frame objects *)



(** ** Frames *)

(** Under the late clock the small film has its 13 Frame chunks handled,
    each setting up the 4x2 frame size, and the frame buffer pushed to
    the screen once. *)
Lemma frames_handled_one_push :
  exists p' : @Player engineTiny,
    snd (@play engineTiny 10 (repeat lateTick 15) "tiny.san" 12 0 0 0 playerTiny)
      = Ok p' /\
    _frame p' = 13 /\ _width p' = 4 /\ _height p' = 2 /\
    map (fun o => bool_decide (is_Some (o_blit o))) tinyRun
      = [false; false; false; false; false; false; false; false; false;
         false; false; true; false; false; false] /\
    map o_due tinyRun = repeat true 15.
Proof.
  assert (Hok : is_ok (snd (@play engineTiny 10 (repeat lateTick 15) "tiny.san"
                              12 0 0 0 playerTiny)) = true)
    by (vm_compute; reflexivity).
  destruct (snd (@play engineTiny 10 (repeat lateTick 15) "tiny.san"
                   12 0 0 0 playerTiny)) as [p'| |] eqn:Hrun;
    try discriminate Hok.
  assert (Ep : p' = match snd (@play engineTiny 10 (repeat lateTick 15)
                                 "tiny.san" 12 0 0 0 playerTiny) with
                    | Ok q => q
                    | _ => playerTiny
                    end) by (rewrite Hrun; reflexivity).
  exists p'. split; [reflexivity|].
  split; [rewrite Ep; vm_compute; reflexivity|].
  split; [rewrite Ep; vm_compute; reflexivity|].
  split; [rewrite Ep; vm_compute; reflexivity|].
  split; vm_compute; reflexivity.
Qed.

Lemma handleFrame_once_witness :
  exists (b' : Stream) (p' : @Player engineTiny),
    @handleFrame engineTiny 5 60 twoObjectFrame playerTiny = Ok (b', p') /\
    _frame p' = 1 /\ _updateNeeded p' = true /\
    _width p' = 4 /\ _height p' = 2 /\
    o_blit (snd (@tick_present engineTiny true true 0 p')) = None /\
    is_Some (o_blit (snd (@tick_present engineTiny true false 0 p'))).
Proof.
  destruct (@handleFrame engineTiny 5 60 twoObjectFrame playerTiny)
    as [[b' p']| |] eqn:Hrun; [|vm_compute in Hrun; discriminate ..].
  destruct (@handleFrame_once engineTiny 5 60 twoObjectFrame b' playerTiny p' Hrun)
    as (_ & _ & Hf & _ & _ & Hdims & Hup & Hpush).
  exists b', p'. split; [reflexivity|].
  split; [rewrite Hf; [reflexivity|simpl; lia]|].
  assert (Hwh : _width p' = 4 /\ _height p' = 2).
  { destruct Hdims as [[Hw Hh]|[[Hw Hh]|[Hw Hh]]].
    - exfalso.
      assert (Hw' : _width p' = 4).
      { transitivity (match @handleFrame engineTiny 5 60 twoObjectFrame playerTiny with
                      | Ok (_, q) => _width q
                      | _ => 0
                      end); [rewrite Hrun; reflexivity|vm_compute; reflexivity]. }
      rewrite Hw' in Hw. simpl in Hw. lia.
    - exfalso.
      assert (Hw' : _width p' = 4).
      { transitivity (match @handleFrame engineTiny 5 60 twoObjectFrame playerTiny with
                      | Ok (_, q) => _width q
                      | _ => 0
                      end); [rewrite Hrun; reflexivity|vm_compute; reflexivity]. }
      lia.
    - split; [exact Hw|exact Hh]. }
  assert (Hreq : _updateNeeded p' = true).
  { apply Hup; [simpl; lia|simpl; lia|].
    destruct Hwh as [Hw _]. rewrite Hw. simpl. intros [Hbad _]. lia. }
  split; [exact Hreq|]. split; [exact (proj1 Hwh)|]. split; [exact (proj2 Hwh)|].
  assert (Hdirty : (_palDirtyMin p' <=? _palDirtyMax p') = false).
  { transitivity (match @handleFrame engineTiny 5 60 twoObjectFrame playerTiny with
                  | Ok (_, q) => _palDirtyMin q <=? _palDirtyMax q
                  | _ => true
                  end); [rewrite Hrun; reflexivity|vm_compute; reflexivity]. }
  split.
  - pose proof (Hpush true true 0 p') as Hs.
    assert (Hskip : o_skipFrame (snd (@tick_present engineTiny true true 0 p'))
                    = true).
    { unfold tick_present. rewrite Hdirty.
      change (10 <? 0 + 1) with false. cbv beta iota zeta.
      destruct (_updateNeeded p' && negb true); reflexivity. }
    destruct (@tick_present engineTiny true true 0 p') as [[q' sk] out].
    cbn [snd] in *. destruct Hs as (Hiff & _).
    destruct (o_blit out) as [x|] eqn:Ex; [|reflexivity].
    destruct (proj1 Hiff (ex_intro _ x eq_refl)) as [_ Hno]. congruence.
  - pose proof (Hpush true false 0 p') as Hs.
    assert (Hskip : o_skipFrame (snd (@tick_present engineTiny true false 0 p'))
                    = false).
    { unfold tick_present. rewrite Hdirty. cbv beta iota zeta.
      destruct (_updateNeeded p' && negb false); reflexivity. }
    destruct (@tick_present engineTiny true false 0 p') as [[q' sk] out].
    cbn [snd] in *. destruct Hs as (Hiff & _).
    apply Hiff. split; [exact Hreq|exact Hskip].
Defined.

(** * The IACT audio of The Curse of Monkey Island *)

Lemma bind_Ok_r {A : Type} (m : Res A) : (x <- m ;; Ok x) = m.
Proof. destruct m; reflexivity. Qed.

Lemma peekByte_no_spin (buf : list Z) (i : Z) : peekByte buf i <> Spin.
Proof. unfold peekByte; repeat case_match; discriminate. Qed.

Lemma pokeBytes_no_spin (buf : list Z) (pos : Z) (src : list Z) :
  pokeBytes buf pos src <> Spin.
Proof. unfold pokeBytes; case_match; discriminate. Qed.

Lemma iact_sample_no_spin (buf : list Z) (i shift : Z) :
  iact_sample buf i shift <> Spin.
Proof.
  unfold iact_sample.
  destruct (peekByte buf i) eqn:E0; cbn [bind]; try discriminate;
    [|exfalso; eapply peekByte_no_spin; eauto].
  case_match; [|discriminate].
  destruct (peekByte buf (i + 1)) eqn:E1; cbn [bind]; try discriminate;
    [|exfalso; eapply peekByte_no_spin; eauto].
  destruct (peekByte buf (i + 2)) eqn:E2; cbn [bind]; try discriminate.
  exfalso; eapply peekByte_no_spin; eauto.
Qed.

Lemma iact_decode_no_spin (count : nat) (buf : list Z) :
  forall (i v1 v2 : Z) (acc : list Z), iact_decode count buf i v1 v2 acc <> Spin.
Proof.
  induction count as [|count IH]; intros i v1 v2 acc; simpl; [discriminate|].
  destruct (iact_sample buf i v2) as [s1| |] eqn:E1; cbn [bind]; try discriminate;
    [|exfalso; eapply iact_sample_no_spin; eauto].
  destruct (iact_sample buf (snd s1) v1) as [s2| |] eqn:E2; cbn [bind];
    try discriminate; [apply IH|exfalso; eapply iact_sample_no_spin; eauto].
Qed.

Lemma iact_step_no_spin (src : list Z) (st : IACTState) : iact_step src st <> Spin.
Proof.
  unfold iact_step, assert.
  repeat first
    [ discriminate
    | match goal with
      | |- context [peekByte ?b ?i] =>
          let E := fresh "E" in
          destruct (peekByte b i) eqn:E; cbn [bind];
          [| |exfalso; eapply peekByte_no_spin; eauto]
      | |- context [pokeBytes ?b ?i ?s] =>
          let E := fresh "E" in
          destruct (pokeBytes b i s) eqn:E; cbn [bind];
          [| |exfalso; eapply pokeBytes_no_spin; eauto]
      | |- context [iact_decode ?c ?b ?i ?x ?y ?a] =>
          let E := fresh "E" in
          destruct (iact_decode c b i x y a) eqn:E; cbn [bind];
          [| |exfalso; eapply iact_decode_no_spin; eauto]
      | |- context [if ?c then _ else _] => destruct c; cbn [bind]
      | |- context [match ?l with [] => _ | _ :: _ => _ end] => destruct l
      end ].
Qed.

Lemma iact_step_measure (src : list Z) (st : IACTState) (src' : list Z)
    (st' : IACTState) :
  src <> [] -> iact_step src st = Ok (src', st') ->
  src' = [] \/ (iact_measure src' st' < iact_measure src st)%nat.
Proof.
  intros Hne H. unfold iact_step in H. unfold iact_measure.
  destruct (2 <=? _IACTpos st) eqn:Ep.
  - destruct (peekByte (_IACToutput st) 0) as [hi| |]; cbn [bind] in H; try discriminate.
    destruct (peekByte (_IACToutput st) 1) as [lo| |]; cbn [bind] in H; try discriminate.
    destruct (Z.of_nat (length src) <? hi * 256 + lo + 2 - _IACTpos st) eqn:El.
    + destruct (pokeBytes _ _ _); cbn [bind] in H; try discriminate.
      inversion H; subst. left; reflexivity.
    + destruct (assert _ _) eqn:Ea; cbn [bind] in H; try discriminate.
      destruct (pokeBytes _ _ _); cbn [bind] in H; try discriminate.
      destruct (peekByte _ 2); cbn [bind] in H; try discriminate.
      destruct (iact_decode _ _ _ _ _ _); cbn [bind] in H; try discriminate.
      inversion H; subst. right. simpl. rewrite length_drop. lia.
  - destruct src as [|c0 rest]; [congruence|].
    destruct ((1 <? Z.of_nat (length (c0 :: rest))) && (_IACTpos st =? 0)) eqn:Eb.
    + destruct rest as [|c1 rest']; [discriminate|].
      destruct (pokeBytes _ 0 _); cbn [bind] in H; try discriminate.
      destruct (pokeBytes _ 1 _); cbn [bind] in H; try discriminate.
      inversion H; subst. right. simpl. lia.
    + destruct (pokeBytes _ _ _); cbn [bind] in H; try discriminate.
      inversion H; subst. right. simpl.
      destruct (2 <=? _IACTpos st + 1); lia.
Qed.

(** Any budget that covers the measure gives the same result, and that
    result is not an exhausted budget. *)
Lemma iact_loop_enough :
  forall (fuel fuel' : nat) (src : list Z) (st : IACTState),
    (iact_measure src st <= fuel)%nat -> (iact_measure src st <= fuel')%nat ->
    iact_loop fuel src st = iact_loop fuel' src st /\
    iact_loop fuel src st <> Spin.
Proof.
  induction fuel as [|fuel IH]; intros fuel' src st H1 H2.
  - destruct src as [|c src]; [destruct fuel'; simpl; (split; [reflexivity|discriminate])|].
    unfold iact_measure in H1. simpl in H1. lia.
  - destruct src as [|c src]; [destruct fuel'; simpl; (split; [reflexivity|discriminate])|].
    destruct fuel' as [|fuel']; [unfold iact_measure in H2; simpl in H2; lia|].
    cbn [iact_loop].
    destruct (iact_step (c :: src) st) as [[src' st']| |] eqn:Es; cbn [bind fst snd].
    + destruct (iact_step_measure (c :: src) st src' st' ltac:(discriminate) Es)
        as [->|Hm].
      * destruct fuel, fuel'; simpl; (split; [reflexivity|discriminate]).
      * apply IH; lia.
    + split; [reflexivity|discriminate].
    + exfalso; eapply iact_step_no_spin; eauto.
Qed.

Lemma handleIACT_CMI_measure (src : list Z) (st : IACTState) :
  (iact_measure src st <= 2 * length src + 1)%nat.
Proof. unfold iact_measure. case_match; lia. Qed.

(** The loop of the branch, one turn unfolded. *)
Lemma handleIACT_CMI_unfold (src : list Z) (st : IACTState) :
  handleIACT_CMI src st =
  match src with
  | [] => Ok st
  | _ :: _ => r <- iact_step src st ;; handleIACT_CMI (fst r) (snd r)
  end.
Proof.
  unfold handleIACT_CMI. destruct src as [|c src]; [reflexivity|].
  replace (2 * length (c :: src) + 1)%nat with (S (2 * length (c :: src))) by lia.
  cbn [iact_loop].
  destruct (iact_step (c :: src) st) as [[src' st']| |] eqn:Es; cbn [bind fst snd];
    try reflexivity.
  destruct (iact_step_measure (c :: src) st src' st' ltac:(discriminate) Es)
        as [->|Hm].
  - simpl. reflexivity.
  - pose proof (handleIACT_CMI_measure (c :: src) st).
    apply iact_loop_enough; [lia|apply handleIACT_CMI_measure].
Qed.

Lemma pokeBytes_length (buf : list Z) (pos : Z) (src buf' : list Z) :
  pokeBytes buf pos src = Ok buf' -> length buf' = length buf.
Proof.
  unfold pokeBytes. destruct (_ && _) eqn:Ec; [|discriminate].
  apply andb_true_iff in Ec as [E1 E2]. apply Z.leb_le in E1, E2.
  intros H; inversion H; subst.
  rewrite !length_app, length_take, length_drop. lia.
Qed.

Lemma pokeBytes_app (buf : list Z) (pos : Z) (a b : list Z) :
  pokeBytes buf pos (a ++ b) =
  (buf' <- pokeBytes buf pos a ;; pokeBytes buf' (pos + Z.of_nat (length a)) b).
Proof.
  destruct (pokeBytes buf pos a) as [buf'| |] eqn:Ea; cbn [bind].
  - pose proof (pokeBytes_length _ _ _ _ Ea) as Hlen.
    unfold pokeBytes in *. rewrite length_app, Hlen.
    destruct ((0 <=? pos) && (pos + Z.of_nat (length a) <=? Z.of_nat (length buf)))
      eqn:Ec; [|discriminate].
    apply andb_true_iff in Ec as [E1 E2]. inversion Ea; subst buf'; clear Ea.
    rewrite E1. cbn [andb]. apply Z.leb_le in E1, E2.
    rewrite (proj2 (Z.leb_le 0 (pos + Z.of_nat (length a)))) by lia. cbn [andb].
    replace (pos + Z.of_nat (length a) + Z.of_nat (length b))
      with (pos + Z.of_nat (length a + length b)) by lia.
    destruct (pos + Z.of_nat (length a + length b) <=? Z.of_nat (length buf))
      eqn:E3; [|reflexivity].
    apply Z.leb_le in E3. f_equal.
    assert (Hp : length (take (Z.to_nat pos) buf) = Z.to_nat pos)
      by (rewrite length_take; lia).
    replace (Z.to_nat (pos + Z.of_nat (length a)))
      with (length (take (Z.to_nat pos) buf ++ a))
      by (rewrite length_app, Hp; lia).
    rewrite (app_assoc (take (Z.to_nat pos) buf) a).
    rewrite take_app_length.
    rewrite drop_app_add, drop_drop.
    rewrite <- !app_assoc. do 4 f_equal. lia.
  - unfold pokeBytes in *. rewrite length_app.
    destruct ((0 <=? pos) && (pos + Z.of_nat (length a) <=? Z.of_nat (length buf)))
      eqn:Ec; [discriminate|].
    inversion Ea; subst.
    destruct ((0 <=? pos) &&
              (pos + Z.of_nat (length a + length b) <=? Z.of_nat (length buf)))
      eqn:Ec'; [|reflexivity].
    apply andb_true_iff in Ec' as [E1 E2]. apply Z.leb_le in E1, E2.
    apply andb_false_iff in Ec as [Ec|Ec]; apply Z.leb_gt in Ec; lia.
  - exfalso; eapply pokeBytes_no_spin; eauto.
Qed.

Lemma peekByte_pokeBytes (buf : list Z) (pos : Z) (src buf' : list Z) (i : Z) :
  pokeBytes buf pos src = Ok buf' -> 0 <= i < pos ->
  peekByte buf' i = peekByte buf i.
Proof.
  unfold pokeBytes, peekByte. destruct (_ && _) eqn:Ec; [|discriminate].
  apply andb_true_iff in Ec as [E1 E2]. apply Z.leb_le in E1, E2.
  intros H Hi; inversion H; subst.
  destruct (0 <=? i); [|reflexivity].
  rewrite lookup_app_l by (rewrite length_take; lia).
  rewrite lookup_take_lt by lia. reflexivity.
Qed.

(** One turn on a block followed by more bytes: either the turn is the
    same and leaves the further bytes behind what it leaves, or the block
    ends inside the turn, which is then the turn the further bytes take
    from where the block stopped. *)
Lemma iact_step_app (a b : list Z) (st : IACTState) :
  a <> [] -> b <> [] ->
  match iact_step a st with
  | Ok (a', st') =>
      iact_step (a ++ b) st = Ok (a' ++ b, st') \/
      (a' = [] /\ iact_step (a ++ b) st = iact_step b st')
  | Fatal msg => iact_step (a ++ b) st = Fatal msg
  | Spin => False
  end.
Proof.
  intros Ha Hb.
  destruct a as [|a0 a']; [congruence|]. destruct b as [|b0 b']; [congruence|].
  clear Ha Hb. unfold iact_step.
  destruct (2 <=? _IACTpos st) eqn:Ep.
  - (* a packet is being gathered *)
    apply Z.leb_le in Ep.
    destruct (peekByte (_IACToutput st) 0) as [hi|m|] eqn:Ehi; cbn [bind];
      [|reflexivity|eapply peekByte_no_spin; eauto].
    destruct (peekByte (_IACToutput st) 1) as [lo|m|] eqn:Elo; cbn [bind];
      [|reflexivity|eapply peekByte_no_spin; eauto].
    set (len := hi * 256 + lo + 2 - _IACTpos st).
    set (la := a0 :: a'). set (lb := b0 :: b').
    rewrite length_app.
    destruct (Z.of_nat (length la) <? len) eqn:Ela.
    + (* the block ends before the packet does *)
      apply Z.ltb_lt in Ela.
      destruct (pokeBytes (_IACToutput st) (_IACTpos st) la) as [outa|m|] eqn:Epa;
        cbn [bind]; [| |eapply pokeBytes_no_spin; eauto].
      * right. split; [reflexivity|].
        unfold iact_step. cbn [_IACTpos _IACToutput _IACTstream].
        rewrite (proj2 (Z.leb_le 2 (_IACTpos st + Z.of_nat (length la)))) by lia.
        rewrite (peekByte_pokeBytes _ _ _ _ 0 Epa), Ehi by lia.
        rewrite (peekByte_pokeBytes _ _ _ _ 1 Epa), Elo by lia.
        cbn [bind]. fold len.
        replace (hi * 256 + lo + 2 - (_IACTpos st + Z.of_nat (length la)))
          with (len - Z.of_nat (length la)) by (unfold len; lia).
        destruct (Z.of_nat (length la + length lb) <? len) eqn:Elab.
        -- apply Z.ltb_lt in Elab.
           rewrite (proj2 (Z.ltb_lt (Z.of_nat (length lb))
                             (len - Z.of_nat (length la)))) by lia.
           rewrite pokeBytes_app, Epa. cbn [bind].
           destruct (pokeBytes outa _ lb); cbn [bind]; try reflexivity.
           do 3 f_equal. lia.
        -- apply Z.ltb_ge in Elab.
           rewrite (proj2 (Z.ltb_ge (Z.of_nat (length lb))
                             (len - Z.of_nat (length la)))) by lia.
           unfold assert.
           rewrite (proj2 (Z.leb_le 0 len)) by lia.
           rewrite (proj2 (Z.leb_le 0 (len - Z.of_nat (length la)))) by lia.
           cbn [bind].
           assert (Htake : take (Z.to_nat len) (la ++ lb)
                           = la ++ take (Z.to_nat (len - Z.of_nat (length la))) lb).
           { rewrite take_app, take_ge by lia. do 2 f_equal. lia. }
           assert (Hdrop : drop (Z.to_nat len) (la ++ lb)
                           = drop (Z.to_nat (len - Z.of_nat (length la))) lb).
           { rewrite drop_app, drop_ge by lia. simpl. f_equal. lia. }
           rewrite Htake, Hdrop, pokeBytes_app, Epa. cbn [bind]. reflexivity.
      * (* the copy of the block overruns the array *)
        destruct (Z.of_nat (length la + length lb) <? len) eqn:Elab.
        -- rewrite pokeBytes_app, Epa. reflexivity.
        -- apply Z.ltb_ge in Elab. unfold assert.
           rewrite (proj2 (Z.leb_le 0 len)) by lia. cbn [bind].
           assert (Htake : take (Z.to_nat len) (la ++ lb)
                           = la ++ take (Z.to_nat (len - Z.of_nat (length la))) lb).
           { rewrite take_app, take_ge by lia. do 2 f_equal. lia. }
           rewrite Htake, pokeBytes_app, Epa. cbn [bind].
           unfold pokeBytes in Epa. case_match; [discriminate|].
           inversion Epa; reflexivity.
    + (* the packet ends inside the block *)
      apply Z.ltb_ge in Ela.
      rewrite (proj2 (Z.ltb_ge (Z.of_nat (length la + length lb)) len)) by lia.
      destruct (assert (0 <=? len) MSG_IACT) as [[]|m|] eqn:Eas; cbn [bind];
        [|reflexivity|unfold assert in Eas; case_match; discriminate].
      assert (Hlen0 : 0 <= len)
        by (unfold assert in Eas; destruct (0 <=? len) eqn:E0; [lia|discriminate]).
      rewrite take_app_le by lia.
      destruct (pokeBytes _ _ (take (Z.to_nat len) la)) as [out1|m|] eqn:Ep1;
        cbn [bind]; [|reflexivity|eapply pokeBytes_no_spin; eauto].
      destruct (peekByte out1 2) as [v|m|] eqn:Ev; cbn [bind];
        [|reflexivity|eapply peekByte_no_spin; eauto].
      destruct (iact_decode 1024 out1 3 _ _ []) as [od|m|] eqn:Ed; cbn [bind];
        [|reflexivity|eapply iact_decode_no_spin; eauto].
      left. rewrite drop_app_le by lia. reflexivity.
  - (* the two bytes of length are being read *)
    apply Z.leb_gt in Ep. cbn [app].
    destruct (_IACTpos st =? 0) eqn:E0.
    + destruct a' as [|a1 a'']; cbn [app].
      * (* the block ends between the two bytes *)
        rewrite (proj2 (Z.ltb_lt 1 (Z.of_nat (length (a0 :: b0 :: b')))))
          by (simpl length; lia).
        change (1 <? Z.of_nat (length [a0])) with false. cbn [andb].
        apply Z.eqb_eq in E0. rewrite E0.
        destruct (pokeBytes (_IACToutput st) 0 [a0]) as [out1|m|] eqn:Ep1;
          cbn [bind]; [|reflexivity|eapply pokeBytes_no_spin; eauto].
        right. split; [reflexivity|].
        cbn [_IACTpos _IACToutput _IACTstream].
        change (2 <=? 0 + 1) with false. cbv iota.
        change (0 + 1 =? 0) with false. rewrite andb_false_r.
        change (0 + 1) with 1.
        destruct (pokeBytes out1 1 [b0]); reflexivity.
      * rewrite (proj2 (Z.ltb_lt 1 (Z.of_nat (length (a0 :: a1 :: a'' ++ b0 :: b')))))
          by (simpl length; lia).
        rewrite (proj2 (Z.ltb_lt 1 (Z.of_nat (length (a0 :: a1 :: a'')))))
          by (simpl length; lia).
        cbn [andb].
        destruct (pokeBytes (_IACToutput st) 0 [a0]) as [out1|m|] eqn:Ep1;
          cbn [bind]; [|reflexivity|eapply pokeBytes_no_spin; eauto].
        destruct (pokeBytes out1 1 [a1]) as [out2|m|] eqn:Ep2;
          cbn [bind]; [|reflexivity|eapply pokeBytes_no_spin; eauto].
        left. reflexivity.
    + rewrite !andb_false_r.
      destruct (pokeBytes (_IACToutput st) (_IACTpos st) [a0]) as [out1|m|] eqn:Ep1;
        cbn [bind]; [|reflexivity|eapply pokeBytes_no_spin; eauto].
      left. reflexivity.
Qed.

(** X1: the stream of IACT bytes may be cut into blocks anywhere: a block
    followed by another is handled as the two joined. *)
Theorem handleIACT_CMI_app (a b : list Z) (st : IACTState) :
  handleIACT_CMI (a ++ b) st
  = (st' <- handleIACT_CMI a st ;; handleIACT_CMI b st').
Proof.
  remember (iact_measure a st) as n eqn:Hn. revert a st Hn.
  induction n as [n IH] using lt_wf_ind. intros a st Hn.
  destruct a as [|a0 a']; [reflexivity|].
  destruct b as [|b0 b'].
  { rewrite app_nil_r. destruct (handleIACT_CMI (a0 :: a') st); reflexivity. }
  rewrite (handleIACT_CMI_unfold ((a0 :: a') ++ b0 :: b') st).
  rewrite (handleIACT_CMI_unfold (a0 :: a') st).
  change ((a0 :: a') ++ b0 :: b') with (a0 :: a' ++ b0 :: b') at 1. cbv iota.
  change (a0 :: a' ++ b0 :: b') with ((a0 :: a') ++ b0 :: b').
  pose proof (iact_step_app (a0 :: a') (b0 :: b') st
                ltac:(discriminate) ltac:(discriminate)) as Hstep.
  destruct (iact_step (a0 :: a') st) as [[r st1]|m|] eqn:Es; cbn [bind fst snd];
    [|rewrite Hstep; reflexivity|contradiction].
  destruct Hstep as [Hsame|[-> Hcut]].
  - rewrite Hsame. cbn [bind fst snd].
    destruct (iact_step_measure (a0 :: a') st r st1 ltac:(discriminate) Es)
      as [->|Hm]; [reflexivity|].
    eapply IH; [|reflexivity]. lia.
  - rewrite Hcut. change (handleIACT_CMI [] st1) with (Ok st1). cbn [bind].
    rewrite (handleIACT_CMI_unfold (b0 :: b') st1). reflexivity.
Qed.

(** X2: the loop of the branch comes to an end on every block. *)
Theorem handleIACT_CMI_terminates (src : list Z) (st : IACTState) :
  handleIACT_CMI src st <> Spin.
Proof.
  unfold handleIACT_CMI.
  apply (iact_loop_enough _ (2 * length src + 1) src st);
    apply handleIACT_CMI_measure.
Qed.







(** X4: a sample byte other than 0x80 is sign-extended, shifted left and
    stored as a 16-bit big-endian value: the two bytes put out read back
    as [(int8)value << shift] cut to 16 bits, and as that very number
    when it fits. The byte 0x80 puts out the two bytes after it as they
    are. *)
Theorem iact_sample_value (buf : list Z) (i shift value : Z) :
  peekByte buf i = Ok value -> 0 <= shift ->
  (value <> 0x80 ->
   exists hi lo : Z,
     iact_sample buf i shift = Ok ([hi; lo], i + 1) /\
     is_byte hi /\ is_byte lo /\
     to_int16 (hi * 256 + lo) = to_int16 (to_int8 value * 2 ^ shift) /\
     (is_int16 (to_int8 value * 2 ^ shift) ->
      to_int16 (hi * 256 + lo) = to_int8 value * 2 ^ shift)) /\
  (value = 0x80 ->
   forall b1 b2 : Z,
     peekByte buf (i + 1) = Ok b1 -> peekByte buf (i + 2) = Ok b2 ->
     iact_sample buf i shift = Ok ([b1; b2], i + 3)).
Proof.
  intros Hv Hs. split.
  - intros Hne. unfold iact_sample. rewrite Hv. cbn [bind].
    destruct (value =? 128) eqn:E; [lia|].
    rewrite Z.shiftl_mul_pow2 by lia.
    set (x := to_int8 value * 2 ^ shift).
    set (val := to_int16 x).
    rewrite Z.shiftr_div_pow2 by lia.
    exists (to_byte (val / 2 ^ 8)), (to_byte val).
    split; [reflexivity|]. split; [apply to_byte_range|]. split; [apply to_byte_range|].
    assert (Hval : is_int16 val) by apply to_int16_range.
    assert (Hback : to_int16 (to_byte (val / 2 ^ 8) * 256 + to_byte val) = val).
    { unfold is_int16 in Hval. unfold to_int16, to_byte, wrapS, wrapU.
      change (2 ^ 8) with 256. change (2 ^ (16 - 1)) with 32768.
      change (2 ^ 16) with 65536.
      pose proof (Z.div_mod val 256 ltac:(lia)) as Hdm.
      pose proof (Z.mod_pos_bound val 256 ltac:(lia)) as Hr.
      assert (Hq : -128 <= val / 256 <= 127).
      { split; [apply Z.div_le_lower_bound; lia|].
        apply Z.lt_succ_r. apply Z.div_lt_upper_bound; lia. }
      destruct (Z_lt_le_dec (val / 256) 0) as [Hneg|Hpos].
      - assert (Hm : (val / 256) mod 256 = val / 256 + 256).
        { symmetry. apply Z.mod_unique with (q := -1); lia. }
        rewrite Hm.
        replace ((val / 256 + 256) * 256 + val mod 256 + 32768)
          with (val + 32768 + 1 * 65536) by lia.
        rewrite Z.mod_add by lia. rewrite Z.mod_small; lia.
      - rewrite (Z.mod_small (val / 256)) by lia.
        replace (val / 256 * 256 + val mod 256 + 32768) with (val + 32768) by lia.
        rewrite Z.mod_small; lia. }
    split; [exact Hback|].
    intros Hfit. rewrite Hback. unfold val.
    unfold is_int16 in Hfit. unfold to_int16, wrapS.
    change (2 ^ (16 - 1)) with 32768. change (2 ^ 16) with 65536.
    rewrite Z.mod_small; lia.
  - intros -> b1 b2 H1 H2. unfold iact_sample.
    rewrite Hv. cbn [bind]. change (128 =? 128) with true. cbv iota.
    rewrite H1, H2. reflexivity.
Qed.

(** * String resources *)

Lemma StringResource_new_coherent (strings : list (Z * string)) :
  sr_coherent (StringResource_new strings).
Proof. left; reflexivity. Qed.

(** X5: the answer [get] remembers never changes what it returns: whatever
    lookups came before, an id other than -1 gets the first string of the
    table with that id, or "unknown string" and a warning when there is
    none; the table stays as it is. *)
Theorem StringResource_get_lookup (id : Z) (sr : StringResource) :
  sr_coherent sr -> id <> -1 ->
  let '(r, sr', warned) := StringResource_get id sr in
  r = Some (default UNKNOWN_STRING (findString (sr_strings sr) id)) /\
  (warned = true <-> findString (sr_strings sr) id = None) /\
  sr_strings sr' = sr_strings sr /\
  sr_coherent sr'.
Proof.
  intros Hc Hid. unfold StringResource_get.
  destruct (id =? _lastId sr) eqn:El.
  - apply Z.eqb_eq in El. subst id.
    destruct Hc as [Hc|(s & Hf & Hs)]; [contradiction|].
    rewrite Hf, Hs.
    split; [reflexivity|]. split; [split; discriminate|]. split; [reflexivity|].
    right. exists s. split; assumption.
  - destruct (findString (sr_strings sr) id) as [s|] eqn:Ef.
    + split; [reflexivity|]. split; [split; discriminate|]. split; [reflexivity|].
      right. exists s. split; [exact Ef|reflexivity].
    + split; [reflexivity|]. split; [split; reflexivity|].
      split; [reflexivity|left; reflexivity].
Qed.

(** X6: a second [get] of the same id returns the same string, gives no
    warning and changes nothing. *)
Theorem StringResource_get_twice (id : Z) (sr : StringResource) :
  sr_coherent sr -> id <> -1 ->
  findString (sr_strings sr) id <> None ->
  let '(r, sr', _) := StringResource_get id sr in
  StringResource_get id sr' = (r, sr', false).
Proof.
  intros Hc Hid Hf. unfold StringResource_get.
  destruct (id =? _lastId sr) eqn:El.
  - rewrite El. reflexivity.
  - destruct (findString (sr_strings sr) id) as [s|] eqn:Ef; [|congruence].
    cbn [_lastId]. rewrite Z.eqb_refl. reflexivity.
Qed.

(** * Encoded string files *)

(** The in-place loop, run over the first [n] bytes: each has become the
    byte 16 places on, xor 0xCC, and the bytes from [n] on are still those
    of the file. *)
Lemma decodeETRS_loop (n : nat) (buf : list Z) :
  (n + 16 <= length buf)%nat ->
  let r := fold_left decodeETRSAt (seq 0 n) buf in
  length r = length buf /\
  (forall i : nat, (i < n)%nat ->
     r !! i = (fun c => to_byte (Z.lxor c 0xCC)) <$> buf !! (i + 16)%nat) /\
  (forall i : nat, (n <= i)%nat -> r !! i = buf !! i).
Proof.
  induction n as [|n IH]; intros Hlen; cbv zeta.
  - simpl. repeat split; auto. intros; lia.
  - rewrite seq_S, fold_left_app. cbn [fold_left Nat.add].
    destruct IH as (Hl & Hlt & Hge); [lia|].
    set (r := fold_left decodeETRSAt (seq 0 n) buf) in *.
    unfold decodeETRSAt. change (Z.to_nat ETRS_HEADER_LENGTH) with 16%nat.
    rewrite (Hge (n + 16)%nat) by lia.
    destruct (lookup_lt_is_Some_2 buf (n + 16)%nat ltac:(lia)) as [c Hc].
    rewrite Hc. rewrite length_insert.
    split; [exact Hl|]. split.
    + intros i Hi. destruct (decide (i = n)) as [->|Hne].
      * rewrite list_lookup_insert_eq by lia. rewrite Hc. reflexivity.
      * rewrite list_lookup_insert_ne by lia. apply Hlt. lia.
    + intros i Hi. rewrite list_lookup_insert_ne by lia. apply Hge. lia.
Qed.

(** The decoding of a tagged file of more than 16 bytes. *)
Lemma getStrings_buffer_tagged (is_encoded : bool) (file : list Z) :
  is_encoded && (READ_BE_UINT32 (file ++ [0]) 0 =? TAG_ETRS) = true ->
  (16 < length file)%nat ->
  exists buf : list Z,
    getStrings_buffer is_encoded file = Ok (buf, Z.of_nat (length file) - 16) /\
    (forall i : nat, (i + 16 < length file)%nat ->
       buf !! i = (fun c => to_byte (Z.lxor c 0xCC)) <$> file !! (i + 16)%nat) /\
    buf !! (length file - 16)%nat = Some 0.
Proof.
  unfold getStrings_buffer.
  intros Ht Hlen. rewrite Ht. unfold assert, ETRS_HEADER_LENGTH.
  rewrite (proj2 (Z.ltb_lt 16 (Z.of_nat (length file)))) by lia. cbn [bind].
  replace (Z.to_nat (Z.of_nat (length file) - 16)) with (length file - 16)%nat
    by lia.
  pose proof (decodeETRS_loop (length file - 16) (file ++ [0])) as H.
  cbv zeta in H. destruct H as (Hl & Hlt & Hge); [rewrite length_app; simpl; lia|].
  eexists. split; [reflexivity|]. split.
  - intros i Hi. rewrite list_lookup_insert_ne by lia.
    rewrite Hlt by lia. rewrite lookup_app_l by lia. reflexivity.
  - apply list_lookup_insert_eq. rewrite Hl, length_app. simpl. lia.
Qed.

(** X7: behind the tag ETRS an encoded file of more than 16 bytes is handed
    on 16 bytes shorter: byte [i] of the buffer is byte [i + 16] of the
    file xor 0xCC, and a zero closes the text. A file that is not to be
    decoded, or has no tag, is handed on as it is, closed by a zero; a
    tagged file of 16 bytes or less fails the assertion. *)
Theorem getStrings_buffer_decode (is_encoded : bool) (file : list Z) :
  let tagged := is_encoded && (READ_BE_UINT32 (file ++ [0]) 0 =? TAG_ETRS) in
  (tagged = true -> (16 < length file)%nat ->
   exists buf : list Z,
     getStrings_buffer is_encoded file = Ok (buf, Z.of_nat (length file) - 16) /\
     (forall i : nat, (i + 16 < length file)%nat ->
        buf !! i = (fun c => to_byte (Z.lxor c 0xCC)) <$> file !! (i + 16)%nat) /\
     buf !! (length file - 16)%nat = Some 0) /\
  (tagged = true -> (length file <= 16)%nat ->
   exists msg : string, getStrings_buffer is_encoded file = Fatal msg) /\
  (tagged = false ->
   getStrings_buffer is_encoded file = Ok (file ++ [0], Z.of_nat (length file))).
Proof.
  cbv zeta. split; [|split].
  - apply getStrings_buffer_tagged.
  - unfold getStrings_buffer.
    intros Ht Hlen. rewrite Ht. unfold assert, ETRS_HEADER_LENGTH.
    rewrite (proj2 (Z.ltb_ge 16 (Z.of_nat (length file)))) by lia.
    eexists; reflexivity.
  - unfold getStrings_buffer. intros Ht. rewrite Ht. reflexivity.
Qed.

(** X8: a text of bytes written as an encoded string file is read back: the
    buffer handed on starts with the text, has its length and closes it
    with a zero. *)
Theorem getStrings_buffer_encodeETRS (text : list Z) :
  Forall is_byte text -> text <> [] ->
  exists buf : list Z,
    getStrings_buffer true (encodeETRS text) = Ok (buf, Z.of_nat (length text)) /\
    take (length text) buf = text /\
    buf !! length text = Some 0.
Proof.
  intros Hb Hne.
  assert (Hlen : length (encodeETRS text) = (16 + length text)%nat).
  { unfold encodeETRS. rewrite !length_app, length_map. reflexivity. }
  destruct (getStrings_buffer_tagged true (encodeETRS text))
    as (buf & Hrun & Hval & Hz).
  - reflexivity.
  - destruct text; [congruence|]. rewrite Hlen. simpl. lia.
  - exists buf. rewrite Hlen in *.
    replace (Z.of_nat (16 + length text) - 16) with (Z.of_nat (length text))
      in Hrun by lia.
    replace (16 + length text - 16)%nat with (length text) in Hz by lia.
    split; [exact Hrun|]. split; [|exact Hz].
    apply list_eq. intros i.
    destruct (decide (i < length text)%nat) as [Hi|Hi].
    + rewrite lookup_take_lt by lia. rewrite Hval by lia.
      destruct (lookup_lt_is_Some_2 text i Hi) as [c Ec].
      assert (He : encodeETRS text !! (i + 16)%nat = Some (Z.lxor c 0xCC)).
      { unfold encodeETRS. rewrite app_assoc.
        rewrite lookup_app_r by (simpl; lia).
        change (length ([69; 84; 82; 83] ++ repeat 0 12)) with 16%nat.
        replace (i + 16 - 16)%nat with i by lia.
        rewrite list_lookup_fmap, Ec. reflexivity. }
      rewrite He, Ec. simpl. f_equal.
      rewrite Z.lxor_assoc, Z.lxor_nilpotent, Z.lxor_0_r.
      apply to_byte_id. rewrite Forall_forall in Hb. apply Hb.
      eapply list_elem_of_lookup_2; eauto.
    + rewrite lookup_take_ge by lia. symmetry. apply lookup_ge_None. lia.
Qed.

(** * The palette and the dirty range *)

Section MoreProperties.
Context {E : Externals}.

Lemma keeps_synced_refl (p : Player) : keeps_synced p p.
Proof. intros shown _ H; exact H. Qed.

Lemma keeps_synced_trans (p q r : Player) :
  keeps_synced p q -> keeps_synced q r -> keeps_synced p r.
Proof. intros H1 H2 shown Hl Hs. apply H2; auto. Qed.

(** A change that touches neither the palette nor the dirty range. *)
Lemma keeps_synced_fields (p p' : Player) :
  _pal p' = _pal p -> _palDirtyMin p' = _palDirtyMin p ->
  _palDirtyMax p' = _palDirtyMax p -> keeps_synced p p'.
Proof.
  intros Hp Hmin Hmax shown _ (Hl & Hr & Hs). unfold pal_synced.
  rewrite Hp, Hmin, Hmax. exact (conj Hl (conj Hr Hs)).
Qed.

Lemma setDirtyColors_synced (lo hi : Z) (p : Player) :
  0 <= lo -> hi <= 255 -> keeps_synced p (setDirtyColors lo hi p).
Proof.
  intros Hlo Hhi shown _ (Hl & Hr & Hs). unfold pal_synced.
  destruct (setDirtyColors_pal lo hi p) as [Hp _].
  destruct (setDirtyColors_range lo hi p) as [Hmin Hmax].
  rewrite Hp, Hmin, Hmax. split; [exact Hl|]. split; [lia|].
  intros i Hi. specialize (Hs i Hi). lia.
Qed.

(** With all 256 colours dirty a palette of 768 bytes is in step with
    whatever is shown. *)
Lemma all_dirty_synced (shown : list Z) (p : Player) :
  length shown = 768%nat -> length (_pal p) = 768%nat ->
  _palDirtyMin p = 0 -> _palDirtyMax p = 255 -> pal_synced shown p.
Proof.
  intros Hshown Hpal Hmin Hmax. split; [congruence|]. split; [lia|].
  intros i Hi.
  assert (Hlt : (i < 768)%nat).
  { destruct (decide (i < 768)%nat) as [|Hge]; [assumption|].
    exfalso. apply Hi.
    rewrite (lookup_ge_None_2 (_pal p)) by lia.
    rewrite (lookup_ge_None_2 shown) by lia. reflexivity. }
  assert (0 <= Z.of_nat i / 3 <= 255).
  { split; [apply Z.div_pos; lia|].
    apply Z.lt_succ_r. apply Z.div_lt_upper_bound; lia. }
  lia.
Qed.

(** A palette of 768 bytes put in place of the old one, all colours
    marked dirty. *)
Lemma full_palette_synced (pal : list Z) (p : Player) :
  length pal = 768%nat ->
  keeps_synced p (setDirtyColors 0 255 (set_pal pal p)).
Proof.
  intros Hpal shown Hshown (_ & Hr & _).
  destruct (setDirtyColors_pal 0 255 (set_pal pal p)) as [Hp _].
  destruct (setDirtyColors_range 0 255 (set_pal pal p)) as [Hmin Hmax].
  cbn [_palDirtyMin _palDirtyMax set_pal] in Hmin, Hmax.
  apply all_dirty_synced; [exact Hshown|rewrite Hp; exact Hpal|lia|lia].
Qed.

Lemma readPalette_length (out : list Z) (b : Stream) :
  length out = 768%nat -> length (fst (readPalette out b)) = 768%nat.
Proof.
  intros Hout. unfold readPalette, read. cbn [fst].
  rewrite length_app, length_map, length_drop, length_take. lia.
Qed.

Lemma applyDelta_length (n : nat) (p : Player) :
  length (_pal (fold_left applyDeltaAt (seq 0 n) p)) = length (_pal p).
Proof. apply (applyDelta_loop n p). Qed.

Ltac synced_step :=
  first
    [ apply keeps_synced_refl
    | apply keeps_synced_fields; reflexivity
    | eapply keeps_synced_trans; [|apply setDirtyColors_synced; lia] ].

Lemma set_dst_pixels_synced (px : list Z) (p : Player) :
  keeps_synced p (set_dst_pixels px p).
Proof.
  unfold set_dst_pixels; case_match; apply keeps_synced_fields; reflexivity.
Qed.

Lemma pal_ok_refl (p : Player) : pal_ok p p.
Proof. intros H; split; [exact H|apply keeps_synced_refl]. Qed.

Lemma pal_ok_trans (p q r : Player) : pal_ok p q -> pal_ok q r -> pal_ok p r.
Proof.
  intros H1 H2 Hl. destruct (H1 Hl) as [Hq K1]. destruct (H2 Hq) as [Hr K2].
  split; [exact Hr|eapply keeps_synced_trans; eauto].
Qed.

Lemma pal_ok_fields (p p' : Player) :
  _pal p' = _pal p -> _palDirtyMin p' = _palDirtyMin p ->
  _palDirtyMax p' = _palDirtyMax p -> pal_ok p p'.
Proof.
  intros Hp Hmin Hmax Hl. split; [congruence|].
  apply keeps_synced_fields; assumption.
Qed.

Lemma set_dst_pixels_pal_ok (px : list Z) (p : Player) :
  pal_ok p (set_dst_pixels px p).
Proof. unfold set_dst_pixels; case_match; apply pal_ok_fields; reflexivity. Qed.

Lemma pal_ok_full (pal : list Z) (p : Player) :
  length pal = 768%nat -> pal_ok p (setDirtyColors 0 255 (set_pal pal p)).
Proof.
  intros Hpal _. split; [|apply full_palette_synced; exact Hpal].
  destruct (setDirtyColors_pal 0 255 (set_pal pal p)) as [-> _]. exact Hpal.
Qed.

Lemma handleNewPalette_pal_ok (subSize : Z) (b b' : Stream) (p p' : Player) :
  handleNewPalette subSize b p = Ok (b', p') -> pal_ok p p'.
Proof.
  unfold handleNewPalette, assert. intros H.
  destruct (0x300 <=? subSize); cbn [bind] in H; [|discriminate].
  destruct (_skipPalette p); [inversion H; subst; apply pal_ok_refl|].
  pose proof (readPalette_length (_pal p) b) as Hrl.
  destruct (readPalette (_pal p) b) as [pal b1]. inversion H; subst.
  intros Hl. apply pal_ok_full; auto.
Qed.

Lemma handleAnimHeader_pal_ok (subSize : Z) (b b' : Stream) (p p' : Player) :
  handleAnimHeader subSize b p = Ok (b', p') -> pal_ok p p'.
Proof.
  unfold handleAnimHeader, assert. intros H.
  destruct (0x300 + 6 <=? subSize); cbn [bind] in H; [|discriminate].
  destruct (readUint16LE b) as [v1 b1]. destruct (readUint16LE b1) as [n b2].
  destruct (readUint16LE b2) as [v3 b3].
  change (_skipPalette (set_nbframes n p)) with (_skipPalette p) in H.
  destruct (_skipPalette p);
    [inversion H; subst; apply pal_ok_fields; reflexivity|].
  change (_pal (set_nbframes n p)) with (_pal p) in H.
  pose proof (readPalette_length (_pal p) b3) as Hrl.
  destruct (readPalette (_pal p) b3) as [pal b4]. inversion H; subst.
  intros Hl. eapply pal_ok_trans; [|apply pal_ok_full; auto|exact Hl].
  apply pal_ok_fields; reflexivity.
Qed.

Lemma handleDeltaPalette_pal_ok (subSize : Z) (b b' : Stream) (p p' : Player) :
  handleDeltaPalette subSize b p = Ok (b', p') -> pal_ok p p'.
Proof.
  unfold handleDeltaPalette. intros H.
  destruct (subSize =? 0x300 * 3 + 4); [|destruct (subSize =? 6)].
  - destruct (readUint16LE b) as [v1 b1]. destruct (readUint16LE b1) as [v2 b2].
    destruct (fold_left readDeltaAt _ _) as [b3 dp].
    pose proof (readPalette_length (_pal p) b3) as Hrl.
    destruct (readPalette (_pal p) b3) as [pal b4].
    apply (f_equal (fun r => match r with Ok (_, q) => q | _ => p end)) in H.
    cbv beta iota in H. subst p'.
    intros Hl. eapply pal_ok_trans;
      [|apply (pal_ok_full pal (set_deltaPal dp p)); auto|exact Hl].
    apply pal_ok_fields; reflexivity.
  - destruct (readUint16LE b) as [v1 b1]. destruct (readUint16LE b1) as [v2 b2].
    destruct (readUint16LE b2) as [v3 b3].
    apply (f_equal (fun r => match r with Ok (_, q) => q | _ => p end)) in H.
    cbv beta iota in H. subst p'.
    intros Hl.
    pose proof (applyDelta_loop 768 p) as HL. cbv zeta in HL.
    change (Pos.to_nat 768) with 768%nat.
    set (q := fold_left applyDeltaAt (seq 0 768) p) in *.
    destruct HL as (Hlen & _ & Hmin & Hmax & _).
    split.
    + destruct (setDirtyColors_pal 0 255 q) as [-> _]. congruence.
    + intros shown Hshown (_ & Hr & _).
      destruct (setDirtyColors_pal 0 255 q) as [Hp1 _].
      destruct (setDirtyColors_range 0 255 q) as [Hr1 Hr2].
      apply all_dirty_synced; [exact Hshown|rewrite Hp1; congruence|lia|lia].
  - discriminate.
Qed.

Ltac ok_inv :=
  repeat match goal with
    | H : Ok _ = Ok _ |- _ => inversion H; subst; clear H
    | H : Fatal _ = Ok _ |- _ => discriminate H
    | H : Spin = Ok _ |- _ => discriminate H
    | H : error _ = Ok _ |- _ => discriminate H
    | H : bind ?m _ = Ok _ |- _ =>
        let E := fresh "E" in destruct m eqn:E; cbn [bind] in H
    | H : (let '(_, _) := ?x in _) = Ok _ |- _ =>
        let E := fresh "E" in destruct x eqn:E
    | H : (if ?c then _ else _) = Ok _ |- _ =>
        let E := fresh "E" in destruct c eqn:E
    | H : match ?x with _ => _ end = Ok _ |- _ =>
        let E := fresh "E" in destruct x eqn:E
    end.

Ltac pal_step :=
  first
    [ apply pal_ok_refl
    | apply pal_ok_fields; reflexivity
    | eapply pal_ok_trans; [|apply set_dst_pixels_pal_ok] ].

Lemma handleStore_pal_ok (subSize : Z) (b b' : Stream) (p p' : Player) :
  handleStore subSize b p = Ok (b', p') -> pal_ok p p'.
Proof. unfold handleStore, assert. intros H. ok_inv; repeat pal_step. Qed.

Lemma handleFetch_pal_ok (subSize : Z) (b b' : Stream) (p p' : Player) :
  handleFetch subSize b p = Ok (b', p') -> pal_ok p p'.
Proof. unfold handleFetch, assert. intros H. ok_inv; repeat pal_step. Qed.

Lemma decodeCodec_pal_ok (codec : Z) (src : list Z) (left top width height : Z)
    (p p' : Player) :
  decodeCodec codec src left top width height p = Ok p' -> pal_ok p p'.
Proof.
  unfold decodeCodec. intros H. ok_inv; repeat pal_step;
    unfold set_dst_pixels; case_match; apply pal_ok_fields; reflexivity.
Qed.

Lemma storeFrame_pal_ok (p : Player) : pal_ok p (storeFrame p).
Proof. unfold storeFrame; case_match; repeat pal_step. Qed.

Lemma decodeFrameObject_pal_ok (codec : Z) (src : list Z)
    (left top width height : Z) (p p' : Player) :
  decodeFrameObject codec src left top width height p = Ok p' -> pal_ok p p'.
Proof.
  unfold decodeFrameObject. intros H.
  destruct (selectTarget width height p) as [q|] eqn:Es;
    [|ok_inv; apply pal_ok_refl].
  assert (Hq : _pal q = _pal p /\ _palDirtyMin q = _palDirtyMin p /\
               _palDirtyMax q = _palDirtyMax p).
  { unfold selectTarget in Es.
    repeat match type of Es with
           | (if ?c then _ else _) = Some _ => destruct c
           end; try discriminate; inversion Es; subst; clear Es;
      try case_match; simpl; auto. }
  destruct Hq as (Hp & Hmin & Hmax).
  destruct (decodeCodec _ _ _ _ _ _ _) as [p1| |] eqn:Ec; cbn [bind] in H;
    ok_inv.
  apply decodeCodec_pal_ok in Ec.
  eapply pal_ok_trans; [|apply storeFrame_pal_ok].
  eapply pal_ok_trans; [|exact Ec].
  case_match; apply pal_ok_fields; simpl; assumption.
Qed.

Lemma handleFrameObject_pal_ok (subSize : Z) (b b' : Stream) (p p' : Player) :
  handleFrameObject subSize b p = Ok (b', p') -> pal_ok p p'.
Proof.
  unfold handleFrameObject, assert. intros H. ok_inv; repeat pal_step.
  eapply decodeFrameObject_pal_ok; eauto.
Qed.

Lemma handleZlibFrameObject_pal_ok (subSize : Z) (b b' : Stream) (p p' : Player) :
  handleZlibFrameObject subSize b p = Ok (b', p') -> pal_ok p p'.
Proof.
  unfold handleZlibFrameObject. intros H. ok_inv; repeat pal_step.
  eapply decodeFrameObject_pal_ok; eauto.
Qed.

Lemma handleSoundFrame_pal_ok (subSize : Z) (b : Stream) (p : Player) :
  pal_ok p (snd (handleSoundFrame subSize b p)).
Proof.
  unfold handleSoundFrame, handleSoundBuffer, appendData.
  repeat match goal with
         | |- context [let '(_, _) := ?x in _] => destruct x
         end.
  simpl. apply pal_ok_fields; reflexivity.
Qed.

Lemma handleTextResource_pal_ok (subType subSize : Z) (b b' : Stream)
    (p p' : Player) :
  handleTextResource subType subSize b p = Ok (b', p') -> pal_ok p p'.
Proof. unfold handleTextResource. intros H. ok_inv; repeat pal_step. Qed.

Lemma handleIACT_DIG_pal_ok (fuel : nat) (subSize userId index nbframes bsize : Z)
    (b b' : Stream) (p p' : Player) :
  handleIACT_DIG fuel subSize userId index nbframes bsize b p = Ok (b', p') ->
  pal_ok p p'.
Proof.
  unfold handleIACT_DIG, iactTable_set, diMUSE, debugC. intros H.
  ok_inv; apply pal_ok_fields; reflexivity.
Qed.

Lemma handleIACT_pal_ok (fuel : nat) (subSize : Z) (b b' : Stream)
    (p p' : Player) :
  handleIACT fuel subSize b p = Ok (b', p') -> pal_ok p p'.
Proof.
  unfold handleIACT, assert. intros H. ok_inv; repeat pal_step;
    eapply handleIACT_DIG_pal_ok; eauto.
Qed.

Lemma handleSubChunk_pal_ok (fuel : nat) (subType subSize : Z) (b b' : Stream)
    (p p' : Player) :
  handleSubChunk fuel subType subSize b p = Ok (b', p') -> pal_ok p p'.
Proof.
  unfold handleSubChunk. intros H.
  repeat match type of H with
         | (if ?c then _ else _) = Ok _ => destruct c eqn:?
         end;
    eauto using handleNewPalette_pal_ok, handleFrameObject_pal_ok,
      handleZlibFrameObject_pal_ok, handleTextResource_pal_ok,
      handleDeltaPalette_pal_ok, handleIACT_pal_ok, handleStore_pal_ok,
      handleFetch_pal_ok.
  - inversion H. pose proof (handleSoundFrame_pal_ok subSize b p) as K.
    rewrite H1 in K. exact K.
  - ok_inv. apply pal_ok_refl.
  - ok_inv; case_match; apply pal_ok_fields; reflexivity.
  - discriminate.
Qed.

Lemma handleFrame_loop_pal_ok (fuel : nat) :
  forall (frameSize : Z) (b b' : Stream) (p p' : Player),
    handleFrame_loop fuel frameSize b p = Ok (b', p') -> pal_ok p p'.
Proof.
  assert (Hstep : forall fuel frameSize b p fs' b' p',
             handleFrame_step fuel frameSize b p = Ok (fs', b', p') ->
             pal_ok p p').
  { intros f frameSize b p fs' b' p' H. unfold handleFrame_step in H.
    destruct (readChunkHeader b) as [[subType subSize] b1].
    destruct (handleSubChunk f subType subSize b1 p) as [[b2 p2]| |] eqn:Eh;
      cbn [bind] in H; try discriminate.
    apply handleSubChunk_pal_ok in Eh.
    destruct (negb (Z.land subSize 1 =? 0)); inversion H; subst; exact Eh. }
  induction fuel as [|fuel IH]; intros frameSize b b' p p' H; simpl in H.
  - destruct (0 <? frameSize); [discriminate|].
    inversion H; subst. apply pal_ok_refl.
  - destruct (0 <? frameSize); [|inversion H; subst; apply pal_ok_refl].
    destruct (handleFrame_step fuel frameSize b p) as [[[fs1 b1] p1]| |] eqn:Es;
      cbn [bind] in H; try discriminate.
    eapply pal_ok_trans; [eapply Hstep; eauto|eapply IH; eauto].
Qed.

Lemma handleFrame_pal_ok (fuel : nat) (frameSize : Z) (b b' : Stream)
    (p p' : Player) :
  handleFrame fuel frameSize b p = Ok (b', p') -> pal_ok p p'.
Proof.
  unfold handleFrame. intros H.
  set (p0 := if _insanity (set_skipNext false p)
             then set_insane (procPreRendering (insane (set_skipNext false p)))
                    (set_skipNext false p)
             else set_skipNext false p) in H.
  assert (K0 : pal_ok p p0)
    by (unfold p0; case_match; apply pal_ok_fields; reflexivity).
  destruct (handleFrame_loop fuel frameSize b p0) as [[b1 p1]| |] eqn:El;
    cbn [bind] in H; try discriminate.
  apply handleFrame_loop_pal_ok in El.
  set (p2 := if _insanity p1
             then let '(ins, px) :=
                    procPostRendering (dst_pixels p1) (_frame p1)
                      (_nbframes p1 - 1) (insane p1) in
                  set_dst_pixels px (set_insane ins p1)
             else p1) in H.
  assert (K2 : pal_ok p1 p2).
  { unfold p2. destruct (_insanity p1); [|apply pal_ok_refl].
    destruct (procPostRendering _ _ _ _) as [ins px].
    eapply pal_ok_trans; [|apply set_dst_pixels_pal_ok].
    apply pal_ok_fields; reflexivity. }
  assert (K3 : pal_ok p2 p').
  { unfold updateScreen in H.
    destruct (negb (_width p2 =? 0) && negb (_height p2 =? 0));
      inversion H; subst; apply pal_ok_fields; reflexivity. }
  eapply pal_ok_trans; [exact K0|]. eapply pal_ok_trans; [exact El|].
  eapply pal_ok_trans; [exact K2|exact K3].
Qed.

Lemma applySeek_pal_ok (millis : Z) (p p' : Player) :
  applySeek millis p = Ok p' -> pal_ok p p'.
Proof.
  unfold applySeek. intros H.
  destruct (0 <=? _seekPos p); [|inversion H; subst; apply pal_ok_refl].
  match type of H with
  | bind ?m _ = _ => destruct m as [p1| |] eqn:Em; cbn [bind] in H;
                     try discriminate
  end.
  assert (K1 : pal_ok p p1).
  { destruct (0 <? String.length _)%nat.
    - destruct (openFile _) as [bytes|]; [|discriminate].
      destruct (readUint32BE _) as [v1 b1]. destruct (readUint32BE b1) as [sz b2].
      match type of Em with
      | bind ?m _ = _ => destruct m as [p2| |] eqn:Em2; cbn [bind] in Em;
                         try discriminate
      end.
      inversion Em; subst; clear Em.
      eapply pal_ok_trans; [|apply pal_ok_fields; reflexivity].
      cbn [_seekPos set_baseSize set_base set_smixer] in Em2.
      destruct (0 <? _seekPos p).
      + unfold assert in Em2.
        destruct (8 <? _seekPos p); cbn [bind] in Em2; [|discriminate].
        destruct (readChunkHeader b2) as [[subType subSize] b3].
        destruct (subType =? TAG_AHDR); cbn [bind] in Em2; [|discriminate].
        destruct (handleAnimHeader _ _ _) as [[b4 p4]| |] eqn:Eh;
          cbn [bind] in Em2; try discriminate.
        apply handleAnimHeader_pal_ok in Eh. inversion Em2; subst.
        eapply pal_ok_trans; [apply pal_ok_fields; reflexivity|].
        eapply pal_ok_trans; [exact Eh|apply pal_ok_fields; reflexivity].
      + unfold tryCmpFile, assert in Em2.
        destruct (has_dot _); cbn [bind] in Em2; [|discriminate].
        destruct (compressedFileOpens _); inversion Em2; subst;
          apply pal_ok_fields; reflexivity.
    - inversion Em; subst. apply pal_ok_fields; reflexivity. }
  destruct (_base p1); [|discriminate]. inversion H; subst.
  eapply pal_ok_trans; [exact K1|apply pal_ok_fields; reflexivity].
Qed.

Lemma parseNextFrame_pal_ok (fuel : nat) (millis : Z) (p p' : Player) :
  parseNextFrame fuel millis p = Ok p' -> pal_ok p p'.
Proof.
  unfold parseNextFrame. intros H.
  destruct (applySeek millis p) as [p1| |] eqn:Es; cbn [bind] in H;
    try discriminate.
  apply applySeek_pal_ok in Es.
  eapply pal_ok_trans; [exact Es|].
  destruct (_base p1) as [b|]; [|discriminate].
  destruct (readChunkHeader b) as [[subType subSize] b1].
  destruct (_ <=? pos b1);
    [inversion H; subst; apply pal_ok_fields; reflexivity|].
  match type of H with
  | bind ?m _ = _ => destruct m as [[b2 p2]| |] eqn:Em; cbn [bind] in H;
                     try discriminate
  end.
  inversion H; subst; clear H.
  assert (K : pal_ok (set_base (Some b1) p1) p2).
  { destruct (subType =? TAG_AHDR).
    - eapply handleAnimHeader_pal_ok; exact Em.
    - destruct (subType =? TAG_FRME); [|discriminate].
      eapply handleFrame_pal_ok; exact Em. }
  eapply pal_ok_trans;
    [apply (pal_ok_fields p1 (set_base (Some b1) p1)); reflexivity|].
  eapply pal_ok_trans; [exact K|apply pal_ok_fields; reflexivity].
Qed.

(** * The palette handed to the system *)

(** X9: decoding the next frame never loses a change of palette: a byte of
    the palette that differs from what the system shows belongs to a
    colour inside the dirty range, before and after. *)
Theorem parseNextFrame_synced (fuel : nat) (millis : Z) (shown : list Z)
    (p p' : Player) :
  length shown = 768%nat -> pal_synced shown p ->
  parseNextFrame fuel millis p = Ok p' ->
  pal_synced shown p'.
Proof.
  intros Hs Hp H. apply parseNextFrame_pal_ok in H.
  destruct H as [_ K]; [destruct Hp; congruence|].
  apply K; assumption.
Qed.


(** X11: [setPaletteValue] for a colour of the palette: its three bytes read
    back, no other byte changes, and the colour is inside the dirty
    range, so that the next display step hands it over. *)
Theorem setPaletteValue_readback (n r g b : Z) (p : Player) :
  0 <= n < 256 -> length (_pal p) = 768%nat ->
  let p' := setPaletteValue n r g b p in
  _pal p' !! Z.to_nat (n * 3) = Some r /\
  _pal p' !! Z.to_nat (n * 3 + 1) = Some g /\
  _pal p' !! Z.to_nat (n * 3 + 2) = Some b /\
  (forall i : nat, Z.of_nat i / 3 <> n -> _pal p' !! i = _pal p !! i) /\
  _palDirtyMin p' <= n <= _palDirtyMax p' /\
  keeps_synced p p'.
Proof.
  intros Hn Hlen. cbv zeta. unfold setPaletteValue.
  set (pal := <[Z.to_nat (n * 3 + 2) := b]> _).
  destruct (setDirtyColors_pal n n (set_pal pal p)) as [Hp _].
  destruct (setDirtyColors_range n n (set_pal pal p)) as [Hmin Hmax].
  rewrite Hp. cbn [_pal set_pal _palDirtyMin _palDirtyMax] in *.
  assert (Hother : forall i : nat, Z.of_nat i / 3 <> n -> pal !! i = _pal p !! i).
  { intros i Hi. unfold pal.
    assert (Hne : forall k, 0 <= k < 3 -> Z.to_nat (n * 3 + k) <> i).
    { intros k Hk <-. apply Hi. rewrite Z2Nat.id by lia.
      symmetry. apply (Z.div_unique _ 3 n k); lia. }
    rewrite !list_lookup_insert_ne by (apply Hne; lia). reflexivity. }
  split; [|split; [|split; [|split; [exact Hother|split; [lia|]]]]].
  - unfold pal. replace (n * 3 + 0) with (n * 3) by lia.
    rewrite !list_lookup_insert_ne by lia.
    apply list_lookup_insert_eq. lia.
  - unfold pal. rewrite list_lookup_insert_ne by lia.
    apply list_lookup_insert_eq. rewrite length_insert. lia.
  - unfold pal. apply list_lookup_insert_eq. rewrite !length_insert. lia.
  - intros shown Hshown (Hl & Hr & Hs). unfold pal_synced.
    rewrite Hp, Hmin, Hmax. cbn [_pal set_pal].
    split; [unfold pal; rewrite !length_insert; exact Hl|]. split; [lia|].
    intros i Hi.
    destruct (decide (Z.of_nat i / 3 = n)) as [->|Hne]; [lia|].
    rewrite Hother in Hi by exact Hne. specialize (Hs i Hi). lia.
Qed.

(** X12: [setPalette] puts the 768 bytes it is given in place of the palette
    and marks all 256 colours dirty. *)
Theorem setPalette_all_dirty (palette : list Z) (p : Player) :
  (768 <= length palette)%nat -> length (_pal p) = 768%nat ->
  let p' := setPalette palette p in
  _pal p' = take 768 palette /\
  _palDirtyMin p' <= 0 /\ 255 <= _palDirtyMax p' /\
  keeps_synced p p'.
Proof.
  intros Hpal Hlen. cbv zeta. unfold setPalette.
  set (pal := memcpy (_pal p) palette 768).
  assert (Hm : pal = take 768 palette).
  { unfold pal, memcpy. change (Z.to_nat 768) with 768%nat.
    rewrite drop_ge by (rewrite length_take; lia). apply app_nil_r. }
  destruct (setDirtyColors_pal 0 255 (set_pal pal p)) as [Hp _].
  destruct (setDirtyColors_range 0 255 (set_pal pal p)) as [Hmin Hmax].
  rewrite Hp, Hmin, Hmax. cbn [_pal set_pal].
  split; [exact Hm|]. split; [lia|]. split; [lia|].
  apply full_palette_synced. rewrite Hm, length_take. lia.
Qed.

Lemma take_agree {A : Type} (n : nat) (l1 l2 : list A) :
  length l1 = length l2 ->
  (forall i : nat, (i < n)%nat -> l1 !! i = l2 !! i) -> take n l1 = take n l2.
Proof.
  intros Hl H. apply list_eq. intros i.
  destruct (decide (i < n)%nat) as [Hi|Hi].
  - rewrite !lookup_take_lt by lia. apply H. exact Hi.
  - rewrite !lookup_take_ge by lia. reflexivity.
Qed.

Lemma drop_agree {A : Type} (n : nat) (l1 l2 : list A) :
  (forall i : nat, (n <= i)%nat -> l1 !! i = l2 !! i) -> drop n l1 = drop n l2.
Proof.
  intros H. apply list_eq. intros i. rewrite !lookup_drop. apply H. lia.
Qed.

(** What the display step pushes makes the palette shown the player's. *)
Lemma pushPalette_synced (shown : list Z) (p : Player) :
  pal_synced shown p ->
  pushPalette
    (if _palDirtyMin p <=? _palDirtyMax p
     then Some (_palDirtyMin p, _palDirtyMax p - _palDirtyMin p + 1)
     else None) (_pal p) shown = _pal p.
Proof.
  intros (Hl & Hr & Hs).
  assert (Heq : forall i : nat,
            ~ (_palDirtyMin p <= Z.of_nat i / 3 <= _palDirtyMax p) ->
            shown !! i = _pal p !! i).
  { intros i Hi. destruct (decide (_pal p !! i = shown !! i)) as [e|n];
      [symmetry; exact e|]. exfalso. apply Hi, Hs, n. }
  destruct (_palDirtyMin p <=? _palDirtyMax p) eqn:Ed; unfold pushPalette.
  - apply Z.leb_le in Ed.
    set (a := Z.to_nat (3 * _palDirtyMin p)).
    replace (Z.to_nat (3 * (_palDirtyMax p - _palDirtyMin p + 1)))
      with (Z.to_nat (3 * (_palDirtyMax p + 1)) - a)%nat by lia.
    replace (_palDirtyMin p + (_palDirtyMax p - _palDirtyMin p + 1))
      with (_palDirtyMax p + 1) by lia.
    set (c := Z.to_nat (3 * (_palDirtyMax p + 1))).
    assert (Hac : (a <= c)%nat) by lia.
    rewrite (take_agree a shown (_pal p)); [|congruence|].
    + rewrite (drop_agree c shown (_pal p)).
      * rewrite <- (take_drop a (_pal p)) at 4.
        f_equal. rewrite <- (take_drop (c - a) (drop a (_pal p))) at 2.
        f_equal. rewrite drop_drop. f_equal. lia.
      * intros i Hi. apply Heq. intros [_ Hc].
        assert (3 * (_palDirtyMax p + 1) <= Z.of_nat i) by lia.
        assert (_palDirtyMax p + 1 <= Z.of_nat i / 3)
          by (apply Z.div_le_lower_bound; lia).
        lia.
    + intros i Hi. apply Heq. intros [Hc _].
      assert (Z.of_nat i < 3 * _palDirtyMin p) by lia.
      assert (Z.of_nat i / 3 < _palDirtyMin p)
        by (apply Z.div_lt_upper_bound; lia).
      lia.
  - apply Z.leb_gt in Ed. apply list_eq. intros i. apply Heq. lia.
Qed.

(** The palette half of the display step. *)
Lemma tick_present_palette (due skipFrame : bool) (skipped : Z) (p : Player) :
  let dirty := _palDirtyMin p <=? _palDirtyMax p in
  let '(p', _, out) := tick_present due skipFrame skipped p in
  o_palette out
  = (if dirty
     then Some (_palDirtyMin p, _palDirtyMax p - _palDirtyMin p + 1)
     else None) /\
  _pal p' = _pal p /\
  _palDirtyMin p' = (if dirty then 256 else _palDirtyMin p) /\
  _palDirtyMax p' = (if dirty then -1 else _palDirtyMax p).
Proof.
  cbv zeta. unfold tick_present.
  destruct (_palDirtyMin p <=? _palDirtyMax p).
  - destruct (_updateNeeded _ && negb false); repeat split; reflexivity.
  - destruct (if skipFrame then _ else _) as [sf sk].
    destruct (_updateNeeded p && negb sf); repeat split; reflexivity.
Qed.

(** X13: a turn of the play loop brings the palette shown up to date: if no
    change of palette was lost before the turn, the range pushed by the
    display step makes the palette shown equal to the player's, and a
    second display step would find nothing to push. *)
Theorem tick_palette_shown (fuel : nat) (i : TickInput) (skipped : Z)
    (shown : list Z) (p p1 : Player) (skipFrame due : bool) :
  length shown = 768%nat -> pal_synced shown p ->
  tick_decode fuel i p = Ok (p1, skipFrame, due) ->
  let '(p2, _, out) := tick_present due skipFrame skipped p1 in
  pushPalette (o_palette out) (_pal p1) shown = _pal p2 /\
  pal_synced (_pal p2) p2 /\
  forall (due' skipFrame' : bool) (skipped' : Z),
    o_palette (snd (tick_present due' skipFrame' skipped' p2)) = None.
Proof.
  intros Hshown Hp Hd.
  assert (Hp1 : pal_synced shown p1).
  { unfold tick_decode in Hd.
    destruct (udiv32 _ _) as [d| |]; cbn [bind] in Hd; try discriminate.
    destruct (d <=? elapsedTime i p); [|inversion Hd; subst; exact Hp].
    destruct (udiv32 _ _) as [nx| |]; cbn [bind] in Hd; try discriminate.
    destruct (timerCallback fuel (in_millis_seek i) p) as [q| |] eqn:Et;
      cbn [bind] in Hd; try discriminate.
    inversion Hd; subst. unfold timerCallback in Et.
    apply parseNextFrame_pal_ok in Et.
    destruct Et as [_ K]; [destruct Hp; congruence|]. apply K; assumption. }
  pose proof (pushPalette_synced shown p1 Hp1) as Hpush.
  destruct Hp1 as (Hl & Hr & Hs).
  pose proof (tick_present_palette due skipFrame skipped p1) as Ht.
  cbv zeta in Ht.
  destruct (tick_present due skipFrame skipped p1) as [[p2 sk] out].
  destruct Ht as (Ho & Hpal & Hmin & Hmax).
  assert (Hempty : _palDirtyMax p2 < _palDirtyMin p2 /\
                   0 <= _palDirtyMin p2 /\ _palDirtyMax p2 <= 255).
  { rewrite Hmin, Hmax.
    destruct (_palDirtyMin p1 <=? _palDirtyMax p1) eqn:Ed; [lia|].
    apply Z.leb_gt in Ed. lia. }
  split; [rewrite Ho, Hpush; symmetry; exact Hpal|]. split.
  - split; [reflexivity|]. split; [lia|]. intros j Hj. congruence.
  - intros due' skipFrame' skipped'.
    pose proof (tick_present_palette due' skipFrame' skipped' p2) as Ht2.
    cbv zeta in Ht2.
    destruct (tick_present due' skipFrame' skipped' p2) as [[p3 sk3] out3].
    destruct Ht2 as (Ho2 & _). cbn [snd]. rewrite Ho2.
    rewrite (proj2 (Z.leb_gt (_palDirtyMin p2) (_palDirtyMax p2))) by lia.
    reflexivity.
Qed.

(** * Stored frames *)

(** X14: a frame stored on request is brought back by a fetch: while the
    frame buffer and the dimensions stay, [handleFetch] makes the first
    [_width * _height] pixels those of the time of the store and leaves
    the pixels after them alone. *)
Theorem store_fetch_round_trip (subSize : Z) (b : Stream) (p q : Player) :
  _storeFrame p = true ->
  let n := Z.to_nat (to_int32 (_width p * _height p)) in
  (n <= length (dst_pixels p))%nat ->
  _frameBuffer q = _frameBuffer (storeFrame p) ->
  _width q = _width p -> _height q = _height p ->
  6 <= subSize ->
  exists q' : Player,
    handleFetch subSize b q = Ok (b, q') /\
    take n (dst_pixels q') = take n (dst_pixels p) /\
    drop n (dst_pixels q') = drop n (dst_pixels q).
Proof.
  intros Hst n Hn Hfb Hw Hh Hsz.
  unfold storeFrame in Hfb. rewrite Hst in Hfb. cbn [_frameBuffer set_storeFrame set_frameBuffer] in Hfb.
  fold n in Hfb.
  unfold handleFetch, assert. rewrite (proj2 (Z.leb_le 6 subSize)) by lia.
  cbn [bind]. rewrite Hfb, Hw, Hh. fold n.
  eexists. split; [reflexivity|]. rewrite dst_pixels_set.
  unfold memcpy. fold n.
  set (fb := match _frameBuffer p with Some fb => fb | None => _ end).
  assert (Hlen1 : length (take n (dst_pixels p)) = n)
    by (rewrite length_take; lia).
  rewrite Hlen1.
  assert (Htake : take n (take n (dst_pixels p) ++ drop n fb) = take n (dst_pixels p)).
  { rewrite take_app_le by lia. rewrite take_take. f_equal. lia. }
  rewrite Htake, Hlen1. split.
  - rewrite take_app_le by lia. rewrite take_take. f_equal. lia.
  - rewrite drop_app_ge by lia. rewrite Hlen1, Nat.sub_diag. reflexivity.
Qed.

(** * The skip request *)

Lemma decodeFrameObject_skipNext (codec : Z) (src : list Z)
    (left_ top_ width height : Z) (p p' : Player) :
  decodeFrameObject codec src left_ top_ width height p = Ok p' ->
  _skipNext p' = _skipNext p.
Proof.
  unfold decodeFrameObject, selectTarget, decodeCodec, storeFrame. intros H.
  repeat match type of H with
  | context [if ?c then _ else _] => destruct c
  | context [match ?o with Some _ => _ | None => _ end] => destruct o
  | context [let '(_, _) := ?t in _] => destruct t
  | _ => progress cbn [bind error] in H
  end; try discriminate; inversion H; subst;
    unfold set_dst_pixels; repeat case_match; reflexivity.
Qed.

(** X15: a skip request holds for one frame object: [handleFrameObject] and
    [handleZlibFrameObject] both return with the request cleared, and a
    pending request makes them leave the cursor, the pixels, the frame
    buffer and the store request as they are. *)
Theorem frame_object_skip_once (subSize : Z) (b b' : Stream) (p p' : Player) :
  handleFrameObject subSize b p = Ok (b', p') \/
  handleZlibFrameObject subSize b p = Ok (b', p') ->
  _skipNext p' = false /\
  (_skipNext p = true ->
   b' = b /\ dst_pixels p' = dst_pixels p /\
   _frameBuffer p' = _frameBuffer p /\ _storeFrame p' = _storeFrame p).
Proof.
  intros [H|H].
  - unfold handleFrameObject, assert in H.
    destruct (14 <=? subSize); cbn [bind] in H; [|discriminate].
    destruct (_skipNext p) eqn:Es.
    + inversion H; subst. repeat split; reflexivity.
    + repeat match type of H with
      | context [let '(_, _) := ?t in _] => destruct t
      end.
      match type of H with
      | bind ?m _ = _ => destruct m as [p1| |] eqn:Ed; cbn [bind] in H;
                         try discriminate
      end.
      apply decodeFrameObject_skipNext in Ed. inversion H; subst.
      split; [congruence|discriminate].
  - unfold handleZlibFrameObject in H.
    destruct (_skipNext p) eqn:Es.
    + inversion H; subst. repeat split; reflexivity.
    + destruct (read subSize b) as [chunkBuffer b1].
      destruct (uncompress _ _) as [fobjBuffer|]; [|discriminate].
      match type of H with
      | bind ?m _ = _ => destruct m as [p1| |] eqn:Ed; cbn [bind] in H;
                         try discriminate
      end.
      apply decodeFrameObject_skipNext in Ed. inversion H; subst.
      split; [congruence|discriminate].
Qed.

(** * Compressed frame objects *)

(** X16: a compressed frame object is handled as the frame object it inflates
    to: with no skip pending, [handleZlibFrameObject] leaves the player as
    [handleFrameObject] does on the inflated bytes, header and all. *)
Theorem handleZlibFrameObject_inflated (subSize : Z) (b : Stream)
    (p : Player) (fobjBuffer : list Z) :
  _skipNext p = false ->
  uncompress (drop 4 (fst (read subSize b)))
    (READ_BE_UINT32 (fst (read subSize b)) 0) = Some fobjBuffer ->
  (14 <= length fobjBuffer)%nat ->
  Z.of_nat (length fobjBuffer) < 2 ^ 31 ->
  (r <- handleZlibFrameObject subSize b p ;; Ok (snd r))
  = (r <- handleFrameObject (Z.of_nat (length fobjBuffer))
            (mkStream fobjBuffer 0) p ;; Ok (snd r)).
Proof.
  intros Hs Hu Hlen Hmax.
  unfold handleZlibFrameObject, handleFrameObject, assert.
  rewrite Hs. destruct (read subSize b) as [chunkBuffer b1]. cbn [fst] in Hu.
  rewrite Hu.
  rewrite (proj2 (Z.leb_le 14 (Z.of_nat (length fobjBuffer)))) by lia.
  cbn [bind].
  rewrite (readUint16LE_within fobjBuffer 0) by lia.
  rewrite (readUint16LE_within fobjBuffer (0 + 2)) by lia.
  rewrite (readUint16LE_within fobjBuffer (0 + 2 + 2)) by lia.
  rewrite (readUint16LE_within fobjBuffer (0 + 2 + 2 + 2)) by lia.
  rewrite (readUint16LE_within fobjBuffer (0 + 2 + 2 + 2 + 2)) by lia.
  rewrite (readUint16LE_within fobjBuffer (0 + 2 + 2 + 2 + 2 + 2)) by lia.
  rewrite (readUint16LE_within fobjBuffer (0 + 2 + 2 + 2 + 2 + 2 + 2)) by lia.
  rewrite to_int32_id by (unfold is_int32; lia).
  rewrite read_within by lia.
  change (Z.to_nat (0 + 2 + 2 + 2 + 2 + 2 + 2 + 2)) with 14%nat.
  rewrite take_ge by (rewrite length_drop; lia).
  change (Z.to_nat 0) with 0%nat. change (Z.to_nat (0 + 2)) with 2%nat.
  change (Z.to_nat (0 + 2 + 2)) with 4%nat.
  change (Z.to_nat (0 + 2 + 2 + 2)) with 6%nat.
  change (Z.to_nat (0 + 2 + 2 + 2 + 2)) with 8%nat.
  destruct (decodeFrameObject _ _ _ _ _ _ p); reflexivity.
Qed.

(** * The audio of The Dig *)

(** X17: a block of The Dig that is taken is fed to iMUSE as it was read, on
    the sound of its buffer and with a volume between 0 and 127, and its
    index is noted for the buffer; a block that does not follow the one
    noted changes neither the calls made nor the table. *)
Theorem handleIACT_DIG_feed (fuel : nat)
    (subSize userId index nbframes bsize : Z) (b b' : Stream)
    (p p' : Player) :
  length (_iactTable p) = 4%nat ->
  handleIACT_DIG fuel subSize userId index nbframes bsize b p = Ok (b', p') ->
  exists bufId volume : Z,
    iactBuffer userId = Ok (bufId, volume) /\ 0 <= volume <= 127 /\
    ((index <> 0 /\ iactTable_get bufId p <> Ok (index - 1) /\
      imuse p' = imuse p /\ _iactTable p' = _iactTable p)
     \/
     ((index = 0 \/ iactTable_get bufId p = Ok (index - 1)) /\
      iactTable_get bufId p' = Ok index /\
      exists rest : list IMuseCall,
        imuse p' =
          FeedStream (bufId + DIMUSE_SMUSH_SOUNDID) (fst (read bsize b))
            (subSize - 18) (if nbframes - index =? 1 then 1 else 0) :: rest)).
Proof.
  unfold handleIACT_DIG. intros Htab H.
  destruct (read bsize b) as [dataBuffer b1]. cbn [fst].
  destruct (iactBuffer userId) as [[bufId volume]| |] eqn:Eb;
    cbn [bind] in H; try discriminate.
  exists bufId, volume. split; [reflexivity|].
  assert (Hvol : 0 <= volume <= 127).
  { unfold iactBuffer, error in Eb.
    repeat match type of Eb with
    | context [if ?c then _ else _] => destruct c eqn:?
    end; inversion Eb; subst; lia. }
  split; [exact Hvol|].
  assert (Hset : forall q : Player,
             iactTable_set bufId index p = Ok q ->
             imuse q = imuse p /\ iactTable_get bufId q = Ok index).
  { unfold iactTable_set, iactTable_get. intros q Hq.
    destruct ((0 <=? bufId) && (bufId <? 4)) eqn:Er; [|discriminate].
    inversion Hq; subst. split; [reflexivity|].
    cbn [_iactTable set_iactTable].
    rewrite list_lookup_insert_eq; [reflexivity|].
    apply andb_true_iff in Er. destruct Er as [Er1 Er2].
    apply Z.leb_le in Er1. apply Z.ltb_lt in Er2. lia. }
  destruct (if index =? 0 then Ok 0 else iactTable_get bufId p)
    as [last| |] eqn:El; cbn [bind] in H; try discriminate.
  destruct (index =? 0) eqn:Ei; cbn [negb andb] in H.
  - apply Z.eqb_eq in Ei. right. split; [left; exact Ei|].
    destruct (iactTable_set bufId index p) as [q| |] eqn:Eq; cbn [bind] in H;
      try discriminate.
    destruct (Hset q eq_refl) as [Hq1 Hq2].
    destruct (negb (READ_BE_UINT32 dataBuffer 0 =? TAG_iMUS)); [discriminate|].
    destruct (findStreamingSound fuel (imuse q) bufId 0) as [cur| |];
      cbn [bind] in H; try discriminate.
    match type of H with
    | bind ?m _ = _ => destruct m as [q1| |] eqn:Em; cbn [bind] in H;
                       try discriminate
    end.
    assert (Hq1' : _iactTable q1 = _iactTable q).
    { destruct (cur =? 0);
        [destruct (negb _); [discriminate|]|];
        inversion Em; subst; reflexivity. }
    inversion H; subst. split.
    + unfold iactTable_get in *. cbn [_iactTable diMUSE set_imuse].
      rewrite Hq1'. exact Hq2.
    + eexists. reflexivity.
  - apply Z.eqb_neq in Ei.
    destruct (negb (last - index =? -1)) eqn:Eo.
    + left. inversion H; subst. split; [exact Ei|].
      split; [|split; reflexivity].
      rewrite El. intros Hc. inversion Hc; subst.
      replace (index - 1 - index) with (-1) in Eo by lia. discriminate.
    + right. apply negb_false_iff, Z.eqb_eq in Eo.
      split; [right; rewrite El; f_equal; lia|].
      destruct (iactTable_set bufId index p) as [q| |] eqn:Eq; cbn [bind] in H;
        try discriminate.
      destruct (Hset q eq_refl) as [Hq1 Hq2].
      destruct (negb (diMUSEGetParam _ _ _ =? 0)); [|discriminate].
      inversion H; subst. split; [exact Hq2|]. eexists. reflexivity.
Qed.

(** * The clock of the play loop *)

Lemma to_uint32_sub_l (a b : Z) : to_uint32 (to_uint32 a - b) = to_uint32 (a - b).
Proof. unfold to_uint32, wrapU. apply Zminus_mod_idemp_l. Qed.

Lemma to_uint32_sub_r (a b : Z) : to_uint32 (a - to_uint32 b) = to_uint32 (a - b).
Proof. unfold to_uint32, wrapU. apply Zminus_mod_idemp_r. Qed.

Lemma to_uint32_add_l (a b : Z) : to_uint32 (to_uint32 a + b) = to_uint32 (a + b).
Proof. unfold to_uint32, wrapU. apply Zplus_mod_idemp_l. Qed.

Lemma to_uint32_add_r (a b : Z) : to_uint32 (a + to_uint32 b) = to_uint32 (a + b).
Proof. unfold to_uint32, wrapU. apply Zplus_mod_idemp_r. Qed.

(** X18: the time spent paused does not count: on the wall clock, a player
    paused at [t1] and resumed at [t2] sees the time elapsed less
    [t2 - t1], in 32-bit arithmetic. *)
Theorem pause_excluded_from_clock (t1 t2 : Z) (i : TickInput) (p : Player) :
  _paused p = false ->
  in_compressedActive i = false -> in_iactActive i = false ->
  elapsedTime i (unpause t2 (pause t1 p))
  = to_uint32 (elapsedTime i p - (t2 - t1)).
Proof.
  intros Hp Hc Hi. unfold pause, unpause. rewrite Hp. cbn [negb].
  cbn [_paused set_paused set_pauseStartTime].
  unfold elapsedTime. rewrite Hc, Hi.
  cbn [_insanity _pauseTime _startTime _pauseStartTime set_paused
       set_pauseStartTime set_pauseTime].
  assert (K : forall pt : Z,
    to_uint32 (to_uint32 (to_uint32 (in_millis i) - pt) - _startTime p)
    = to_uint32 (in_millis i - pt - _startTime p)).
  { intros pt. rewrite to_uint32_sub_l.
    replace (to_uint32 (in_millis i) - pt - _startTime p)
      with (to_uint32 (in_millis i) - (pt + _startTime p)) by lia.
    rewrite to_uint32_sub_l. f_equal. lia. }
  rewrite !K.
  set (m := in_millis i). set (st := _startTime p). set (pt := _pauseTime p).
  assert (R : to_uint32
                (m - to_uint32 (pt + to_uint32 (to_uint32 t2 - to_uint32 t1))
                 - st)
              = to_uint32 (to_uint32 (m - pt - st) - (t2 - t1))).
  { replace (m - to_uint32 (pt + to_uint32 (to_uint32 t2 - to_uint32 t1)) - st)
      with (m - st - to_uint32 (pt + to_uint32 (to_uint32 t2 - to_uint32 t1)))
      by lia.
    rewrite to_uint32_sub_r, to_uint32_sub_l.
    replace (m - st - (pt + to_uint32 (t2 - to_uint32 t1)))
      with (m - st - pt - to_uint32 (t2 - to_uint32 t1)) by lia.
    rewrite to_uint32_sub_r.
    replace (m - st - pt - (t2 - to_uint32 t1))
      with (m - st - pt - t2 + to_uint32 t1) by lia.
    rewrite to_uint32_add_r, to_uint32_sub_l. f_equal. lia. }
  destruct (_insanity p); exact R.
Qed.

(** * Seeking *)

Lemma applySeek_same_file (millis : Z) (b : Stream) (p : Player) :
  0 <= _seekPos p -> _seekFile p = EmptyString -> _base p = Some b ->
  applySeek millis p
  = Ok (set_seekPos (-1)
          (set_startTime (to_uint32 millis)
             (set_startFrame (_seekFrame p)
                (set_frame (_seekFrame p)
                   (set_base (Some (seek (to_int32 (_seekPos p + 8)) b))
                      (set_skipPalette true
                         (set_smixer (smixer_stop (_smixer p)) p))))))).
Proof.
  intros Hpos Hf Hb. unfold applySeek.
  rewrite (proj2 (Z.leb_le 0 (_seekPos p))) by lia.
  cbv zeta.
  change (_seekFile (set_smixer (smixer_stop (_smixer p)) p)) with (_seekFile p).
  rewrite Hf. change (0 <? String.length EmptyString)%nat with false.
  cbv iota. cbn [bind].
  change (_base (set_skipPalette true (set_smixer (smixer_stop (_smixer p)) p)))
    with (_base p).
  rewrite Hb. reflexivity.
Qed.

Lemma applySeek_idle (millis : Z) (p : Player) :
  _seekPos p < 0 -> applySeek millis p = Ok p.
Proof.
  intros H. unfold applySeek.
  rewrite (proj2 (Z.leb_gt 0 (_seekPos p))) by lia. reflexivity.
Qed.

(** X19: a seek within the same file, asked for by [seekSan], is carried out
    once when the next frame is parsed: the sound is stopped, the cursor
    is put 8 bytes behind the place asked for, frame counter and clock
    start again from the frame given, the palette chunks that follow are
    skipped, and no seek is pending afterwards. *)
Theorem seekSan_applySeek (pos_ contFrame millis : Z) (b : Stream)
    (p : Player) :
  0 <= pos_ -> _base p = Some b ->
  exists p' : Player,
    applySeek millis (seekSan None pos_ contFrame p) = Ok p' /\
    _base p' = Some (seek (to_int32 (pos_ + 8)) b) /\
    _frame p' = to_uint32 contFrame /\
    _startFrame p' = to_uint32 contFrame /\
    _startTime p' = to_uint32 millis /\
    _pauseTime p' = 0 /\
    _skipPalette p' = true /\
    _smixer p' = smixer_stop (_smixer p) /\
    forall millis' : Z, applySeek millis' p' = Ok p'.
Proof.
  intros Hpos Hb.
  eexists. split.
  - apply (applySeek_same_file millis b); [exact Hpos|reflexivity|exact Hb].
  - repeat (split; [reflexivity|]).
    intros millis'. apply applySeek_idle. cbn [_seekPos set_seekPos]. lia.
Qed.

(** * The frame loop *)

(** X20: one turn of the loop of [handleFrame] takes off [frameSize] what it
    moves the cursor by: the header of 8 bytes, the size of the
    sub-chunk and its pad byte. A sub-chunk of non-negative size thus
    brings the loop nearer its end. *)
Theorem handleFrame_step_budget (fuel : nat) (frameSize : Z) (b : Stream)
    (p : Player) (subType subSize : Z) (b1 : Stream) (frameSize' : Z)
    (b' : Stream) (p' : Player) :
  readChunkHeader b = (subType, subSize, b1) ->
  pos b1 = pos b + 8 -> 0 <= pos b ->
  0 <= subSize -> pos b1 + subSize < 2 ^ 31 - 1 ->
  0 < frameSize -> is_int32 frameSize ->
  handleFrame_step fuel frameSize b p = Ok (frameSize', b', p') ->
  frameSize' = frameSize - (subSize + 8) - (if Z.odd subSize then 1 else 0) /\
  frameSize' + pos b' = frameSize + pos b /\
  frameSize' < frameSize.
Proof.
  intros Hh Hp1 Hp0 Hs Hmax Hf Hfi H.
  pose proof (handleFrame_step_pos _ _ _ _ _ _ _ _ _ _ Hh H) as Hpos.
  rewrite (to_int32_id (pos b1)) in Hpos by (unfold is_int32; lia).
  rewrite to_int32_id in Hpos by (unfold is_int32; lia).
  unfold handleFrame_step in H. rewrite Hh in H.
  destruct (handleSubChunk fuel subType subSize b1 p) as [[b2 p2]| |];
    cbn [bind] in H; try discriminate.
  rewrite land_1_odd in H. unfold is_int32 in Hfi.
  rewrite (to_int32_id (subSize + 8)) in H by (unfold is_int32; lia).
  rewrite (to_int32_id (frameSize - (subSize + 8))) in H
    by (unfold is_int32; lia).
  destruct (Z.odd subSize); cbn [negb] in H.
  - rewrite to_int32_id in H by (unfold is_int32; lia).
    inversion H; subst. lia.
  - inversion H; subst. lia.
Qed.

(** X21: a sub-chunk that gives its size as -8 and is handled without error
    stops the loop of [handleFrame] for good: the audio chunk of a film
    played with a compressed sound file is not read, the turn takes
    nothing off [frameSize] and puts the cursor back on the header of
    the same sub-chunk, so that no number of turns ends the loop. *)
Theorem handleFrame_loop_stuck (fuel : nat) (frameSize : Z) (b : Stream)
    (p : Player) :
  0 < frameSize -> is_int32 frameSize ->
  0 <= pos b -> pos b + 8 < 2 ^ 31 ->
  readChunkHeader b = (TAG_PSAD, -8, skip 8 b) ->
  _compressedFileMode p = true ->
  handleFrame_loop fuel frameSize b p = Spin.
Proof.
  intros Hf Hfi Hq Hmax Hh Hc.
  assert (Hstep : forall fuel' : nat,
            handleFrame_step fuel' frameSize b p = Ok (frameSize, b, p)).
  { intros fuel'. unfold handleFrame_step. rewrite Hh.
    unfold handleSubChunk.
    change (TAG_PSAD =? TAG_NPAL) with false.
    change (TAG_PSAD =? TAG_FOBJ) with false.
    change (TAG_PSAD =? TAG_ZFOB) with false.
    change (TAG_PSAD =? TAG_PSAD) with true.
    rewrite andb_false_r. cbv iota. rewrite Hc. cbn [negb bind].
    change (to_int32 (-8 + 8)) with 0. rewrite Z.sub_0_r.
    rewrite (to_int32_id frameSize) by exact Hfi.
    change (Z.land (-8) 1 =? 0) with true. cbn [negb].
    unfold skip, seek, pos in *. cbn [s_pos s_bytes].
    rewrite (to_int32_id (s_pos b + 8)) by (unfold is_int32; lia).
    rewrite to_int32_id by (unfold is_int32; lia).
    replace (s_pos b + 8 + -8) with (s_pos b) by lia.
    destruct b; reflexivity. }
  induction fuel as [|fuel IH]; cbn [handleFrame_loop];
    rewrite (proj2 (Z.ltb_lt 0 frameSize)) by lia; [reflexivity|].
  rewrite Hstep. cbn [bind]. exact IH.
Qed.

(** * The animation header *)

(** X22: the payload of the animation header is a 16-bit version, the number
    of frames as 16 bits, little-endian, two more bytes, and the palette
    of 768 bytes: [handleAnimHeader] takes the frame count from bytes 2
    and 3 and, unless palettes are being skipped, the palette from byte 6
    on, marking all colours dirty; with palettes skipped it stops behind
    the sixth byte. *)
Theorem handleAnimHeader_parse (subSize : Z) (bytes : list Z) (q : Z)
    (p : Player) :
  0x300 + 6 <= subSize -> 0 <= q -> q + 774 <= Z.of_nat (length bytes) ->
  length (_pal p) = 768%nat ->
  exists (b' : Stream) (p' : Player),
    handleAnimHeader subSize (mkStream bytes q) p = Ok (b', p') /\
    _nbframes p' = READ_LE_UINT16 bytes (Z.to_nat (q + 2)) /\
    (_skipPalette p = true ->
     b' = mkStream bytes (q + 6) /\ _pal p' = _pal p /\
     _palDirtyMin p' = _palDirtyMin p /\ _palDirtyMax p' = _palDirtyMax p) /\
    (_skipPalette p = false ->
     b' = mkStream bytes (q + 774) /\
     _pal p' = map to_byte (take 768 (drop (Z.to_nat (q + 6)) bytes)) /\
     _palDirtyMin p' <= 0 /\ 255 <= _palDirtyMax p').
Proof.
  intros Hsz Hq Hlen Hpal. unfold handleAnimHeader, assert.
  rewrite (proj2 (Z.leb_le (0x300 + 6) subSize)) by lia. cbn [bind].
  rewrite (readUint16LE_within bytes q) by lia.
  rewrite (readUint16LE_within bytes (q + 2)) by lia.
  rewrite (readUint16LE_within bytes (q + 2 + 2)) by lia.
  set (n := READ_LE_UINT16 bytes (Z.to_nat (q + 2))).
  change (_skipPalette (set_nbframes n p)) with (_skipPalette p).
  destruct (_skipPalette p) eqn:Es.
  - eexists _, _. split; [reflexivity|]. split; [reflexivity|].
    split; [|discriminate]. intros _.
    split; [f_equal; lia|]. repeat split; reflexivity.
  - change (_pal (set_nbframes n p)) with (_pal p).
    unfold readPalette. rewrite read_within by lia.
    set (got := take (Z.to_nat 768) (drop (Z.to_nat (q + 2 + 2 + 2)) bytes)).
    assert (Hgot : length got = 768%nat).
    { unfold got. rewrite length_take, length_drop. lia. }
    eexists _, _. split; [reflexivity|]. 
    destruct (setDirtyColors_pal 0 255
                (set_pal (map to_byte got ++ drop (length got) (_pal p))
                   (set_nbframes n p))) as [Hp _].
    destruct (setDirtyColors_range 0 255
                (set_pal (map to_byte got ++ drop (length got) (_pal p))
                   (set_nbframes n p))) as [Hmin Hmax].
    split; [transitivity (_nbframes (set_pal (map to_byte got ++ drop (length got) (_pal p)) (set_nbframes n p))); [|reflexivity];
            unfold setDirtyColors; repeat case_match; reflexivity|].
    split; [discriminate|]. intros _.
    split; [f_equal; lia|]. rewrite Hp, Hmin, Hmax. cbn [_pal set_pal].
    split; [|lia].
    rewrite drop_ge by lia. rewrite app_nil_r. unfold got.
    replace (q + 2 + 2 + 2) with (q + 6) by lia. reflexivity.
Qed.
End MoreProperties.

(** * The further properties on concrete inputs *)


Lemma iact_sample_value_witness :
  exists hi lo : Z,
    iact_sample [200] 0 2 = Ok ([hi; lo], 0 + 1) /\
    to_int16 (hi * 256 + lo) = -224.
Proof.
  destruct (iact_sample_value [200] 0 2 200) as [Hplain _];
    [reflexivity|lia|].
  destruct Hplain as (hi & lo & Hs & _ & _ & _ & Hfit); [lia|].
  exists hi, lo. split; [exact Hs|].
  rewrite Hfit; [reflexivity|]. vm_compute. split; discriminate.
Defined.

Lemma StringResource_get_lookup_witness :
  fst (fst (StringResource_get 3 sampleStrings)) = Some "abc"%string /\
  fst (fst (StringResource_get 9 sampleStrings)) = Some UNKNOWN_STRING.
Proof.
  assert (Hc : sr_coherent sampleStrings) by (left; reflexivity).
  split.
  - pose proof (StringResource_get_lookup 3 sampleStrings Hc) as H.
    destruct (StringResource_get 3 sampleStrings) as [[r sr'] w].
    destruct H as (-> & _); [lia|]. reflexivity.
  - pose proof (StringResource_get_lookup 9 sampleStrings Hc) as H.
    destruct (StringResource_get 9 sampleStrings) as [[r sr'] w].
    destruct H as (-> & _); [lia|]. reflexivity.
Defined.

Lemma StringResource_get_twice_witness :
  StringResource_get 4 (snd (fst (StringResource_get 4 sampleStrings)))
  = (Some "def"%string, snd (fst (StringResource_get 4 sampleStrings)), false).
Proof.
  assert (Hc : sr_coherent sampleStrings) by (left; reflexivity).
  pose proof (StringResource_get_twice 4 sampleStrings Hc) as H.
  assert (Hr : fst (fst (StringResource_get 4 sampleStrings)) = Some "def"%string)
    by reflexivity.
  destruct (StringResource_get 4 sampleStrings) as [[r sr'] w].
  cbn [fst snd] in *. rewrite <- Hr. apply H; [lia|discriminate].
Defined.

Lemma getStrings_buffer_encodeETRS_witness :
  exists buf : list Z,
    getStrings_buffer true (encodeETRS [72; 105]) = Ok (buf, 2) /\
    take 2 buf = [72; 105] /\ buf !! 2%nat = Some 0.
Proof.
  apply (getStrings_buffer_encodeETRS [72; 105]).
  - repeat constructor; unfold is_byte; lia.
  - discriminate.
Defined.

Lemma npalPlayer_synced : @pal_synced engineTiny (repeat 0 768) npalPlayer.
Proof.
  split; [reflexivity|]. split; [vm_compute; split; discriminate|].
  intros i Hi. exfalso. apply Hi. reflexivity.
Qed.


Lemma parseNextFrame_synced_witness :
  exists p' : @Player engineTiny,
    @parseNextFrame engineTiny 5 0 npalPlayer = Ok p' /\
    @pal_synced engineTiny (repeat 0 768) p'.
Proof.
  assert (Hok : is_ok (@parseNextFrame engineTiny 5 0 npalPlayer) = true)
    by (vm_compute; reflexivity).
  destruct (@parseNextFrame engineTiny 5 0 npalPlayer) as [p'| |] eqn:Hrun;
    try discriminate Hok.
  exists p'. split; [reflexivity|].
  apply (@parseNextFrame_synced engineTiny 5 0 (repeat 0 768) npalPlayer p');
    [reflexivity|exact npalPlayer_synced|exact Hrun].
Defined.


Lemma setPaletteValue_readback_witness :
  _pal (@setPaletteValue engineTiny 5 1 2 3 playerTiny) !! 16%nat = Some 2.
Proof.
  destruct (@setPaletteValue_readback engineTiny 5 1 2 3 playerTiny)
    as (_ & Hg & _); [lia|reflexivity|exact Hg].
Defined.

Lemma setPalette_all_dirty_witness :
  _pal (@setPalette engineTiny (repeat 9 768) playerTiny) = repeat 9 768.
Proof.
  destruct (@setPalette_all_dirty engineTiny (repeat 9 768) playerTiny)
    as (Hp & _); [rewrite repeat_length; lia|reflexivity|].
  rewrite Hp. apply take_ge. rewrite repeat_length. lia.
Defined.

Lemma tick_palette_shown_witness :
  exists (p1 : @Player engineTiny) (skipFrame due : bool),
    @tick_decode engineTiny 5 lateTick npalPlayer = Ok (p1, skipFrame, due) /\
    pushPalette
      (o_palette (snd (@tick_present engineTiny due skipFrame 0 p1)))
      (_pal p1) (repeat 0 768)
    = _pal (fst (fst (@tick_present engineTiny due skipFrame 0 p1))).
Proof.
  assert (Hok : is_ok (@tick_decode engineTiny 5 lateTick npalPlayer) = true)
    by (vm_compute; reflexivity).
  destruct (@tick_decode engineTiny 5 lateTick npalPlayer)
    as [[[p1 skipFrame] due]| |] eqn:Hrun; try discriminate Hok.
  exists p1, skipFrame, due. split; [reflexivity|].
  pose proof (@tick_palette_shown engineTiny 5 lateTick 0 (repeat 0 768)
                npalPlayer p1 skipFrame due eq_refl npalPlayer_synced Hrun)
    as H.
  destruct (@tick_present engineTiny due skipFrame 0 p1) as [[p2 sk] out].
  destruct H as (H & _). exact H.
Defined.

Lemma store_fetch_round_trip_witness :
  exists q' : @Player engineTiny,
    @handleFetch engineTiny 6 storStream clearedPlayer = Ok (storStream, q') /\
    take 8 (dst_pixels q') = [1; 2; 3; 4; 5; 6; 7; 8].
Proof.
  destruct (@store_fetch_round_trip engineTiny 6 storStream storePlayer
              clearedPlayer) as (q' & Hf & Ht & _);
    [reflexivity|vm_compute; lia|reflexivity|reflexivity|reflexivity|lia|].
  exists q'. split; [exact Hf|exact Ht].
Defined.

Lemma frame_object_skip_once_witness :
  exists (b' : Stream) (p' : @Player engineTiny),
    @handleFrameObject engineTiny 14 storStream skipPlayer = Ok (b', p') /\
    _skipNext p' = false /\ b' = storStream.
Proof.
  eexists _, _. split; [reflexivity|].
  destruct (@frame_object_skip_once engineTiny 14 storStream storStream
              skipPlayer (set_skipNext false skipPlayer) (or_introl eq_refl))
    as [Hclear Hkept].
  split; [exact Hclear|]. apply Hkept. reflexivity.
Defined.

Lemma handleZlibFrameObject_inflated_witness :
  (r <- @handleZlibFrameObject engineTiny 26 zfobStream playerTiny ;; Ok (snd r))
  = (r <- @handleFrameObject engineTiny 22 (mkStream zfobBody 0) playerTiny ;;
     Ok (snd r)) /\
  is_ok (@handleZlibFrameObject engineTiny 26 zfobStream playerTiny) = true.
Proof.
  split; [|vm_compute; reflexivity].
  apply (@handleZlibFrameObject_inflated engineTiny 26 zfobStream playerTiny
           zfobBody); [reflexivity|reflexivity|vm_compute; lia|vm_compute; reflexivity].
Defined.

Lemma handleIACT_DIG_feed_witness :
  exists (b' : Stream) (p' : @Player engineDIG),
    @handleIACT_DIG engineDIG 3 22 1 1 5 4 audioStream playerDIG = Ok (b', p') /\
    @iactTable_get engineDIG 1 p' = Ok 1.
Proof.
  assert (Hok : is_ok (@handleIACT_DIG engineDIG 3 22 1 1 5 4 audioStream
                         playerDIG) = true) by (vm_compute; reflexivity).
  destruct (@handleIACT_DIG engineDIG 3 22 1 1 5 4 audioStream playerDIG)
    as [[b' p']| |] eqn:Hrun; try discriminate Hok.
  exists b', p'. split; [reflexivity|].
  destruct (@handleIACT_DIG_feed engineDIG 3 22 1 1 5 4 audioStream b'
              playerDIG p' eq_refl Hrun)
    as (bufId & volume & Hbuf & _ & Hcase).
  vm_compute in Hbuf. inversion Hbuf; subst bufId volume.
  destruct Hcase as [(_ & Hno & _)|(_ & Hget & _)]; [|exact Hget].
  exfalso. apply Hno. reflexivity.
Defined.

Lemma pause_excluded_from_clock_witness :
  @elapsedTime engineTiny lateTick
    (@unpause engineTiny 900 (@pause engineTiny 500 playerTiny)) = 999600.
Proof.
  rewrite (@pause_excluded_from_clock engineTiny 500 900 lateTick playerTiny);
    reflexivity.
Defined.

Lemma seekSan_applySeek_witness :
  exists p' : @Player engineTiny,
    @applySeek engineTiny 50 (@seekSan engineTiny None 100 7 oddHeaderPlayer)
      = Ok p' /\
    _frame p' = 7 /\ pos (default oddHeaderStream (_base p')) = 108.
Proof.
  destruct (@seekSan_applySeek engineTiny 100 7 50 oddHeaderStream
              oddHeaderPlayer) as (p' & Hrun & Hbase & Hframe & _);
    [lia|reflexivity|].
  exists p'. split; [exact Hrun|]. split; [rewrite Hframe; reflexivity|].
  rewrite Hbase. reflexivity.
Defined.

Lemma handleFrame_step_budget_witness :
  exists (frameSize' : Z) (b' : Stream) (p' : @Player engineTiny),
    @handleFrame_step engineTiny 1 14 storStream playerTiny
      = Ok (frameSize', b', p') /\
    frameSize' = 0 /\ pos b' = 14.
Proof.
  assert (Hok : is_ok (@handleFrame_step engineTiny 1 14 storStream playerTiny)
                = true) by (vm_compute; reflexivity).
  destruct (@handleFrame_step engineTiny 1 14 storStream playerTiny)
    as [[[frameSize' b'] p']| |] eqn:Hrun; try discriminate Hok.
  exists frameSize', b', p'. split; [reflexivity|].
  destruct (@handleFrame_step_budget engineTiny 1 14 storStream playerTiny
              TAG_STOR 5 (skip 8 storStream) frameSize' b' p')
    as (Hsize & Hsum & _);
    [reflexivity|reflexivity|vm_compute; discriminate|lia|vm_compute; reflexivity
    |lia|vm_compute; split; discriminate|exact Hrun|].
  split; [rewrite Hsize; reflexivity|].
  rewrite Hsize in Hsum. vm_compute in Hsum |- *. lia.
Defined.

Lemma handleFrame_loop_stuck_witness :
  @handleFrame_loop engineTiny 100 8 stuckStream stuckPlayer = Spin.
Proof.
  apply (@handleFrame_loop_stuck engineTiny 100 8 stuckStream stuckPlayer);
    [lia|vm_compute; split; discriminate|vm_compute; discriminate
    |vm_compute; reflexivity|reflexivity|reflexivity].
Defined.

Lemma handleAnimHeader_parse_witness :
  exists (b' : Stream) (p' : @Player engineTiny),
    @handleAnimHeader engineTiny 775 (mkStream (s_bytes oddHeaderStream) 8)
      playerTiny = Ok (b', p') /\
    _nbframes p' = 1.
Proof.
  destruct (@handleAnimHeader_parse engineTiny 775 (s_bytes oddHeaderStream) 8
              playerTiny) as (b' & p' & Hrun & Hn & _);
    [lia|lia|vm_compute; discriminate|reflexivity|].
  exists b', p'. split; [exact Hrun|]. rewrite Hn. reflexivity.
Defined.
